(** * mighty_struct: relocatable structures inside one memory block

    A shallow embedding of [mighty_struct.h].  The header manipulates raw
    bytes: every object lives at an address of a flat byte-addressed memory,
    32-bit fields are read and written through four consecutive bytes, and
    cross references are self-relative 32-bit offsets.  The embedding keeps
    that view: a memory is a function from addresses to bytes, objects are
    addresses, and every member function of the header becomes a function
    that takes the memory and the address of [this].

    Layout assumptions (the ones the header itself relies on): [Size] is
    [uint32_t], [Offset] is [int32_t], [size_t] and pointers are 64 bits
    wide, structures have no padding, and multi-byte integers are stored
    little-endian. *)

From Stdlib Require Import ZArith Lia Bool.
Local Open Scope Z_scope.

(** ** Flat byte memory *)

Module Mem.

(** A memory cell holds a byte; it is read modulo 256. *)
Definition mem := Z -> Z.

Definition NULL : Z := 0.

(** Conversions to the integer types of the header. *)
Definition wrap32 (z : Z) : Z := z mod 2 ^ 32.
Definition wrap64 (z : Z) : Z := z mod 2 ^ 64.
Definition to_int32 (z : Z) : Z :=
  let u := wrap32 z in if u <? 2 ^ 31 then u else u - 2 ^ 32.

Definition load_u8 (m : mem) (a : Z) : Z := m a mod 256.

Definition store_u8 (m : mem) (a v : Z) : mem :=
  fun x => if x =? a then v mod 256 else m x.

Definition load_u32 (m : mem) (a : Z) : Z :=
  load_u8 m a + 256 * load_u8 m (a + 1)
  + 65536 * load_u8 m (a + 2) + 16777216 * load_u8 m (a + 3).

Definition store_u32 (m : mem) (a v : Z) : mem :=
  store_u8 (store_u8 (store_u8 (store_u8 m a v)
    (a + 1) (v / 256)) (a + 2) (v / 65536)) (a + 3) (v / 16777216).

Definition load_i32 (m : mem) (a : Z) : Z := to_int32 (load_u32 m a).

(** [std::memcpy(dst, src, n)] and [std::memset(p, c, n)]. *)
Definition memcpy (m : mem) (dst src n : Z) : mem :=
  fun x => if (dst <=? x) && (x <? dst + n) then m (src + (x - dst)) else m x.

Definition memset (m : mem) (p c n : Z) : mem :=
  fun x => if (p <=? x) && (x <? p + n) then c mod 256 else m x.

(** The all-zero memory, used to build concrete blocks. *)
Definition zero_mem : mem := fun _ => 0.

(** Two memories hold the same bytes on [lo, hi). *)
Definition agree (m1 m2 : mem) (lo hi : Z) : Prop :=
  forall x, lo <= x < hi -> m1 x = m2 x.

(** [m'] holds at [b'] a byte-for-byte copy of the [n] bytes of [m] at [b]. *)
Definition byte_copy (m : mem) (b : Z) (m' : mem) (b' : Z) (n : Z) : Prop :=
  forall i, 0 <= i < n -> m' (b' + i) = m (b + i).

End Mem.

Import Mem.


(** ** OffsetPtr<T, int32_t>

    The object is its [offset_] field; [s] is the address of the slot. *)

Module OffsetPtr.

Definition offset_ (m : mem) (s : Z) : Z := load_i32 m s.

(** [operator bool]: [!!offset_]. *)
Definition to_bool (m : mem) (s : Z) : bool := negb (offset_ m s =? 0).

(** [get]: null when the offset is zero, else [(char* )&offset_ + offset_]. *)
Definition get (m : mem) (s : Z) : Z :=
  if offset_ m s =? 0 then NULL else s + offset_ m s.

(** [to_offset]: [ptr ? (char* )ptr - (char* )(&offset_) : 0], the pointer
    difference converted to the 32-bit [Offset]. *)
Definition to_offset (s ptr : Z) : Z :=
  if ptr =? NULL then 0 else to_int32 (ptr - s).

(** [OffsetPtr()]. *)
Definition init (m : mem) (s : Z) : mem := store_u32 m s 0.

(** [operator= (const T* ptr)]. *)
Definition assign_ptr (m : mem) (s ptr : Z) : mem :=
  store_u32 m s (to_offset s ptr).

(** [operator= (const OffsetPtr<T>& ptr)], [src] the address of [ptr]. *)
Definition assign (m : mem) (s src : Z) : mem :=
  store_u32 m s (to_offset s (get m src)).

End OffsetPtr.

(** ** Allocator

    [capacity] at offset 0, [used_space] at offset 4. *)

Module Allocator.

Definition sizeof : Z := 8.

Definition capacity (m : mem) (a : Z) : Z := load_u32 m a.
Definition used_space (m : mem) (a : Z) : Z := load_u32 m (a + 4).

(** [Allocator(size_t n) : capacity(n), used_space(sizeof(Allocator))]. *)
Definition construct (m : mem) (a n : Z) : mem :=
  store_u32 (store_u32 m a n) (a + 4) sizeof.

(** [Allocate<T>(count)] with [sizeT = sizeof(T)]; the result pairs the
    memory after the call with the returned pointer. *)
Definition Allocate (m : mem) (a sizeT count : Z) : mem * Z :=
  if count =? 0 then (m, NULL)
  else
    let available_space := wrap32 (capacity m a - used_space m a) in
    let required_space := wrap64 (sizeT * count) in
    if required_space >? available_space then (m, NULL)
    else
      let ptr := a + used_space m a in
      let m1 := memset m ptr 0 required_space in
      let m2 := store_u32 m1 (a + 4) (used_space m1 a + required_space) in
      (m2, ptr).

End Allocator.

(** ** List<T>: the node

    [size_] at offset 0, [value] at offset 4, [next] at offset 8. *)

Inductive outcome (A : Type) : Type :=
| Ok (a : A)
| OutOfRange.
Arguments Ok {A} a.
Arguments OutOfRange {A}.

Module List.

Definition sizeof : Z := 12.

Record content_type : Type := mk_content { size : Z; value : Z; next : Z }.

Definition size_ (m : mem) (a : Z) : Z := load_u32 m a.
Definition value_slot (a : Z) : Z := a + 4.
Definition next_slot (a : Z) : Z := a + 8.

Definition empty (m : mem) (a : Z) : bool := size_ m a =? 0.

(** [List() : size_(0)] with the two default-constructed OffsetPtr. *)
Definition construct (m : mem) (a : Z) : mem :=
  OffsetPtr.init (OffsetPtr.init (store_u32 m a 0) (value_slot a)) (next_slot a).

(** [operator= (const content_type& a)]. *)
Definition assign (m : mem) (a : Z) (c : content_type) : mem :=
  let m1 := store_u32 m a (size c) in
  let m2 := OffsetPtr.assign_ptr m1 (value_slot a) (value c) in
  OffsetPtr.assign_ptr m2 (next_slot a) (next c).

(** [clear]. *)
Definition clear (m : mem) (a : Z) : mem :=
  let m1 := store_u32 m a 0 in
  let m2 := OffsetPtr.assign_ptr m1 (value_slot a) NULL in
  OffsetPtr.assign_ptr m2 (next_slot a) NULL.

(** [operator[] (index)]: the address the returned reference designates. *)
Fixpoint index (fuel : nat) (m : mem) (a i : Z) : option (outcome Z) :=
  match fuel with
  | O => None
  | S fuel' =>
      if i >=? size_ m a then Some OutOfRange
      else if i =? 0 then Some (Ok (OffsetPtr.get m (value_slot a)))
      else index fuel' m (OffsetPtr.get m (next_slot a)) (i - 1)
  end.

(** Iterators hold a node pointer. *)
Definition begin_ (m : mem) (a : Z) : Z := if empty m a then NULL else a.
Definition end_ : Z := NULL.
Definition iter_next (m : mem) (ptr : Z) : Z :=
  if negb (ptr =? NULL) && OffsetPtr.to_bool m (next_slot ptr)
  then OffsetPtr.get m (next_slot ptr) else NULL.
Definition iter_deref (m : mem) (ptr : Z) : Z := OffsetPtr.get m (value_slot ptr).

Section Elements.

(** [elem_eq m p q] is [T]'s [operator==] between the objects at [p] and [q]. *)
Variable elem_eq : mem -> Z -> Z -> bool.

(** The loop of [operator==]:
    [for (i = begin(), j = o.begin(); i != end(); ++i, ++j)]. *)
Fixpoint eq_loop (fuel : nat) (m : mem) (i j : Z) : option bool :=
  match fuel with
  | O => None
  | S fuel' =>
      if i =? end_ then Some true
      else if negb (elem_eq m (iter_deref m i) (iter_deref m j)) then Some false
      else eq_loop fuel' m (iter_next m i) (iter_next m j)
  end.

(** [operator== (const List<T>& o)]. *)
Definition eq (fuel : nat) (m : mem) (a o : Z) : option bool :=
  if negb (size_ m a =? size_ m o) then Some false
  else if negb (empty m a) && negb (empty m o)
       then eq_loop fuel m (begin_ m a) (begin_ m o)
       else Some true.

End Elements.

End List.

(** ** Vector<T>: [size_] at offset 0, [at] at offset 4. *)

Module Vector.

Definition sizeof : Z := 8.

Record content_type : Type := mk_content { size : Z; at_ : Z }.

Definition size_ (m : mem) (a : Z) : Z := load_u32 m a.
Definition at_slot (a : Z) : Z := a + 4.

Definition assign (m : mem) (a : Z) (c : content_type) : mem :=
  OffsetPtr.assign_ptr (store_u32 m a (size c)) (at_slot a) (at_ c).

(** [operator[] (index)] for elements of [sizeT] bytes. *)
Definition index (m : mem) (a sizeT i : Z) : outcome Z :=
  if i >=? size_ m a then OutOfRange
  else Ok (OffsetPtr.get m (at_slot a) + i * sizeT).

Definition begin_ (m : mem) (a : Z) : Z := OffsetPtr.get m (at_slot a).
Definition end_ (m : mem) (a sizeT : Z) : Z := begin_ m a + size_ m a * sizeT.

(** [clear] and [empty]. *)
Definition clear (m : mem) (a : Z) : mem :=
  OffsetPtr.assign_ptr (store_u32 m a 0) (at_slot a) NULL.

Definition empty (m : mem) (a : Z) : bool := size_ m a =? 0.

Section Elements.

(** [sizeT = sizeof(T)]; [elem_eq m p q] is [T]'s [operator==] between the
    objects at [p] and [q]. *)
Variable sizeT : Z.
Variable elem_eq : mem -> Z -> Z -> bool.

(** The loop of [operator==]:
    [for (i = begin(), j = o.begin(); i != end(); ++i, ++j)]. *)
Fixpoint eq_loop (fuel : nat) (m : mem) (a : Z) (i j : Z) : option bool :=
  match fuel with
  | O => None
  | S fuel' =>
      if i =? end_ m a sizeT then Some true
      else if negb (elem_eq m i j) then Some false
      else eq_loop fuel' m a (i + sizeT) (j + sizeT)
  end.

(** [operator== (const Vector<T>& o)]. *)
Definition eq (fuel : nat) (m : mem) (a o : Z) : option bool :=
  if negb (size_ m a =? size_ m o) then Some false
  else if negb (empty m a) && negb (empty m o)
       then eq_loop fuel m a (begin_ m a) (begin_ m o)
       else Some true.

End Elements.

End Vector.

(** ** Array<T, N>: [N] elements of [sizeT] bytes stored inline at [a]. *)

Module Array.

Definition sizeof (sizeT N : Z) : Z := sizeT * N.

(** [operator[] (index)]. *)
Definition index (a sizeT N i : Z) : outcome Z :=
  if i >=? N then OutOfRange else Ok (a + i * sizeT).

Definition size (N : Z) : Z := N.
Definition empty (N : Z) : bool := N =? 0.
Definition begin_ (a : Z) : Z := a.
Definition end_ (a sizeT N : Z) : Z := a + N * sizeT.

End Array.

(** ** Struct: [struct_size] at offset 0, [allocator] at offset 4. *)

Module Struct.

Definition sizeof : Z := 8.

Definition struct_size (m : mem) (b : Z) : Z := load_u32 m b.
Definition allocator_slot (b : Z) : Z := b + 4.

(** The implicit default constructor: [struct_size] is left as it is and
    [allocator] is default-constructed. *)
Definition construct (m : mem) (b : Z) : mem :=
  OffsetPtr.init m (allocator_slot b).

(** The arithmetic is done in the 32-bit [Size] and widened to [size_t]. *)
Definition capacity (m : mem) (b : Z) : Z :=
  wrap32 (struct_size m b +
          (if OffsetPtr.to_bool m (allocator_slot b)
           then Allocator.capacity m (OffsetPtr.get m (allocator_slot b))
           else 0)).

Definition used_space (m : mem) (b : Z) : Z :=
  wrap32 (struct_size m b +
          (if OffsetPtr.to_bool m (allocator_slot b)
           then Allocator.used_space m (OffsetPtr.get m (allocator_slot b))
           else 0)).

(** [Init<S>(free_space)] with [sizeS = sizeof(S)]. *)
Definition Init (m : mem) (b sizeS free_space : Z) : mem :=
  let m1 := store_u32 m b sizeS in
  if free_space =? 0 then OffsetPtr.assign_ptr m1 (allocator_slot b) NULL
  else
    let addr := b + struct_size m1 b in
    let m2 := Allocator.construct m1 addr free_space in
    OffsetPtr.assign_ptr m2 (allocator_slot b) addr.

(** [HasMember(member)]. *)
Definition HasMember (m : mem) (b member : Z) : bool :=
  struct_size m b >? member - b.

(** [Allocate<T>(count)]. *)
Definition Allocate (m : mem) (b sizeT count : Z) : mem * Z :=
  if OffsetPtr.to_bool m (allocator_slot b)
  then Allocator.Allocate m (OffsetPtr.get m (allocator_slot b)) sizeT count
  else (m, NULL).

(** [Copy(src)]. *)
Definition Copy (m : mem) (this src : Z) : mem * bool :=
  if (src =? NULL) || (capacity m this <? used_space m src) then (m, false)
  else
    let original_capacity := capacity m this in
    let m1 := memcpy m this src (used_space m src) in
    let m2 :=
      if OffsetPtr.to_bool m1 (allocator_slot this)
      then store_u32 m1 (OffsetPtr.get m1 (allocator_slot this))
             (wrap64 (original_capacity - struct_size m1 this))
      else m1 in
    (m2, true).

Section Record_S.

(** The user record [S]: its size and its default constructor run by
    the placement [new (buffer) S]. *)
Variable sizeS : Z.
Variable construct_S : mem -> Z -> mem.

(** [InplaceNew<S>(buffer, capacity)]. *)
Definition InplaceNew (m : mem) (buffer capacity : Z) : mem * Z :=
  let m1 := construct_S m buffer in
  (Init m1 buffer sizeS (wrap64 (capacity - sizeS)), buffer).

(** [New<S>(capacity)]; [buf] is what [new char[capacity]] returns. *)
Definition New (m : mem) (buf capacity : Z) : mem * Z :=
  InplaceNew m buf capacity.


End Record_S.

(** [CreateList<T>(size)] for elements of [sizeT] bytes. *)
Fixpoint CreateList (fuel : nat) (m : mem) (s sizeT size : Z)
  : option (mem * List.content_type) :=
  match fuel with
  | O => None
  | S fuel' =>
      if size >? 0 then
        let '(m1, v) := Allocate m s sizeT 1 in
        if v =? NULL then Some (m1, List.mk_content 0 v NULL)
        else if size >? 1 then
          let '(m2, n) := Allocate m1 s List.sizeof 1 in
          if n =? NULL then Some (m2, List.mk_content 0 v n)
          else
            match CreateList fuel' m2 s sizeT (size - 1) with
            | None => None
            | Some (m3, c) =>
                let m4 := List.assign m3 n c in
                if List.empty m4 n then Some (m4, List.mk_content 0 v n)
                else Some (m4, List.mk_content size v n)
            end
        else Some (m1, List.mk_content size v NULL)
      else Some (m, List.mk_content 0 NULL NULL)
  end.

(** [CreateVector<T>(size)] and [CreateMap<K, V>(size)]. *)
Definition CreateVector (m : mem) (s sizeT size : Z) : mem * Vector.content_type :=
  let '(m1, p) := Allocate m s sizeT size in
  (m1, Vector.mk_content (if p =? NULL then 0 else size) p).

Definition CreateMap (m : mem) (s sizePair size : Z) : mem * Vector.content_type :=
  CreateVector m s sizePair size.

(** [strncpy(p, src, n)]: [src] lists the characters before the
    terminating NUL of [c_str()]. *)
Fixpoint strncpy (m : mem) (p : Z) (src : list Z) (n : nat) : mem :=
  match n with
  | O => m
  | S n' =>
      match src with
      | cons c rest =>
          if c mod 256 =? 0 then memset m p 0 (Z.of_nat n)
          else strncpy (store_u8 m p c) (p + 1) rest n'
      | nil => memset m p 0 (Z.of_nat n)
      end
  end.

(** [CreateString(str)]. *)
Definition CreateString (m : mem) (s : Z) (str : list Z) : mem * Z :=
  let size := wrap64 (Z.of_nat (length str) + 1) in
  let '(m1, p) := Allocate m s 1 size in
  if negb (p =? NULL) then (strncpy m1 p str (Z.to_nat size), p)
  else (m1, p).

(** [Find<T>(offset)]: the bound check adds in [size_t], and
    [address() + offset] is an address of the 64-bit address space. *)
Definition Find (m : mem) (b sizeT offset : Z) : Z :=
  if wrap64 (offset + sizeT) >? capacity m b then NULL
  else wrap64 (b + offset).

(** The loop [for (i = 0; i < count; ++i) a[i].Init<T>()] of [Create] and
    [CreateArray], started at index [i] with [k] elements to go. *)
Fixpoint init_elements (m : mem) (a sizeT i : Z) (k : nat) : mem :=
  match k with
  | O => m
  | S k' => init_elements (Init m (a + i * sizeT) sizeT 0) a sizeT (i + 1) k'
  end.

(** [Create<T>(count)]. *)
Definition Create (m : mem) (s sizeT count : Z) : mem * Z :=
  let '(m1, a) := Allocate m s sizeT count in
  if negb (a =? NULL) then (init_elements m1 a sizeT 0 (Z.to_nat count), a)
  else (m1, a).

(** [CreateArray<T, N>()]. *)
Definition CreateArray (m : mem) (s sizeT N : Z) : mem * Z :=
  let '(m1, a) := Allocate m s (Array.sizeof sizeT N) 1 in
  if negb (a =? NULL)
  then (init_elements m1 a sizeT 0 (Z.to_nat (Array.size N)), a)
  else (m1, a).

End Struct.

(** A block as [Init] lays it out and [Allocate] keeps it: the record holds
    at least the header, the allocator (when there is one) sits right after
    the record, and its counters satisfy
    [sizeof(Allocator) <= used_space <= capacity] within a 32-bit block. *)
Definition wf_block (m : mem) (b : Z) : Prop :=
  0 < b
  /\ Struct.sizeof <= Struct.struct_size m b < 2 ^ 31
  /\ (OffsetPtr.to_bool m (Struct.allocator_slot b) = true ->
      let al := OffsetPtr.get m (Struct.allocator_slot b) in
      al = b + Struct.struct_size m b
      /\ Allocator.sizeof <= Allocator.used_space m al <= Allocator.capacity m al
      /\ Struct.struct_size m b + Allocator.capacity m al < 2 ^ 32).

(** The size invariant of one node, as a decidable check. *)
Definition node_invariant (m : mem) (a : Z) : bool :=
  let next := OffsetPtr.get m (List.next_slot a) in
  if List.size_ m a =? 0
  then negb (OffsetPtr.to_bool m (List.value_slot a))
       && negb (OffsetPtr.to_bool m (List.next_slot a))
  else OffsetPtr.to_bool m (List.value_slot a)
       && (List.size_ m a =?
           1 + (if OffsetPtr.to_bool m (List.next_slot a)
                then List.size_ m next else 0)).

(** The invariant checked on the node at [a] and on the nodes reached by
    following [next] at most [k] times. *)
Fixpoint chain_invariant (k : nat) (m : mem) (a : Z) : bool :=
  node_invariant m a
  && match k with
     | O => true
     | S k' =>
         if OffsetPtr.to_bool m (List.next_slot a)
         then chain_invariant k' m (OffsetPtr.get m (List.next_slot a))
         else true
     end.

(** ** List<T>::append and List<T>::resize *)

Module ListOps.

(** [append(Struct* s, const content_type& c)] on the node at [a]. *)
Fixpoint append (fuel : nat) (m : mem) (a s : Z) (c : List.content_type)
  : option (mem * bool) :=
  match fuel with
  | O => None
  | S fuel' =>
      if s =? NULL then Some (m, false)
      else if List.empty m a then Some (List.assign m a c, true)
      else
        let '(m1, ok) :=
          if negb (OffsetPtr.to_bool m (List.next_slot a)) then
            let '(m', p) := Struct.Allocate m s List.sizeof 1 in
            let m'' := OffsetPtr.assign_ptr m' (List.next_slot a) p in
            (m'', OffsetPtr.to_bool m'' (List.next_slot a))
          else (m, true) in
        if negb ok then Some (m1, false)
        else
          match append fuel' m1 (OffsetPtr.get m1 (List.next_slot a)) s c with
          | None => None
          | Some (m2, false) => Some (m2, false)
          | Some (m2, true) =>
              let n := OffsetPtr.get m2 (List.next_slot a) in
              Some (store_u32 m2 a (List.size_ m2 n + 1), true)
          end
  end.

(** [append(Struct* s, V* v)]. *)
Definition append_value (fuel : nat) (m : mem) (a s v : Z) : option (mem * bool) :=
  if (s =? NULL) || (v =? NULL) then Some (m, false)
  else append fuel m a s (List.mk_content 1 v NULL).

(** [resize(Struct* s, size_t new_size)] for elements of [sizeT] bytes. *)
Fixpoint resize (fuel : nat) (m : mem) (a s sizeT new_size : Z)
  : option (mem * bool) :=
  match fuel with
  | O => None
  | S fuel' =>
      if new_size =? List.size_ m a then Some (m, true)
      else if new_size >? List.size_ m a then
        match Struct.CreateList fuel m s sizeT (new_size - List.size_ m a) with
        | None => None
        | Some (m1, c) => append fuel m1 a s c
        end
      else if new_size =? 0 then Some (List.clear m a, true)
      else
        let r :=
          if new_size =? 1
          then Some (OffsetPtr.assign_ptr m (List.next_slot a) NULL, true)
          else resize fuel' m (OffsetPtr.get m (List.next_slot a)) s sizeT
                 (new_size - 1) in
        match r with
        | None => None
        | Some (m1, false) => Some (m1, false)
        | Some (m1, true) => Some (store_u32 m1 a new_size, true)
        end
  end.

End ListOps.

(** ** String: [data], an OffsetPtr<char>, at offset 0. *)

Module String.

(** [strcmp] and [strlen] read until a NUL byte. *)
Fixpoint strcmp (fuel : nat) (m : mem) (p q : Z) : option Z :=
  match fuel with
  | O => None
  | S fuel' =>
      let c1 := load_u8 m p in
      let c2 := load_u8 m q in
      if negb (c1 =? c2) then Some (c1 - c2)
      else if c1 =? 0 then Some 0
      else strcmp fuel' m (p + 1) (q + 1)
  end.

Fixpoint strlen (fuel : nat) (m : mem) (p : Z) : option Z :=
  match fuel with
  | O => None
  | S fuel' =>
      if load_u8 m p =? 0 then Some 0
      else option_map Z.succ (strlen fuel' m (p + 1))
  end.

Section Literal.

(** The address of the string literal [""], a static NUL byte. *)
Variable empty_literal : Z.

(** [operator== (const char* s)]. *)
Definition eq_cstr (fuel : nat) (m : mem) (a s : Z) : option bool :=
  if OffsetPtr.get m a =? s then Some true
  else if OffsetPtr.to_bool m a && negb (s =? NULL) then
    option_map (fun r => r =? 0) (strcmp fuel m (OffsetPtr.get m a) s)
  else Some false.

(** [operator== (const String& o)]: [*this == o.data], the OffsetPtr
    converted to its target pointer. *)
Definition eq_String (fuel : nat) (m : mem) (a o : Z) : option bool :=
  eq_cstr fuel m a (OffsetPtr.get m o).

(** [c_str], [length], [empty], [clear]. *)
Definition c_str (m : mem) (a : Z) : Z :=
  if OffsetPtr.to_bool m a then OffsetPtr.get m a else empty_literal.

Definition length (fuel : nat) (m : mem) (a : Z) : option Z :=
  if OffsetPtr.to_bool m a then strlen fuel m (c_str m a) else Some 0.

Definition empty (m : mem) (a : Z) : bool :=
  negb (OffsetPtr.to_bool m a) || (load_u8 m (OffsetPtr.get m a) =? 0).

Definition clear (m : mem) (a : Z) : mem := OffsetPtr.assign_ptr m a NULL.

(** [operator= (const char* str)]: [data = str]. *)
Definition assign (m : mem) (a str : Z) : mem := OffsetPtr.assign_ptr m a str.

(** [operator!= (const char* s)] and [operator!= (const String& o)]. *)
Definition ne_cstr (fuel : nat) (m : mem) (a s : Z) : option bool :=
  option_map negb (eq_cstr fuel m a s).

Definition ne_String (fuel : nat) (m : mem) (a o : Z) : option bool :=
  option_map negb (eq_cstr fuel m a (OffsetPtr.get m o)).

End Literal.

End String.

(** ** Map<K, V>: a Vector of Pair<K, V>. *)

Module Map.

Section Pair_KV.

(** [sizePair = sizeof(Pair<K, V>)]; [first] is at offset 0 and
    [second] at [offset_second]; [key_eq m p k] is [K]'s
    [operator==] between the key stored at [p] and [k]. *)
Variable K : Type.
Variable sizePair : Z.
Variable offset_second : Z.
Variable key_eq : mem -> Z -> K -> bool.

Definition first (it : Z) : Z := it.
Definition second (it : Z) : Z := it + offset_second.

(** The loop of [find]: [while (it != end() && !(it->first == key)) ++it]. *)
Fixpoint find_loop (fuel : nat) (m : mem) (a : Z) (key : K) (it : Z)
  : option Z :=
  match fuel with
  | O => None
  | S fuel' =>
      if negb (it =? Vector.end_ m a sizePair)
         && negb (key_eq m (first it) key)
      then find_loop fuel' m a key (it + sizePair)
      else Some it
  end.

Definition find (fuel : nat) (m : mem) (a : Z) (key : K) : option Z :=
  find_loop fuel m a key (Vector.begin_ m a).

(** [operator[] (key)]: throws when [find] reaches [end()], else
    [return *it;], a reference to the object [it] points to. *)
Definition subscript (fuel : nat) (m : mem) (a : Z) (key : K)
  : option (outcome Z) :=
  match find fuel m a key with
  | None => None
  | Some it =>
      if it =? Vector.end_ m a sizePair then Some OutOfRange
      else Some (Ok it)
  end.

End Pair_KV.

End Map.

(** ** Texts in memory *)

(** The bytes at [p] are the characters [s], none of them NUL, followed by
    a NUL. *)
Fixpoint cstr (m : mem) (p : Z) (s : list Z) : Prop :=
  match s with
  | nil => load_u8 m p = 0
  | cons c r => 0 < c < 256 /\ load_u8 m p = c /\ cstr m (p + 1) r
  end.

(** ** Lists in memory *)

(** The chain that starts at the node [x] holds the element pointer [v]
    followed by the (node, element pointer) pairs of [rest]: every node
    records the number of elements from it onward, has its [value] set,
    and links to the next node; the last node has a null [next]. *)
Fixpoint lrep (m : mem) (x v : Z) (rest : list (Z * Z)) : Prop :=
  List.size_ m x = 1 + Z.of_nat (length rest)
  /\ OffsetPtr.to_bool m (List.value_slot x) = true
  /\ OffsetPtr.get m (List.value_slot x) = v
  /\ match rest with
     | nil => OffsetPtr.to_bool m (List.next_slot x) = false
     | cons (y, w) rest' =>
         OffsetPtr.to_bool m (List.next_slot x) = true
         /\ OffsetPtr.get m (List.next_slot x) = y
         /\ lrep m y w rest'
     end.

(** The nodes and the element pointers of a chain, in order. *)
Definition nodes (x : Z) (rest : list (Z * Z)) : list Z :=
  cons x (Lists.List.map fst rest).

Definition values (v : Z) (rest : list (Z * Z)) : list Z :=
  cons v (Lists.List.map snd rest).

(** The node at [z] lies in the used bytes of the block at [b], after the
    header and clear of the allocator's own header. *)
Definition node_ok (m : mem) (b z : Z) : Prop :=
  b + Struct.sizeof <= z
  /\ (z + List.sizeof <= b + Struct.struct_size m b
      \/ b + Struct.struct_size m b + Allocator.sizeof <= z)
  /\ z + List.sizeof <= b + Struct.used_space m b.

(** No two nodes of the list overlap. *)
Fixpoint disjoint_nodes (l : list Z) : Prop :=
  match l with
  | nil => True
  | cons z r =>
      (forall y, Lists.List.In y r ->
         z + List.sizeof <= y \/ y + List.sizeof <= z)
      /\ disjoint_nodes r
  end.

(** The (node, element) addresses of the [k] further nodes that
    [CreateList] lays out one after the other from [q] on: a node of
    [sizeof(List<T>)] bytes, its element of [sizeT] bytes right behind. *)
Fixpoint chain_layout (q sizeT : Z) (k : nat) : list (Z * Z) :=
  match k with
  | O => nil
  | S k' =>
      cons (q, q + List.sizeof)
        (chain_layout (q + List.sizeof + sizeT) sizeT k')
  end.

(** ** Vocabulary of the relocation law *)

Module Reloc.

(** A pointer result moved by the displacement [d]; null stays null. *)
Definition reloc (d p : Z) : Z := if p =? NULL then NULL else p + d.

Definition outcome_map {A B : Type} (f : A -> B) (o : outcome A) : outcome B :=
  match o with
  | Ok a => Ok (f a)
  | OutOfRange => OutOfRange
  end.

(** The [size] bytes at [a] lie within the [n] bytes at [b]. *)
Definition in_block (b n a size : Z) : Prop := b <= a /\ a + size <= b + n.

(** A non-null OffsetPtr does not resolve to the null address. *)
Definition valid_ptr (m : mem) (s : Z) : Prop :=
  OffsetPtr.to_bool m s = true -> OffsetPtr.get m s <> NULL.

(** The list node at [a] and the [k] nodes that follow it lie in the block. *)
Fixpoint chain_in (k : nat) (m : mem) (b n a : Z) : Prop :=
  in_block b n a List.sizeof
  /\ valid_ptr m (List.value_slot a)
  /\ match k with
     | O => True
     | S k' =>
         OffsetPtr.to_bool m (List.next_slot a) = true
         /\ chain_in k' m b n (OffsetPtr.get m (List.next_slot a))
     end.

End Reloc.

(** ** Sample records

    Concrete instances of the templates, used to run the code. *)

Module Samples.

(** [struct R : Struct { List<int32_t> items; }]: 20 bytes, the list at
    offset 8. *)
Definition sizeof_ListRecord : Z := 20.
Definition items (b : Z) : Z := b + 8.
Definition construct_ListRecord (m : mem) (b : Z) : mem :=
  List.construct (Struct.construct m b) (items b).

(** A 1 KiB block at address 1000 of that record; [push] allocates an
    [int32_t], stores [v] in it and appends it to [items]. *)
Definition empty_list_block : mem :=
  fst (Struct.InplaceNew sizeof_ListRecord construct_ListRecord zero_mem 1000 1024).

Definition push (m : mem) (v : Z) : mem :=
  let '(m1, p) := Struct.Allocate m 1000 4 1 in
  let m2 := store_u32 m1 p v in
  match ListOps.append_value 8 m2 (items 1000) 1000 p with
  | Some (m3, _) => m3
  | None => m2
  end.

Definition list_block : mem := push (push (push empty_list_block 1) 2) 3.

(** The nodes after the head and the elements of [list_block]. *)
Definition list_rest : list (Z * Z) := cons (1036, 1032) (cons (1052, 1048) nil).

(** The element at [index], read as an [int32_t]. *)
Definition element (m : mem) (index : Z) : option (outcome Z) :=
  option_map (Reloc.outcome_map (load_i32 m)) (List.index 8 m (items 1000) index).

(** [struct R : Struct { String name; }]: 12 bytes, the string at offset 8. *)
Definition sizeof_StringRecord : Z := 12.
Definition name (b : Z) : Z := b + 8.
Definition construct_StringRecord (m : mem) (b : Z) : mem :=
  OffsetPtr.init (Struct.construct m b) (name b).

(** A 128-byte block at address 1000 whose [name] is set to "hello". *)
Definition hello : list Z := cons 104 (cons 101 (cons 108 (cons 108 (cons 111 nil)))).
Definition hello_block : mem :=
  let m0 := fst (Struct.InplaceNew sizeof_StringRecord construct_StringRecord
                   zero_mem 1000 128) in
  let '(m1, p) := Struct.CreateString m0 1000 hello in
  OffsetPtr.assign_ptr m1 (name 1000) p.

(** [Pair<int32_t, int32_t>]: 8 bytes, [second] at offset 4; the keys are
    compared as [int32_t]. *)
Definition sizeof_IntPair : Z := 8.
Definition offsetof_second : Z := 4.
Definition int_key_eq (m : mem) (p : Z) (k : Z) : bool := load_i32 m p =? k.

(** A 64-byte block at address 1000 holding a [Vector] header at offset 8
    whose two pairs are (1, 10) and (2, 20). *)
Definition map_at : Z := 1008.
Definition map_block : mem :=
  let m0 := fst (Struct.InplaceNew 16 Struct.construct zero_mem 1000 64) in
  let '(m1, c) := Struct.CreateMap m0 1000 sizeof_IntPair 2 in
  let m2 := Vector.assign m1 map_at c in
  let p := Vector.at_ c in
  store_u32 (store_u32 (store_u32 (store_u32 m2 p 1) (p + 4) 10) (p + 8) 2)
    (p + 12) 20.

End Samples.

Ltac cmp_cases :=
  repeat match goal with
  | |- context [?a =? ?b] => destruct (Z.eqb_spec a b); try lia
  | |- context [?a <=? ?b] => destruct (Z.leb_spec a b); try lia
  | |- context [?a <? ?b] => destruct (Z.ltb_spec a b); try lia
  end; simpl.

Section MemFacts.

Lemma wrap32_range z : 0 <= wrap32 z < 2 ^ 32.
Proof. unfold wrap32. apply Z.mod_pos_bound. lia. Qed.

Lemma wrap32_small z : 0 <= z < 2 ^ 32 -> wrap32 z = z.
Proof. intros. unfold wrap32. apply Z.mod_small. lia. Qed.

Lemma wrap64_small z : 0 <= z < 2 ^ 64 -> wrap64 z = z.
Proof. intros. unfold wrap64. apply Z.mod_small. lia. Qed.

Lemma wrap64_range z : 0 <= wrap64 z < 2 ^ 64.
Proof. unfold wrap64. apply Z.mod_pos_bound. lia. Qed.

Lemma to_int32_small z : - 2 ^ 31 <= z < 2 ^ 31 -> to_int32 z = z.
Proof.
  intros H. unfold to_int32, wrap32.
  destruct (Z_lt_le_dec z 0) as [Hn | Hp].
  - assert (E : z mod 2 ^ 32 = z + 2 ^ 32).
    { symmetry. apply (Z.mod_unique z (2 ^ 32) (-1)); lia. }
    rewrite E. cmp_cases; lia.
  - rewrite Z.mod_small by lia. cmp_cases; reflexivity.
Qed.

Lemma to_int32_zero z : to_int32 z = 0 <-> wrap32 z = 0.
Proof.
  unfold to_int32. pose proof (wrap32_range z).
  destruct (Z.ltb_spec (wrap32 z) (2 ^ 31)); lia.
Qed.

Lemma load_u8_range m a : 0 <= load_u8 m a < 256.
Proof. unfold load_u8. apply Z.mod_pos_bound. lia. Qed.

Lemma load_u32_range m a : 0 <= load_u32 m a < 2 ^ 32.
Proof.
  unfold load_u32.
  pose proof (load_u8_range m a). pose proof (load_u8_range m (a + 1)).
  pose proof (load_u8_range m (a + 2)). pose proof (load_u8_range m (a + 3)).
  lia.
Qed.

Lemma load_i32_range m a : - 2 ^ 31 <= load_i32 m a < 2 ^ 31.
Proof.
  unfold load_i32, to_int32. pose proof (wrap32_range (load_u32 m a)).
  destruct (Z.ltb_spec (wrap32 (load_u32 m a)) (2 ^ 31)); lia.
Qed.

(** Four little-endian bytes hold a value modulo 2^32. *)
Lemma le_bytes_combine v :
  (v mod 256) mod 256 + 256 * ((v / 256 mod 256) mod 256)
  + 65536 * ((v / 65536 mod 256) mod 256)
  + 16777216 * ((v / 16777216 mod 256) mod 256) = v mod 2 ^ 32.
Proof.
  rewrite !Z.mod_mod by lia.
  assert (E2 : v / 65536 = v / 256 / 256) by (rewrite Z.div_div by lia; reflexivity).
  assert (E3 : v / 16777216 = v / 256 / 256 / 256)
    by (rewrite !Z.div_div by lia; reflexivity).
  rewrite E2, E3.
  set (q1 := v / 256). set (q2 := q1 / 256). set (q3 := q2 / 256).
  pose proof (Z.div_mod v 256 ltac:(lia)) as D0. fold q1 in D0.
  pose proof (Z.div_mod q1 256 ltac:(lia)) as D1. fold q2 in D1.
  pose proof (Z.div_mod q2 256 ltac:(lia)) as D2. fold q3 in D2.
  pose proof (Z.div_mod q3 256 ltac:(lia)) as D3.
  pose proof (Z.mod_pos_bound v 256 ltac:(lia)).
  pose proof (Z.mod_pos_bound q1 256 ltac:(lia)).
  pose proof (Z.mod_pos_bound q2 256 ltac:(lia)).
  pose proof (Z.mod_pos_bound q3 256 ltac:(lia)).
  apply (Z.mod_unique v (2 ^ 32) (q3 / 256)); lia.
Qed.

Lemma load_store_u32_same m a v : load_u32 (store_u32 m a v) a = wrap32 v.
Proof.
  unfold load_u32, store_u32, load_u8, store_u8, wrap32.
  cmp_cases; apply le_bytes_combine.
Qed.

Lemma load_store_i32_same m a v : load_i32 (store_u32 m a v) a = to_int32 v.
Proof.
  unfold load_i32. rewrite load_store_u32_same.
  unfold to_int32, wrap32. rewrite Z.mod_mod by lia. reflexivity.
Qed.

Lemma store_u32_other m a v x : x < a \/ a + 4 <= x -> store_u32 m a v x = m x.
Proof. intros H. unfold store_u32, store_u8. cmp_cases; reflexivity. Qed.

Lemma load_u8_agree m1 m2 a : m1 a = m2 a -> load_u8 m1 a = load_u8 m2 a.
Proof. unfold load_u8. intros ->. reflexivity. Qed.

Lemma load_u32_agree m1 m2 a :
  agree m1 m2 a (a + 4) -> load_u32 m1 a = load_u32 m2 a.
Proof.
  intros H. unfold load_u32, load_u8.
  rewrite (H a), (H (a + 1)), (H (a + 2)), (H (a + 3)) by lia. reflexivity.
Qed.

Lemma load_i32_agree m1 m2 a :
  agree m1 m2 a (a + 4) -> load_i32 m1 a = load_i32 m2 a.
Proof. intros H. unfold load_i32. rewrite (load_u32_agree _ _ _ H). reflexivity. Qed.

Lemma load_store_u32_other m a v b :
  b + 4 <= a \/ a + 4 <= b -> load_u32 (store_u32 m a v) b = load_u32 m b.
Proof.
  intros H. apply load_u32_agree. intros x Hx. apply store_u32_other. lia.
Qed.

Lemma memcpy_inside m dst src n x :
  dst <= x < dst + n -> memcpy m dst src n x = m (src + (x - dst)).
Proof. intros H. unfold memcpy. cmp_cases; reflexivity. Qed.

Lemma memcpy_outside m dst src n x :
  x < dst \/ dst + n <= x -> memcpy m dst src n x = m x.
Proof. intros H. unfold memcpy. cmp_cases; reflexivity. Qed.

Lemma memset_inside m p c n x :
  p <= x < p + n -> memset m p c n x = c mod 256.
Proof. intros H. unfold memset. cmp_cases; reflexivity. Qed.

Lemma memset_outside m p c n x :
  x < p \/ p + n <= x -> memset m p c n x = m x.
Proof. intros H. unfold memset. cmp_cases; reflexivity. Qed.

Lemma byte_copy_memcpy m b b' n : byte_copy m b (memcpy m b' b n) b' n.
Proof.
  intros i Hi. rewrite memcpy_inside by lia. f_equal. lia.
Qed.

Lemma load_u8_copy m b m' b' n i :
  byte_copy m b m' b' n -> 0 <= i < n ->
  load_u8 m' (b' + i) = load_u8 m (b + i).
Proof. intros H Hi. unfold load_u8. rewrite H by lia. reflexivity. Qed.

Lemma load_u32_copy m b m' b' n i :
  byte_copy m b m' b' n -> 0 <= i -> i + 4 <= n ->
  load_u32 m' (b' + i) = load_u32 m (b + i).
Proof.
  intros H H1 H2. unfold load_u32.
  rewrite <- !Z.add_assoc.
  rewrite !(load_u8_copy m b m' b' n) by (assumption || lia). reflexivity.
Qed.

Lemma load_i32_copy m b m' b' n i :
  byte_copy m b m' b' n -> 0 <= i -> i + 4 <= n ->
  load_i32 m' (b' + i) = load_i32 m (b + i).
Proof.
  intros. unfold load_i32. rewrite (load_u32_copy m b m' b' n) by assumption.
  reflexivity.
Qed.

Lemma wrap32_wrap64 z : wrap32 (wrap64 z) = wrap32 z.
Proof.
  unfold wrap32, wrap64.
  apply (Z.mod_unique z (2 ^ 32) (z / 2 ^ 64 * 2 ^ 32 + z mod 2 ^ 64 / 2 ^ 32)).
  - left. apply Z.mod_pos_bound. lia.
  - pose proof (Z.div_mod z (2 ^ 64) ltac:(lia)).
    pose proof (Z.div_mod (z mod 2 ^ 64) (2 ^ 32) ltac:(lia)). lia.
Qed.

Lemma wrap32_add_r x y : wrap32 (x + wrap32 y) = wrap32 (x + y).
Proof. unfold wrap32. apply Z.add_mod_idemp_r. lia. Qed.

End MemFacts.

(** ** The self-relative pointer *)

Section OffsetPtrFacts.

Lemma to_bool_false_iff m s :
  OffsetPtr.to_bool m s = false <-> OffsetPtr.offset_ m s = 0.
Proof.
  unfold OffsetPtr.to_bool.
  destruct (Z.eqb_spec (OffsetPtr.offset_ m s) 0); simpl; split; congruence.
Qed.

Lemma to_bool_true_iff m s :
  OffsetPtr.to_bool m s = true <-> OffsetPtr.offset_ m s <> 0.
Proof.
  unfold OffsetPtr.to_bool.
  destruct (Z.eqb_spec (OffsetPtr.offset_ m s) 0); simpl; split; congruence.
Qed.

Lemma get_null m s : OffsetPtr.to_bool m s = false -> OffsetPtr.get m s = NULL.
Proof.
  intros H. apply to_bool_false_iff in H. unfold OffsetPtr.get.
  rewrite H. reflexivity.
Qed.

Lemma get_target m s :
  OffsetPtr.to_bool m s = true -> OffsetPtr.get m s = s + OffsetPtr.offset_ m s.
Proof.
  intros H. apply to_bool_true_iff in H. unfold OffsetPtr.get.
  destruct (Z.eqb_spec (OffsetPtr.offset_ m s) 0); congruence.
Qed.

Lemma offset_store m s v : OffsetPtr.offset_ (store_u32 m s v) s = to_int32 v.
Proof. apply load_store_i32_same. Qed.

Lemma assign_ptr_null m s :
  OffsetPtr.offset_ (OffsetPtr.assign_ptr m s NULL) s = 0.
Proof. unfold OffsetPtr.assign_ptr. rewrite offset_store. reflexivity. Qed.

Lemma assign_ptr_offset m s p :
  p <> NULL -> - 2 ^ 31 <= p - s < 2 ^ 31 ->
  OffsetPtr.offset_ (OffsetPtr.assign_ptr m s p) s = p - s.
Proof.
  intros Hp Hr. unfold OffsetPtr.assign_ptr, OffsetPtr.to_offset.
  rewrite offset_store.
  destruct (Z.eqb_spec p NULL); [congruence |].
  rewrite (to_int32_small (p - s)) by lia. apply to_int32_small. lia.
Qed.

Lemma get_assign_ptr m s p :
  p = NULL \/ (p <> s /\ - 2 ^ 31 <= p - s < 2 ^ 31) ->
  OffsetPtr.get (OffsetPtr.assign_ptr m s p) s = p.
Proof.
  intros [-> | [Hne Hr]].
  - unfold OffsetPtr.get. rewrite assign_ptr_null. reflexivity.
  - destruct (Z.eq_dec p NULL) as [-> | Hp].
    + unfold OffsetPtr.get. rewrite assign_ptr_null. reflexivity.
    + unfold OffsetPtr.get. rewrite assign_ptr_offset by assumption.
      destruct (Z.eqb_spec (p - s) 0); lia.
Qed.

Lemma get_store_other m a v s :
  s + 4 <= a \/ a + 4 <= s ->
  OffsetPtr.get (store_u32 m a v) s = OffsetPtr.get m s.
Proof.
  intros H. unfold OffsetPtr.get, OffsetPtr.offset_, load_i32.
  rewrite load_store_u32_other by lia. reflexivity.
Qed.

Lemma to_bool_store_other m a v s :
  s + 4 <= a \/ a + 4 <= s ->
  OffsetPtr.to_bool (store_u32 m a v) s = OffsetPtr.to_bool m s.
Proof.
  intros H. unfold OffsetPtr.to_bool, OffsetPtr.offset_, load_i32.
  rewrite load_store_u32_other by lia. reflexivity.
Qed.

End OffsetPtrFacts.

(** C3, as the code has it.  Storing a pointer [p] into the slot at [s] and
    reading the slot back yields [p] when [p] is null, or when [p] is not
    the address of the slot itself and [p - s] fits the signed 32-bit
    offset; this holds for assignment from a raw pointer and from another
    OffsetPtr whose target is [p].  Null is stored as raw offset 0, and a
    non-null OffsetPtr resolves to the address of its slot plus the raw
    stored offset, so that assigning from another OffsetPtr stores the
    distance to the target and not the source's raw offset. *)
Theorem offsetptr_round_trip (m : mem) (s p : Z) :
  p = NULL \/ (p <> s /\ - 2 ^ 31 <= p - s < 2 ^ 31) ->
  OffsetPtr.get (OffsetPtr.assign_ptr m s p) s = p
  /\ (forall src, OffsetPtr.get m src = p ->
        OffsetPtr.get (OffsetPtr.assign m s src) s = p)
  /\ (p = NULL -> OffsetPtr.offset_ (OffsetPtr.assign_ptr m s p) s = 0)
  /\ (p <> NULL -> OffsetPtr.offset_ (OffsetPtr.assign_ptr m s p) s = p - s)
  /\ (forall m0 s0, OffsetPtr.to_bool m0 s0 = true ->
        OffsetPtr.get m0 s0 = s0 + OffsetPtr.offset_ m0 s0).
Proof.
  intros H. split; [| split; [| split; [| split]]].
  - apply get_assign_ptr, H.
  - intros src Hsrc. unfold OffsetPtr.assign. rewrite Hsrc.
    apply (get_assign_ptr m s p H).
  - intros ->. apply assign_ptr_null.
  - intros Hp. apply assign_ptr_offset; [assumption |].
    destruct H as [-> | [_ Hr]]; [congruence | exact Hr].
  - intros m0 s0. apply get_target.
Qed.

Lemma offsetptr_round_trip_witness :
  OffsetPtr.get (OffsetPtr.assign_ptr zero_mem 100 164) 100 = 164.
Proof.
  refine (proj1 (offsetptr_round_trip zero_mem 100 164 _)).
  right. split; lia.
Defined.

(** C3 fails for a pointer to the slot itself: the distance 0 fits the
    offset type, but offset 0 reads back as null. *)
Lemma offsetptr_self_target_lost :
  - 2 ^ 31 <= 100 - 100 < 2 ^ 31
  /\ OffsetPtr.get (OffsetPtr.assign_ptr zero_mem 100 100) 100 <> 100.
Proof. split; [lia | vm_compute; discriminate]. Qed.

(** ** The bump allocator *)

Section AllocatorFacts.

Variables (m : mem) (a sizeT count : Z).

Let cap := Allocator.capacity m a.
Let used := Allocator.used_space m a.
Let n := wrap64 (sizeT * count).

Lemma allocate_zero_count : Allocator.Allocate m a sizeT 0 = (m, NULL).
Proof. reflexivity. Qed.

Lemma allocate_too_large :
  n > wrap32 (cap - used) -> Allocator.Allocate m a sizeT count = (m, NULL).
Proof.
  intros H. unfold Allocator.Allocate. fold cap used n.
  destruct (count =? 0); [reflexivity |].
  destruct (Z.gtb_spec n (wrap32 (cap - used))); [reflexivity | lia].
Qed.

Lemma allocate_fits :
  count <> 0 -> n <= wrap32 (cap - used) ->
  Allocator.Allocate m a sizeT count =
    (store_u32 (memset m (a + used) 0 n) (a + 4)
       (Allocator.used_space (memset m (a + used) 0 n) a + n),
     a + used).
Proof.
  intros Hc H. unfold Allocator.Allocate. fold cap used n.
  destruct (Z.eqb_spec count 0); [contradiction |].
  destruct (Z.gtb_spec n (wrap32 (cap - used))); [lia | reflexivity].
Qed.

Lemma used_space_memset :
  Allocator.sizeof <= used ->
  Allocator.used_space (memset m (a + used) 0 n) a = used.
Proof.
  intros H. unfold Allocator.sizeof in H. unfold used in *.
  unfold Allocator.used_space in *.
  apply load_u32_agree. intros x Hx. apply memset_outside. lia.
Qed.

End AllocatorFacts.

(** C2, as the code has it.  For an allocator with
    [sizeof(Allocator) <= used_space <= capacity] and a request of
    [count >= 1] objects, [n] being the [size_t] product
    [sizeof(T) * count]: when [used_space + n > capacity] the call returns
    null; otherwise it returns [address + used_space], the [n] bytes there
    are zero, [used_space] has advanced by exactly [n] and [capacity] is
    unchanged. *)
Theorem allocate_bump (m : mem) (a sizeT count : Z) :
  let cap := Allocator.capacity m a in
  let used := Allocator.used_space m a in
  let n := wrap64 (sizeT * count) in
  Allocator.sizeof <= used <= cap ->
  count <> 0 ->
  (used + n > cap -> Allocator.Allocate m a sizeT count = (m, NULL))
  /\ (used + n <= cap ->
      let m' := fst (Allocator.Allocate m a sizeT count) in
      let p := snd (Allocator.Allocate m a sizeT count) in
      p = a + used
      /\ (forall x, p <= x < p + n -> m' x = 0)
      /\ Allocator.used_space m' a = used + n
      /\ Allocator.capacity m' a = cap).
Proof.
  intros cap used n Hinv Hc.
  assert (Rc : 0 <= cap < 2 ^ 32) by apply load_u32_range.
  assert (Ru : 0 <= used < 2 ^ 32) by apply load_u32_range.
  assert (Rn : 0 <= n < 2 ^ 64) by apply wrap64_range.
  assert (Hav : wrap32 (cap - used) = cap - used) by (apply wrap32_small; lia).
  unfold Allocator.sizeof in Hinv.
  split.
  - intros Hbig. apply allocate_too_large. fold cap used n. lia.
  - intros Hfit m' p. subst m' p.
    rewrite allocate_fits by (fold cap used n; lia).
    rewrite used_space_memset by (unfold Allocator.sizeof; fold used; lia).
    fold used n. simpl fst. simpl snd.
    split; [reflexivity | split; [| split]].
    + intros x Hx. rewrite store_u32_other by lia.
      rewrite memset_inside by lia. reflexivity.
    + unfold Allocator.used_space at 1. rewrite load_store_u32_same.
      apply wrap32_small. lia.
    + unfold Allocator.capacity at 1. rewrite load_store_u32_other by lia.
      unfold cap, Allocator.capacity. apply load_u32_agree.
      intros x Hx. apply memset_outside. lia.
Qed.

(** C10.  An allocation that returns null leaves the memory exactly as it
    was, so [used_space], [capacity] and every allocated byte keep their
    values; a request larger than the remaining free space does return
    null.  The same holds through [Struct::Allocate]. *)
Theorem allocate_failure_atomic (m : mem) (a sizeT count : Z) :
  0 < a ->
  (wrap64 (sizeT * count) >
     wrap32 (Allocator.capacity m a - Allocator.used_space m a) ->
   Allocator.Allocate m a sizeT count = (m, NULL))
  /\ (snd (Allocator.Allocate m a sizeT count) = NULL ->
      fst (Allocator.Allocate m a sizeT count) = m)
  /\ (forall b, OffsetPtr.get m (Struct.allocator_slot b) = a ->
      snd (Struct.Allocate m b sizeT count) = NULL ->
      fst (Struct.Allocate m b sizeT count) = m).
Proof.
  intros Ha.
  assert (Hfail : snd (Allocator.Allocate m a sizeT count) = NULL ->
                  fst (Allocator.Allocate m a sizeT count) = m).
  { unfold Allocator.Allocate.
    destruct (count =? 0); [reflexivity |].
    destruct (_ >? _); [reflexivity |]. simpl.
    pose proof (load_u32_range m (a + 4)) as R.
    unfold Allocator.used_space, NULL. lia. }
  split; [apply allocate_too_large | split; [exact Hfail |]].
  intros b Hb. unfold Struct.Allocate.
  destruct (OffsetPtr.to_bool m (Struct.allocator_slot b)); [| reflexivity].
  rewrite Hb. exact Hfail.
Qed.

Lemma allocate_failure_atomic_witness :
  let m := Allocator.construct zero_mem 64 12 in
  let m1 := fst (Allocator.Allocate m 64 4 1) in
  0 < 64 /\ fst (Allocator.Allocate m1 64 4 1) = m1.
Proof.
  intros m m1. split; [lia |].
  refine (proj1 (proj2 (allocate_failure_atomic m1 64 4 1 _)) _);
    [lia | vm_compute; reflexivity].
Defined.

Lemma allocate_bump_witness :
  let m := Allocator.construct zero_mem 64 32 in
  snd (Allocator.Allocate m 64 4 3) = 64 + Allocator.used_space m 64.
Proof.
  intros m.
  refine (proj1 (proj2 (allocate_bump m 64 4 3 _ _) _)).
  - vm_compute. split; discriminate.
  - lia.
  - vm_compute. discriminate.
Defined.

(** C2 fails for [count = 0], which returns null although the request
    fits, and for an allocator whose [used_space] is below
    [sizeof(Allocator)], where zeroing the new bytes clears the
    [used_space] field itself. *)
Lemma allocate_bump_fails :
  (let m := Allocator.construct zero_mem 64 32 in
   Allocator.used_space m 64 <= Allocator.capacity m 64
   /\ Allocator.used_space m 64 + wrap64 (4 * 0) <= Allocator.capacity m 64
   /\ snd (Allocator.Allocate m 64 4 0) <> 64 + Allocator.used_space m 64)
  /\ (let m := store_u32 (store_u32 zero_mem 64 32) 68 4 in
      Allocator.used_space m 64 <= Allocator.capacity m 64
      /\ Allocator.used_space m 64 + wrap64 (4 * 1) <= Allocator.capacity m 64
      /\ Allocator.used_space (fst (Allocator.Allocate m 64 4 1)) 64
         <> Allocator.used_space m 64 + wrap64 (4 * 1)).
Proof.
  split; vm_compute; repeat split; discriminate.
Qed.

(** ** Block construction and capacity accounting *)

Section InitFacts.

Variables (m : mem) (b sizeS free_space : Z).
Hypothesis Hb : 0 < b.
Hypothesis HsizeS : Struct.sizeof <= sizeS < 2 ^ 31.

Let m' := Struct.Init m b sizeS free_space.

Lemma Init_struct_size : Struct.struct_size m' b = sizeS.
Proof.
  unfold Struct.sizeof in HsizeS.
  unfold m', Struct.Init, Struct.struct_size, Struct.allocator_slot,
    OffsetPtr.assign_ptr, Allocator.construct.
  rewrite load_store_u32_same, (wrap32_small sizeS) by lia.
  destruct (free_space =? 0).
  - rewrite load_store_u32_other by lia. rewrite load_store_u32_same.
    apply wrap32_small. lia.
  - rewrite !load_store_u32_other by lia. rewrite load_store_u32_same.
    apply wrap32_small. lia.
Qed.

Lemma Init_no_allocator :
  free_space = 0 -> OffsetPtr.to_bool m' (Struct.allocator_slot b) = false.
Proof.
  intros ->. unfold m', Struct.Init. simpl.
  apply to_bool_false_iff, assign_ptr_null.
Qed.

Lemma Init_allocator_offset :
  free_space <> 0 ->
  OffsetPtr.offset_ m' (Struct.allocator_slot b) = sizeS - 4.
Proof.
  intros Hf. unfold Struct.sizeof in HsizeS. unfold m', Struct.Init.
  destruct (Z.eqb_spec free_space 0); [contradiction |].
  unfold Struct.struct_size. rewrite load_store_u32_same.
  rewrite (wrap32_small sizeS) by lia.
  rewrite assign_ptr_offset; unfold Struct.allocator_slot, NULL; lia.
Qed.

Lemma Init_allocator :
  free_space <> 0 ->
  OffsetPtr.to_bool m' (Struct.allocator_slot b) = true
  /\ OffsetPtr.get m' (Struct.allocator_slot b) = b + sizeS.
Proof.
  intros Hf. unfold Struct.sizeof in HsizeS.
  pose proof (Init_allocator_offset Hf) as Ho.
  assert (Ht : OffsetPtr.to_bool m' (Struct.allocator_slot b) = true)
    by (apply to_bool_true_iff; lia).
  split; [exact Ht |]. rewrite (get_target _ _ Ht), Ho.
  unfold Struct.allocator_slot. lia.
Qed.

Lemma Init_allocator_fields :
  free_space <> 0 ->
  Allocator.capacity m' (b + sizeS) = wrap32 free_space
  /\ Allocator.used_space m' (b + sizeS) = Allocator.sizeof.
Proof.
  intros Hf. unfold Struct.sizeof in HsizeS. unfold m', Struct.Init.
  destruct (Z.eqb_spec free_space 0); [contradiction |].
  unfold Struct.struct_size. rewrite load_store_u32_same.
  rewrite (wrap32_small sizeS) by lia.
  unfold Allocator.capacity, Allocator.used_space, OffsetPtr.assign_ptr,
    Allocator.construct, Struct.allocator_slot.
  split.
  - rewrite !load_store_u32_other by lia. apply load_store_u32_same.
  - rewrite load_store_u32_other by lia. rewrite load_store_u32_same.
    reflexivity.
Qed.

End InitFacts.

(** ** Well-formed blocks and the byte-wise copy *)

Section BlockFacts.

Lemma to_bool_of_offset m1 s1 m2 s2 :
  OffsetPtr.offset_ m1 s1 = OffsetPtr.offset_ m2 s2 ->
  OffsetPtr.to_bool m1 s1 = OffsetPtr.to_bool m2 s2.
Proof. unfold OffsetPtr.to_bool. intros ->. reflexivity. Qed.

Lemma wf_offset m b :
  wf_block m b ->
  OffsetPtr.to_bool m (Struct.allocator_slot b) = true ->
  OffsetPtr.offset_ m (Struct.allocator_slot b) = Struct.struct_size m b - 4.
Proof.
  intros (_ & _ & Hal) Ht. destruct (Hal Ht) as (Hg & _).
  rewrite (get_target _ _ Ht) in Hg. unfold Struct.allocator_slot in *. lia.
Qed.

Lemma wf_used_space m b :
  wf_block m b ->
  Struct.used_space m b =
    Struct.struct_size m b
    + (if OffsetPtr.to_bool m (Struct.allocator_slot b)
       then Allocator.used_space m (b + Struct.struct_size m b) else 0)
  /\ Struct.sizeof <= Struct.used_space m b < 2 ^ 32.
Proof.
  intros (Hb & Hs & Hal). unfold Struct.used_space, Struct.sizeof in *.
  destruct (OffsetPtr.to_bool m (Struct.allocator_slot b)) eqn:Ht.
  - destruct (Hal eq_refl) as (Hg & Hu & Hc). simpl in Hg, Hu, Hc.
    rewrite Hg in *. unfold Allocator.sizeof in Hu.
    rewrite wrap32_small by lia. lia.
  - rewrite wrap32_small by lia. lia.
Qed.

Lemma wf_used_lower m b :
  wf_block m b ->
  Struct.struct_size m b
  + (if OffsetPtr.to_bool m (Struct.allocator_slot b) then Allocator.sizeof
     else 0) <= Struct.used_space m b.
Proof.
  intros Hwf. destruct (wf_used_space m b Hwf) as [En _]. rewrite En.
  destruct Hwf as (_ & _ & Hal).
  destruct (OffsetPtr.to_bool m (Struct.allocator_slot b)); [| lia].
  destruct (Hal eq_refl) as (Hg & Hu & _). simpl in Hg, Hu.
  rewrite Hg in Hu. lia.
Qed.

Lemma wf_capacity m b :
  wf_block m b ->
  Struct.capacity m b =
    Struct.struct_size m b
    + (if OffsetPtr.to_bool m (Struct.allocator_slot b)
       then Allocator.capacity m (b + Struct.struct_size m b) else 0)
  /\ Struct.used_space m b <= Struct.capacity m b < 2 ^ 32.
Proof.
  intros Hwf. destruct (wf_used_space m b Hwf) as [Eu _]. rewrite Eu.
  destruct Hwf as (Hb & Hs & Hal). unfold Struct.capacity, Struct.sizeof in *.
  destruct (OffsetPtr.to_bool m (Struct.allocator_slot b)) eqn:Ht.
  - destruct (Hal eq_refl) as (Hg & Hu & Hc). simpl in Hg, Hu, Hc.
    rewrite Hg in *. unfold Allocator.sizeof in Hu.
    rewrite wrap32_small by lia. lia.
  - rewrite wrap32_small by lia. lia.
Qed.

Variables (m : mem) (this src : Z).
Hypothesis Hwf : wf_block m src.

Let n := Struct.used_space m src.
Let ss := Struct.struct_size m src.
Let m1 := memcpy m this src n.

Lemma memcpy_header :
  Struct.struct_size m1 this = ss
  /\ OffsetPtr.offset_ m1 (Struct.allocator_slot this)
     = OffsetPtr.offset_ m (Struct.allocator_slot src).
Proof.
  destruct (wf_used_space m src Hwf) as [_ Hn]. fold n in Hn.
  unfold Struct.sizeof in Hn.
  assert (Hbc : byte_copy m src m1 this n) by apply byte_copy_memcpy.
  split.
  - pose proof (load_u32_copy m src m1 this n 0 Hbc) as H.
    rewrite !Z.add_0_r in H. apply H; lia.
  - unfold OffsetPtr.offset_, Struct.allocator_slot.
    apply (load_i32_copy m src m1 this n 4 Hbc); lia.
Qed.

Lemma Copy_result :
  Struct.used_space m src <= Struct.capacity m this ->
  Struct.Copy m this src =
    ((if OffsetPtr.to_bool m (Struct.allocator_slot src)
      then store_u32 m1 (this + ss) (wrap64 (Struct.capacity m this - ss))
      else m1), true).
Proof.
  intros Hcap. destruct memcpy_header as [Hs Ho].
  pose proof (to_bool_of_offset _ _ _ _ Ho) as Hb.
  unfold Struct.Copy. fold n m1.
  destruct Hwf as (Hsrc & _).
  destruct (Z.eqb_spec src NULL); [unfold NULL in *; lia |].
  destruct (Z.ltb_spec (Struct.capacity m this) n); [unfold n in *; lia |].
  simpl. rewrite Hb, Hs.
  destruct (OffsetPtr.to_bool m (Struct.allocator_slot src)) eqn:Ht;
    [| reflexivity].
  rewrite get_target by (rewrite Hb; reflexivity).
  rewrite Ho, (wf_offset m src Hwf Ht). fold ss.
  unfold Struct.allocator_slot.
  replace (this + 4 + (ss - 4)) with (this + ss) by lia. reflexivity.
Qed.

Lemma Copy_frame x :
  Struct.used_space m src <= Struct.capacity m this ->
  x < this \/ this + n <= x ->
  fst (Struct.Copy m this src) x = m x.
Proof.
  intros Hcap Hx. rewrite (Copy_result Hcap). simpl.
  assert (E1 : m1 x = m x) by (apply memcpy_outside; exact Hx).
  destruct (OffsetPtr.to_bool m (Struct.allocator_slot src)) eqn:Ht;
    [| exact E1].
  destruct (wf_used_space m src Hwf) as [En _]. rewrite Ht in En.
  destruct Hwf as (_ & Hs & Hal). destruct (Hal Ht) as (Hg & Hu & _).
  simpl in Hg, Hu. rewrite Hg in Hu. fold n ss in En, Hu, Hs.
  unfold Allocator.sizeof, Struct.sizeof in *.
  rewrite store_u32_other by lia. exact E1.
Qed.

Lemma Copy_block :
  Struct.used_space m src <= Struct.capacity m this ->
  let m' := fst (Struct.Copy m this src) in
  Struct.struct_size m' this = ss
  /\ OffsetPtr.offset_ m' (Struct.allocator_slot this)
     = OffsetPtr.offset_ m (Struct.allocator_slot src)
  /\ (OffsetPtr.to_bool m (Struct.allocator_slot src) = true ->
      Allocator.capacity m' (this + ss) = wrap32 (Struct.capacity m this - ss)
      /\ Allocator.used_space m' (this + ss)
         = Allocator.used_space m (src + ss)).
Proof.
  intros Hcap m'. subst m'. rewrite (Copy_result Hcap). simpl.
  destruct memcpy_header as [Hs Ho].
  destruct (OffsetPtr.to_bool m (Struct.allocator_slot src)) eqn:Ht.
  - destruct (wf_used_space m src Hwf) as [En _]. rewrite Ht in En.
    destruct Hwf as (_ & Hss & Hal). destruct (Hal Ht) as (Hg & Hu & _).
    simpl in Hg, Hu. rewrite Hg in Hu. fold n ss in En, Hu, Hss.
    unfold Allocator.sizeof, Struct.sizeof in *.
    split; [| split].
    + unfold Struct.struct_size. rewrite load_store_u32_other by lia. exact Hs.
    + unfold OffsetPtr.offset_, load_i32, Struct.allocator_slot.
      rewrite load_store_u32_other by lia. exact Ho.
    + intros _. split.
      * unfold Allocator.capacity. rewrite load_store_u32_same.
        apply wrap32_wrap64.
      * unfold Allocator.used_space. rewrite load_store_u32_other by lia.
        rewrite <- !Z.add_assoc.
        apply (load_u32_copy m src m1 this n); [apply byte_copy_memcpy | |]; lia.
  - split; [exact Hs | split; [exact Ho | discriminate]].
Qed.

End BlockFacts.

(** [InplaceNew] builds a well-formed block, and [Allocate] keeps it so
    without changing [capacity()]. *)
Lemma InplaceNew_wf sizeS construct_S m buffer cap :
  0 < buffer -> Struct.sizeof <= sizeS < 2 ^ 31 ->
  cap = sizeS \/ sizeS + Allocator.sizeof <= cap -> cap < 2 ^ 32 ->
  wf_block (fst (Struct.InplaceNew sizeS construct_S m buffer cap)) buffer.
Proof.
  intros Hb Hs Hc Hlt. unfold Struct.InplaceNew. simpl fst.
  unfold Allocator.sizeof in Hc.
  rewrite (wrap64_small (cap - sizeS)) by (unfold Struct.sizeof in Hs; lia).
  set (m0 := construct_S m buffer).
  pose proof (Init_struct_size m0 buffer sizeS (cap - sizeS) Hs) as Hss.
  split; [exact Hb | split; [rewrite Hss; exact Hs |]].
  intros Ht. simpl. rewrite Hss.
  destruct (Z.eq_dec (cap - sizeS) 0) as [E | E].
  - rewrite (Init_no_allocator m0 buffer sizeS (cap - sizeS) E) in Ht.
    discriminate.
  - destruct (Init_allocator m0 buffer sizeS (cap - sizeS) Hb Hs E) as [_ Hg].
    destruct (Init_allocator_fields m0 buffer sizeS (cap - sizeS) Hs E)
      as [Hcap Hused].
    rewrite Hg, Hcap, Hused. unfold Struct.sizeof, Allocator.sizeof in *.
    rewrite wrap32_small by lia. repeat split; lia.
Qed.

Lemma Allocate_wf m b sizeT count :
  wf_block m b ->
  let m' := fst (Struct.Allocate m b sizeT count) in
  wf_block m' b
  /\ Struct.capacity m' b = Struct.capacity m b
  /\ Struct.used_space m b <= Struct.used_space m' b.
Proof.
  intros Hwf m'. subst m'.
  assert (Hsame : wf_block m b
                  /\ Struct.capacity m b = Struct.capacity m b
                  /\ Struct.used_space m b <= Struct.used_space m b)
    by (split; [exact Hwf | split; [reflexivity | lia]]).
  unfold Struct.Allocate.
  destruct (OffsetPtr.to_bool m (Struct.allocator_slot b)) eqn:Ht;
    [| exact Hsame].
  pose proof Hwf as (Hb & Hs & Hal). destruct (Hal Ht) as (Hg & Hu & Hc).
  cbv zeta in Hg, Hu, Hc. rewrite Hg in *.
  set (ss := Struct.struct_size m b) in *. set (al := b + ss) in *.
  unfold Allocator.Allocate.
  destruct (count =? 0); [exact Hsame |].
  set (used := Allocator.used_space m al) in *.
  set (cap := Allocator.capacity m al) in *.
  set (req := wrap64 (sizeT * count)).
  assert (Rq : 0 <= req < 2 ^ 64) by apply wrap64_range.
  assert (Rc : 0 <= cap < 2 ^ 32) by apply load_u32_range.
  unfold Struct.sizeof, Allocator.sizeof in *.
  rewrite (wrap32_small (cap - used)) by lia.
  destruct (Z.gtb_spec req (cap - used)); [exact Hsame |].
  simpl fst.
  set (m1 := memset m (al + used) 0 req).
  assert (Eu1 : Allocator.used_space m1 al = used).
  { apply load_u32_agree. intros x Hx. apply memset_outside. lia. }
  rewrite Eu1.
  set (m2 := store_u32 m1 (al + 4) (used + req)).
  assert (Hlow : forall x, x < al + 4 -> m2 x = m x).
  { intros x Hx. unfold m2. rewrite store_u32_other by lia.
    apply memset_outside. lia. }
  assert (Ess : Struct.struct_size m2 b = ss).
  { apply load_u32_agree. intros x Hx. apply Hlow. unfold al. lia. }
  assert (Eo : OffsetPtr.offset_ m2 (Struct.allocator_slot b)
               = OffsetPtr.offset_ m (Struct.allocator_slot b)).
  { apply load_i32_agree. intros x Hx. apply Hlow.
    unfold Struct.allocator_slot in Hx. unfold al. lia. }
  pose proof (to_bool_of_offset _ _ _ _ Eo) as Et. rewrite Ht in Et.
  assert (Eg : OffsetPtr.get m2 (Struct.allocator_slot b) = al).
  { unfold OffsetPtr.get. rewrite Eo. fold (OffsetPtr.get m (Struct.allocator_slot b)).
    exact Hg. }
  assert (Ec : Allocator.capacity m2 al = cap).
  { apply load_u32_agree. intros x Hx. apply Hlow. lia. }
  assert (Eu : Allocator.used_space m2 al = used + req).
  { unfold Allocator.used_space, m2. rewrite load_store_u32_same.
    apply wrap32_small. lia. }
  assert (W : wf_block m2 b).
  { split; [exact Hb | split; [rewrite Ess; exact Hs |]].
    intros _. cbv zeta. rewrite Eg, Ess. fold al. rewrite Ec, Eu.
    unfold Allocator.sizeof. repeat split; lia. }
  split; [exact W | split].
  - destruct (wf_capacity m2 b W) as [E2 _].
    destruct (wf_capacity m b Hwf) as [E0 _].
    rewrite E2, E0, Et, Ht, Ess. fold ss al. rewrite Ec. reflexivity.
  - destruct (wf_used_space m2 b W) as [E2 _].
    destruct (wf_used_space m b Hwf) as [E0 _].
    rewrite E2, E0, Et, Ht, Ess. fold ss al. rewrite Eu. fold used. lia.
Qed.

(** What [Allocate] returns lies at the end of the used bytes: the object
    starts at the block's former [used_space()] and ends at the new one. *)
Lemma Allocate_placement m b sizeT count :
  wf_block m b ->
  snd (Struct.Allocate m b sizeT count) <> NULL ->
  snd (Struct.Allocate m b sizeT count) = b + Struct.used_space m b
  /\ Struct.used_space (fst (Struct.Allocate m b sizeT count)) b
     = Struct.used_space m b + wrap64 (sizeT * count).
Proof.
  intros Hwf.
  destruct (Allocate_wf m b sizeT count Hwf) as (W & _ & _).
  destruct (wf_used_space _ b W) as [E2 _].
  destruct (wf_used_space m b Hwf) as [E0 _].
  rewrite E2, E0. clear E2 E0. revert W.
  unfold Struct.Allocate.
  destruct (OffsetPtr.to_bool m (Struct.allocator_slot b)) eqn:Ht;
    [| simpl; congruence].
  pose proof Hwf as (Hb & Hs & Hal). destruct (Hal Ht) as (Hg & Hu & Hc).
  cbv zeta in Hg, Hu, Hc. rewrite Hg in *.
  set (ss := Struct.struct_size m b) in *. set (al := b + ss) in *.
  unfold Allocator.Allocate.
  destruct (count =? 0); [simpl; congruence |].
  set (used := Allocator.used_space m al) in *.
  set (cap := Allocator.capacity m al) in *.
  set (req := wrap64 (sizeT * count)).
  assert (Rq : 0 <= req < 2 ^ 64) by apply wrap64_range.
  assert (Rc : 0 <= cap < 2 ^ 32) by apply load_u32_range.
  unfold Struct.sizeof, Allocator.sizeof in *.
  rewrite (wrap32_small (cap - used)) by lia.
  destruct (Z.gtb_spec req (cap - used)); [simpl; congruence |].
  simpl fst. simpl snd. intros W _.
  set (m1 := memset m (al + used) 0 req) in *.
  assert (Eu1 : Allocator.used_space m1 al = used).
  { apply load_u32_agree. intros x Hx. apply memset_outside. lia. }
  rewrite Eu1 in *.
  set (m2 := store_u32 m1 (al + 4) (used + req)) in *.
  assert (Hlow : forall x, x < al + 4 -> m2 x = m x).
  { intros x Hx. unfold m2. rewrite store_u32_other by lia.
    apply memset_outside. lia. }
  assert (Ess : Struct.struct_size m2 b = ss).
  { apply load_u32_agree. intros x Hx. apply Hlow. unfold al. lia. }
  assert (Et : OffsetPtr.to_bool m2 (Struct.allocator_slot b) = true).
  { rewrite <- Ht. apply to_bool_of_offset, load_i32_agree.
    intros x Hx. apply Hlow. unfold Struct.allocator_slot in Hx.
    unfold al. lia. }
  assert (Eu : Allocator.used_space m2 al = used + req).
  { unfold Allocator.used_space, m2. rewrite load_store_u32_same.
    apply wrap32_small. lia. }
  rewrite Et, Ess. fold al. rewrite Eu. unfold al. lia.
Qed.





(** C8, as the code has it.  [Copy(src)] returns false exactly when [src]
    is null or the destination's [capacity()] is below
    [src->used_space()], and then leaves the memory untouched.  When it
    returns true the destination holds the result of copying
    [src->used_space()] bytes, except that the [capacity] field of the
    copied allocator is rewritten; for a well-formed source nothing outside
    those bytes changes, and the destination's [capacity()] is the one it
    had before when the source has an allocator, and the source's record
    size when the source has none. *)
Theorem copy_block_law (m : mem) (this src : Z) :
  let r := Struct.Copy m this src in
  let n := Struct.used_space m src in
  let m1 := memcpy m this src n in
  (snd r = false <-> src = NULL \/ Struct.capacity m this < n)
  /\ (snd r = false -> fst r = m)
  /\ (snd r = true ->
      forall x,
        (OffsetPtr.to_bool m1 (Struct.allocator_slot this) = true ->
         x < OffsetPtr.get m1 (Struct.allocator_slot this)
         \/ OffsetPtr.get m1 (Struct.allocator_slot this) + 4 <= x) ->
        fst r x = m1 x)
  /\ (wf_block m src -> snd r = true ->
      (forall x, x < this \/ this + n <= x -> fst r x = m x)
      /\ (OffsetPtr.to_bool m (Struct.allocator_slot src) = true ->
          Struct.capacity (fst r) this = Struct.capacity m this)
      /\ (OffsetPtr.to_bool m (Struct.allocator_slot src) = false ->
          Struct.capacity (fst r) this = Struct.struct_size m src)).
Proof.
  intros r n m1.
  assert (Hguard : snd r = true -> n <= Struct.capacity m this).
  { subst r. unfold Struct.Copy. fold n.
    destruct (src =? NULL); [discriminate |].
    destruct (Z.ltb_spec (Struct.capacity m this) n); [discriminate | lia]. }
  split; [| split; [| split]].
  - subst r. unfold Struct.Copy. fold n.
    destruct (Z.eqb_spec src NULL); simpl.
    + split; auto.
    + destruct (Z.ltb_spec (Struct.capacity m this) n); simpl.
      * split; auto.
      * split; [discriminate | intros [? | ?]; [contradiction | lia]].
  - subst r. unfold Struct.Copy.
    destruct (_ || _); [reflexivity | discriminate].
  - subst r. unfold Struct.Copy. fold n m1.
    destruct (_ || _); [discriminate |]. simpl. intros _ x Hx.
    destruct (OffsetPtr.to_bool m1 (Struct.allocator_slot this));
      [| reflexivity].
    apply store_u32_other. apply Hx. reflexivity.
  - intros Hwf Hr. specialize (Hguard Hr). subst r n.
    split; [| split].
    + intros x Hx. apply Copy_frame; assumption.
    + intros Ht.
      destruct (Copy_block m this src Hwf Hguard) as (Hs & Ho & Hal).
      destruct (Hal Ht) as [Hc _].
      assert (Ht' : OffsetPtr.to_bool (fst (Struct.Copy m this src))
                      (Struct.allocator_slot this) = true)
        by (rewrite (to_bool_of_offset _ _ _ _ Ho); exact Ht).
      unfold Struct.capacity at 1.
      rewrite Ht', (get_target _ _ Ht'), Ho, (wf_offset m src Hwf Ht), Hs.
      unfold Struct.allocator_slot.
      replace (this + 4 + (Struct.struct_size m src - 4))
        with (this + Struct.struct_size m src) by lia.
      rewrite Hc, wrap32_add_r.
      replace (Struct.struct_size m src
               + (Struct.capacity m this - Struct.struct_size m src))
        with (Struct.capacity m this) by lia.
      apply wrap32_small. unfold Struct.capacity. apply wrap32_range.
    + intros Ht.
      destruct (Copy_block m this src Hwf Hguard) as (Hs & Ho & _).
      unfold Struct.capacity at 1.
      rewrite (to_bool_of_offset _ _ _ _ Ho), Ht, Hs, Z.add_0_r.
      destruct Hwf as (_ & Hss & _). unfold Struct.sizeof in Hss.
      apply wrap32_small. lia.
Qed.

(** C8 fails on its last clause: copying a block that has no allocator
    into a larger block leaves the destination without an allocator, and
    its [capacity()] drops to the source's record size. *)
Lemma copy_capacity_lost :
  let m0 := fst (Struct.InplaceNew 8 Struct.construct zero_mem 1000 32) in
  let m := fst (Struct.InplaceNew 8 Struct.construct m0 2000 8) in
  snd (Struct.Copy m 1000 2000) = true
  /\ Struct.capacity m 1000 = 32
  /\ Struct.capacity (fst (Struct.Copy m 1000 2000)) 1000 = 8.
Proof. vm_compute. repeat split. Qed.

Lemma copy_block_law_witness :
  let m0 := fst (Struct.InplaceNew 8 Struct.construct zero_mem 1000 64) in
  let m := fst (Struct.InplaceNew 8 Struct.construct m0 2000 32) in
  Struct.capacity (fst (Struct.Copy m 1000 2000)) 1000 = Struct.capacity m 1000.
Proof.
  intros m0 m.
  refine (proj1 (proj2 (proj2 (proj2 (proj2 (copy_block_law m 1000 2000))) _ _)) _).
  - vm_compute. repeat split; try discriminate; intros _; repeat split;
      discriminate.
  - vm_compute. reflexivity.
  - vm_compute. reflexivity.
Defined.

(** ** A fresh block and its copy *)

Section NewCopyFacts.

Lemma Init_frame m b sizeS free_space x :
  Struct.sizeof <= sizeS < 2 ^ 31 ->
  x < b \/ b + 8 <= x ->
  free_space = 0 \/ x < b + sizeS \/ b + sizeS + 8 <= x ->
  Struct.Init m b sizeS free_space x = m x.
Proof.
  intros Hs Hx Hy. unfold Struct.sizeof in Hs. unfold Struct.Init.
  unfold Struct.struct_size. rewrite load_store_u32_same.
  rewrite (wrap32_small sizeS) by lia.
  unfold OffsetPtr.assign_ptr, Allocator.construct, Struct.allocator_slot.
  destruct (Z.eqb_spec free_space 0).
  - rewrite !store_u32_other by lia. reflexivity.
  - rewrite !store_u32_other by lia. reflexivity.
Qed.




Variable sizeS : Z.
Variable construct_S : mem -> Z -> mem.
Hypothesis construct_S_frame :
  forall m b x, x < b \/ b + sizeS <= x -> construct_S m b x = m x.

Variables (m : mem) (buf src : Z).
Hypothesis Hwf : wf_block m src.
Hypothesis Hrec : Struct.struct_size m src = sizeS.
Hypothesis Hbuf : 0 < buf.
Hypothesis Hfresh :
  buf + Struct.used_space m src <= src \/ src + Struct.used_space m src <= buf.

Let n := Struct.used_space m src.
Let m1 := fst (Struct.New sizeS construct_S m buf n).



End NewCopyFacts.



(** ** String *)

(** C6, as the code has it.  A String whose OffsetPtr is null compares
    equal ([operator==]) to a C string pointer exactly when that pointer is
    null, and to another String exactly when that String's pointer
    resolves to null; [length()] is 0, [empty()] is true and [c_str()] is
    the empty literal. *)
Theorem string_null_state (empty_literal : Z) (fuel : nat) (m : mem) (a : Z) :
  OffsetPtr.to_bool m a = false ->
  (forall s, String.eq_cstr fuel m a s = Some (s =? NULL))
  /\ (forall o, String.eq_String fuel m a o = Some (OffsetPtr.get m o =? NULL))
  /\ String.length empty_literal fuel m a = Some 0
  /\ String.empty m a = true
  /\ String.c_str empty_literal m a = empty_literal.
Proof.
  intros Hnull.
  assert (Heq : forall s, String.eq_cstr fuel m a s = Some (s =? NULL)).
  { intros s. unfold String.eq_cstr. rewrite (get_null m a Hnull), Hnull.
    rewrite (Z.eqb_sym NULL s). destruct (s =? NULL); reflexivity. }
  split; [exact Heq | split; [| split; [| split]]].
  - intros o. apply Heq.
  - unfold String.length. rewrite Hnull. reflexivity.
  - unfold String.empty. rewrite Hnull. reflexivity.
  - unfold String.c_str. rewrite Hnull. reflexivity.
Qed.

Lemma string_null_state_witness :
  String.eq_cstr 4 zero_mem 16 NULL = Some true.
Proof.
  refine (proj1 (string_null_state 8 4 zero_mem 16 _) NULL). reflexivity.
Defined.

(** C6 fails on equality: against the literal [""] (a non-null pointer to a
    NUL byte, here at address 8) and against a String that stores the empty
    string (here at address 32, its characters at address 40), a null
    String compares unequal. *)
Lemma string_null_not_equal_empty :
  let m := OffsetPtr.assign_ptr zero_mem 32 40 in
  OffsetPtr.to_bool m 16 = false
  /\ load_u8 m 8 = 0
  /\ String.eq_cstr 4 m 16 8 = Some false
  /\ String.empty m 32 = true
  /\ String.length 8 4 m 32 = Some 0
  /\ String.eq_String 4 m 16 32 = Some false.
Proof. vm_compute. repeat split. Qed.

(** ** Map *)

Section MapFacts.

Variable K : Type.
Variables (sizePair offset_second : Z).
Variable key_eq : mem -> Z -> K -> bool.
Hypothesis sizePair_pos : 0 < sizePair.

Variables (m : mem) (a : Z) (key : K).

Let base := Vector.begin_ m a.
Let len := Vector.size_ m a.

Lemma len_nonneg : 0 <= len.
Proof. unfold len, Vector.size_. apply load_u32_range. Qed.

(** The scan started at index [i] stops at the first index [j >= i] whose
    key matches, or at [end()] when there is none. *)
Lemma find_loop_scan (k : nat) :
  forall (fuel : nat) (i j : Z),
    Z.of_nat k = j - i -> (k < fuel)%nat -> 0 <= i -> j <= len ->
    (forall x, i <= x < j -> key_eq m (base + x * sizePair) key = false) ->
    j = len \/ key_eq m (base + j * sizePair) key = true ->
    Map.find_loop K sizePair key_eq fuel m a key (base + i * sizePair)
    = Some (base + j * sizePair).
Proof.
  induction k as [| k IH]; intros fuel i j Hk Hfuel Hi Hj Hmiss Hstop.
  - assert (i = j) by lia. subst j.
    destruct fuel as [| fuel]; [lia |]. simpl.
    unfold Vector.end_. fold base len. unfold Map.first.
    destruct Hstop as [-> | Hhit].
    + rewrite Z.eqb_refl. reflexivity.
    + rewrite Hhit, andb_false_r. reflexivity.
  - destruct fuel as [| fuel]; [lia |]. simpl.
    unfold Vector.end_. fold base len. unfold Map.first.
    rewrite (Hmiss i) by lia.
    destruct (Z.eqb_spec (base + i * sizePair) (base + len * sizePair)) as [E | E].
    + assert (i = len) by nia. lia.
    + simpl. replace (base + i * sizePair + sizePair)
        with (base + (i + 1) * sizePair) by lia.
      apply IH; try lia; [| exact Hstop].
      intros x Hx. apply Hmiss. lia.
Qed.

Lemma find_first_match (fuel : nat) (j : Z) :
  (Z.to_nat len < fuel)%nat -> 0 <= j <= len ->
  (forall x, 0 <= x < j -> key_eq m (base + x * sizePair) key = false) ->
  j = len \/ key_eq m (base + j * sizePair) key = true ->
  Map.find K sizePair key_eq fuel m a key = Some (base + j * sizePair).
Proof.
  intros Hfuel Hj Hmiss Hstop. unfold Map.find. fold base.
  replace base with (base + 0 * sizePair) at 1 by lia.
  apply (find_loop_scan (Z.to_nat j)); try lia; assumption.
Qed.

(** [operator[]] throws exactly when no key matches; on a match the
    reference it returns designates the matching pair itself. *)
Lemma subscript_first_match (fuel : nat) (j : Z) :
  (Z.to_nat len < fuel)%nat -> 0 <= j <= len ->
  (forall x, 0 <= x < j -> key_eq m (base + x * sizePair) key = false) ->
  j = len \/ key_eq m (base + j * sizePair) key = true ->
  Map.subscript K sizePair key_eq fuel m a key
  = Some (if j =? len then OutOfRange else Ok (base + j * sizePair)).
Proof.
  intros Hfuel Hj Hmiss Hstop. unfold Map.subscript.
  rewrite (find_first_match fuel j Hfuel Hj Hmiss Hstop).
  unfold Vector.end_. fold base len.
  destruct (Z.eqb_spec j len) as [-> | Hne].
  - rewrite Z.eqb_refl. reflexivity.
  - destruct (Z.eqb_spec (base + j * sizePair) (base + len * sizePair));
      [| reflexivity].
    assert (j = len) by nia. contradiction.
Qed.

End MapFacts.

(** C7 on a map holding (1, 10) and (2, 20).  [find(2)] returns the second
    pair, [find(3)] returns [end()] and [operator[](3)] throws; but
    [operator[](2)] returns the pair object itself, whose first bytes are
    the key 2, and not its [second] member, which holds 20. *)
Theorem map_subscript_returns_pair :
  let m := Samples.map_block in
  let find := Map.find Z Samples.sizeof_IntPair Samples.int_key_eq 3 m Samples.map_at in
  let sub := Map.subscript Z Samples.sizeof_IntPair Samples.int_key_eq 3 m Samples.map_at in
  let it := Vector.begin_ m Samples.map_at + 1 * Samples.sizeof_IntPair in
  find 2 = Some it
  /\ find 3 = Some (Vector.end_ m Samples.map_at Samples.sizeof_IntPair)
  /\ sub 3 = Some OutOfRange
  /\ sub 2 = Some (Ok it)
  /\ load_i32 m it = 2
  /\ load_i32 m (Map.second Samples.offsetof_second it) = 20.
Proof. vm_compute. repeat split. Qed.

(** ** LinkedList *)

(** C4 at a 32-byte block whose record holds a [List<int32_t>]: the free
    space has room for one element but not for a list node.  The fresh list
    satisfies the invariant; [resize(s, 2)] allocates the element, fails to
    allocate the node, and the descriptor [CreateList] returns (size 0,
    value set) is assigned to the head all the same: [resize] reports
    success and the head has [size_ == 0] with a non-null [value]. *)
Theorem list_resize_breaks_invariant :
  let b := 1000 in
  let m0 := fst (Struct.InplaceNew Samples.sizeof_ListRecord
                   Samples.construct_ListRecord zero_mem b 32) in
  let l := Samples.items b in
  node_invariant m0 l = true
  /\ match ListOps.resize 4 m0 l b 4 2 with
     | Some (m', ok) =>
         ok = true
         /\ List.size_ m' l = 0
         /\ OffsetPtr.get m' (List.value_slot l) = 1028
         /\ node_invariant m' l = false
     | None => False
     end.
Proof. vm_compute. repeat split. Qed.

(** ** Relocation *)

Section Relocation.

Import Reloc.

Variables (m : mem) (b : Z) (m' : mem) (b' : Z) (n : Z).
Hypothesis Hcopy : byte_copy m b m' b' n.

Let d := b' - b.

Lemma reloc_load_u8 a : in_block b n a 1 -> load_u8 m' (a + d) = load_u8 m a.
Proof.
  intros [H1 H2]. replace (a + d) with (b' + (a - b)) by (unfold d; lia).
  rewrite (load_u8_copy m b m' b' n) by (assumption || lia). f_equal. lia.
Qed.

Lemma reloc_load_u32 a : in_block b n a 4 -> load_u32 m' (a + d) = load_u32 m a.
Proof.
  intros [H1 H2]. replace (a + d) with (b' + (a - b)) by (unfold d; lia).
  rewrite (load_u32_copy m b m' b' n) by (assumption || lia). f_equal. lia.
Qed.

Lemma reloc_offset s :
  in_block b n s 4 -> OffsetPtr.offset_ m' (s + d) = OffsetPtr.offset_ m s.
Proof.
  intros H. unfold OffsetPtr.offset_, load_i32. rewrite reloc_load_u32 by exact H.
  reflexivity.
Qed.

Lemma reloc_to_bool s :
  in_block b n s 4 -> OffsetPtr.to_bool m' (s + d) = OffsetPtr.to_bool m s.
Proof. intros H. apply to_bool_of_offset, reloc_offset, H. Qed.

Lemma reloc_get s :
  in_block b n s 4 ->
  OffsetPtr.get m' (s + d)
  = if OffsetPtr.to_bool m s then OffsetPtr.get m s + d else NULL.
Proof.
  intros H. unfold OffsetPtr.get, OffsetPtr.to_bool.
  rewrite (reloc_offset s H).
  destruct (OffsetPtr.offset_ m s =? 0); simpl; [reflexivity | lia].
Qed.

Lemma reloc_get_valid s :
  in_block b n s 4 -> valid_ptr m s ->
  OffsetPtr.get m' (s + d) = reloc d (OffsetPtr.get m s).
Proof.
  intros H Hv. rewrite (reloc_get s H). unfold reloc.
  destruct (OffsetPtr.to_bool m s) eqn:Ht.
  - destruct (Z.eqb_spec (OffsetPtr.get m s) NULL); [| reflexivity].
    exfalso. apply (Hv Ht). assumption.
  - rewrite (get_null m s Ht). reflexivity.
Qed.

Lemma reloc_block_counters :
  wf_block m b -> Struct.used_space m b <= n ->
  Struct.capacity m' b' = Struct.capacity m b
  /\ Struct.used_space m' b' = Struct.used_space m b.
Proof.
  intros Hwf Hn.
  pose proof (wf_used_lower m b Hwf) as Hlo.
  pose proof Hwf as (Hb & Hs & Hal).
  unfold Struct.sizeof, Allocator.sizeof in *.
  replace b' with (b + d) by (unfold d; lia).
  assert (Ess : Struct.struct_size m' (b + d) = Struct.struct_size m b).
  { apply reloc_load_u32. split; [lia |].
    destruct (OffsetPtr.to_bool m (Struct.allocator_slot b)); lia. }
  assert (Hslot : in_block b n (Struct.allocator_slot b) 4).
  { unfold Struct.allocator_slot. split; [lia |].
    destruct (OffsetPtr.to_bool m (Struct.allocator_slot b)); lia. }
  unfold Struct.capacity, Struct.used_space. rewrite Ess.
  replace (Struct.allocator_slot (b + d)) with (Struct.allocator_slot b + d)
    by (unfold Struct.allocator_slot; lia).
  rewrite (reloc_to_bool _ Hslot), (reloc_get _ Hslot).
  destruct (OffsetPtr.to_bool m (Struct.allocator_slot b)) eqn:Ht;
    [| split; reflexivity].
  destruct (Hal eq_refl) as (Hg & _). simpl in Hg. rewrite Hg.
  unfold Allocator.capacity, Allocator.used_space.
  replace (b + Struct.struct_size m b + d + 4)
    with (b + Struct.struct_size m b + 4 + d) by lia.
  rewrite !reloc_load_u32 by (split; lia). split; reflexivity.
Qed.

Lemma strlen_nonneg fuel : forall p k, String.strlen fuel m p = Some k -> 0 <= k.
Proof.
  induction fuel as [| fuel IH]; intros p k; simpl; [discriminate |].
  destruct (load_u8 m p =? 0).
  - intros [= <-]. lia.
  - destruct (String.strlen fuel m (p + 1)) as [k' |] eqn:E; simpl;
      [| discriminate].
    intros [= <-]. specialize (IH _ _ E). lia.
Qed.

Lemma reloc_strlen fuel :
  forall p k, String.strlen fuel m p = Some k -> in_block b n p (k + 1) ->
    String.strlen fuel m' (p + d) = Some k.
Proof.
  induction fuel as [| fuel IH]; intros p k; simpl; [discriminate |].
  intros Hk [H1 H2].
  assert (Hk0 : 0 <= k) by (apply (strlen_nonneg (S fuel) p); exact Hk).
  rewrite reloc_load_u8 by (split; lia).
  destruct (load_u8 m p =? 0); [exact Hk |].
  destruct (String.strlen fuel m (p + 1)) as [k' |] eqn:E; simpl in Hk;
    [| discriminate].
  injection Hk as <-.
  replace (p + d + 1) with (p + 1 + d) by lia.
  rewrite (IH (p + 1) k' E) by (split; lia). reflexivity.
Qed.

Lemma reloc_chars fuel :
  forall p k i, String.strlen fuel m p = Some k -> in_block b n p (k + 1) ->
    0 <= i <= k -> load_u8 m' (p + d + i) = load_u8 m (p + i).
Proof.
  intros p k i _ [H1 H2] Hi.
  replace (p + d + i) with (p + i + d) by lia.
  apply reloc_load_u8. split; lia.
Qed.

Section WithLiteral.

Variable empty_literal : Z.

Lemma reloc_c_str a :
  in_block b n a 4 ->
  String.c_str empty_literal m' (a + d)
  = if OffsetPtr.to_bool m a then String.c_str empty_literal m a + d
    else empty_literal.
Proof.
  intros H. unfold String.c_str.
  rewrite (reloc_to_bool a H), (reloc_get a H).
  destruct (OffsetPtr.to_bool m a); reflexivity.
Qed.

Lemma reloc_length fuel a k :
  in_block b n a 4 ->
  String.length empty_literal fuel m a = Some k ->
  (OffsetPtr.to_bool m a = true -> in_block b n (OffsetPtr.get m a) (k + 1)) ->
  String.length empty_literal fuel m' (a + d) = Some k.
Proof.
  intros H Hk Hin. unfold String.length in *.
  rewrite (reloc_c_str a H), (reloc_to_bool a H).
  destruct (OffsetPtr.to_bool m a) eqn:Ht; [| exact Hk].
  unfold String.c_str in *. rewrite Ht in Hk |- *.
  apply reloc_strlen; [exact Hk | apply Hin; reflexivity].
Qed.

Lemma reloc_empty fuel a k :
  in_block b n a 4 ->
  String.length empty_literal fuel m a = Some k ->
  (OffsetPtr.to_bool m a = true -> in_block b n (OffsetPtr.get m a) (k + 1)) ->
  String.empty m' (a + d) = String.empty m a.
Proof.
  intros H Hk Hin. unfold String.empty, String.length, String.c_str in *.
  rewrite (reloc_to_bool a H), (reloc_get a H).
  destruct (OffsetPtr.to_bool m a) eqn:Ht; [| reflexivity].
  pose proof (strlen_nonneg fuel _ _ Hk) as Hk0.
  destruct (Hin eq_refl) as [H1 H2].
  rewrite reloc_load_u8 by (split; lia). reflexivity.
Qed.

End WithLiteral.

Lemma reloc_list_index fuel :
  forall a i, 0 <= i -> in_block b n a List.sizeof ->
    (i < List.size_ m a -> chain_in (Z.to_nat i) m b n a) ->
    List.index fuel m' (a + d) i
    = option_map (outcome_map (reloc d)) (List.index fuel m a i).
Proof.
  induction fuel as [| fuel IH]; intros a i Hi Ha Hch; simpl; [reflexivity |].
  pose proof Ha as [Ha1 Ha2]. unfold List.sizeof in Ha2.
  assert (Es : List.size_ m' (a + d) = List.size_ m a)
    by (apply reloc_load_u32; split; lia).
  rewrite Es.
  destruct (Z.geb_spec i (List.size_ m a)) as [Hge | Hlt]; [reflexivity |].
  specialize (Hch Hlt).
  destruct (Z.eqb_spec i 0) as [-> | Hne].
  - simpl in Hch. destruct Hch as (_ & Hv & _). simpl.
    replace (List.value_slot (a + d)) with (List.value_slot a + d)
      by (unfold List.value_slot; lia).
    rewrite reloc_get_valid;
      [reflexivity | unfold List.value_slot; split; lia | exact Hv].
  - replace (Z.to_nat i) with (S (Z.to_nat (i - 1))) in Hch by lia.
    simpl in Hch. destruct Hch as (_ & _ & Ht & Hnext).
    replace (List.next_slot (a + d)) with (List.next_slot a + d)
      by (unfold List.next_slot; lia).
    rewrite reloc_get by (unfold List.next_slot; split; lia).
    rewrite Ht. apply IH; [lia | | intros _; exact Hnext].
    destruct (Z.to_nat (i - 1)); simpl in Hnext; apply Hnext.
Qed.

Lemma reloc_list_begin a :
  0 < b -> 0 < b' -> in_block b n a List.sizeof ->
  List.begin_ m' (a + d) = reloc d (List.begin_ m a).
Proof.
  intros Hb Hb' [Ha1 Ha2]. unfold List.sizeof in Ha2.
  unfold List.begin_, List.empty.
  replace (List.size_ m' (a + d)) with (List.size_ m a)
    by (symmetry; apply reloc_load_u32; split; lia).
  destruct (List.size_ m a =? 0); [reflexivity |].
  unfold reloc. destruct (Z.eqb_spec a NULL); [unfold NULL in *; lia |].
  reflexivity.
Qed.

Lemma reloc_iter_next ptr :
  0 < b -> 0 < b' -> in_block b n ptr List.sizeof ->
  valid_ptr m (List.next_slot ptr) ->
  List.iter_next m' (ptr + d) = reloc d (List.iter_next m ptr).
Proof.
  intros Hb Hb' [Ha1 Ha2] Hv. unfold List.sizeof in Ha2.
  unfold List.iter_next.
  replace (List.next_slot (ptr + d)) with (List.next_slot ptr + d)
    by (unfold List.next_slot; lia).
  rewrite reloc_to_bool by (unfold List.next_slot; split; lia).
  rewrite reloc_get_valid by (unfold List.next_slot; split; lia) || exact Hv.
  destruct (Z.eqb_spec (ptr + d) NULL); [unfold NULL, d in *; lia |].
  destruct (Z.eqb_spec ptr NULL); [unfold NULL in *; lia |].
  simpl. destruct (OffsetPtr.to_bool m (List.next_slot ptr)); reflexivity.
Qed.

Lemma reloc_iter_deref ptr :
  in_block b n ptr List.sizeof -> valid_ptr m (List.value_slot ptr) ->
  List.iter_deref m' (ptr + d) = reloc d (List.iter_deref m ptr).
Proof.
  intros [Ha1 Ha2] Hv. unfold List.sizeof in Ha2. unfold List.iter_deref.
  replace (List.value_slot (ptr + d)) with (List.value_slot ptr + d)
    by (unfold List.value_slot; lia).
  apply reloc_get_valid; [unfold List.value_slot; split; lia | exact Hv].
Qed.

Lemma reloc_vector_begin a :
  in_block b n a Vector.sizeof ->
  OffsetPtr.to_bool m (Vector.at_slot a) = true ->
  Vector.size_ m' (a + d) = Vector.size_ m a
  /\ Vector.begin_ m' (a + d) = Vector.begin_ m a + d.
Proof.
  intros [Ha1 Ha2] Ht. unfold Vector.sizeof in Ha2. split.
  - apply reloc_load_u32. split; lia.
  - unfold Vector.begin_.
    replace (Vector.at_slot (a + d)) with (Vector.at_slot a + d)
      by (unfold Vector.at_slot; lia).
    rewrite reloc_get by (unfold Vector.at_slot; split; lia).
    rewrite Ht. reflexivity.
Qed.

Lemma reloc_vector_index a sizeT i :
  in_block b n a Vector.sizeof ->
  (i < Vector.size_ m a -> OffsetPtr.to_bool m (Vector.at_slot a) = true) ->
  Vector.index m' (a + d) sizeT i
  = outcome_map (fun p => p + d) (Vector.index m a sizeT i).
Proof.
  intros Ha Hat. unfold Vector.index.
  pose proof Ha as [Ha1 Ha2]. unfold Vector.sizeof in Ha2.
  replace (Vector.size_ m' (a + d)) with (Vector.size_ m a)
    by (symmetry; apply reloc_load_u32; split; lia).
  destruct (Z.geb_spec i (Vector.size_ m a)); [reflexivity |].
  destruct (reloc_vector_begin a Ha (Hat ltac:(lia))) as [_ Hb].
  unfold Vector.begin_ in Hb. rewrite Hb. simpl. f_equal. lia.
Qed.

Section WithKeys.

Variable K : Type.
Variables (sizePair : Z) (key_eq : mem -> Z -> K -> bool).

Variables (a : Z) (key : K).
Hypothesis Ha : in_block b n a Vector.sizeof.
Hypothesis Hat : OffsetPtr.to_bool m (Vector.at_slot a) = true.
Hypothesis Hkeys :
  forall i, 0 <= i < Vector.size_ m a ->
    key_eq m' (Vector.begin_ m a + i * sizePair + d) key
    = key_eq m (Vector.begin_ m a + i * sizePair) key.

Lemma reloc_find_loop fuel :
  forall i, 0 <= i <= Vector.size_ m a ->
    Map.find_loop K sizePair key_eq fuel m' (a + d) key
      (Vector.begin_ m a + i * sizePair + d)
    = option_map (fun p => p + d)
        (Map.find_loop K sizePair key_eq fuel m a key
           (Vector.begin_ m a + i * sizePair)).
Proof.
  destruct (reloc_vector_begin a Ha Hat) as [Es Eb].
  induction fuel as [| fuel IH]; intros i Hi; simpl; [reflexivity |].
  unfold Vector.end_, Map.first. rewrite Es, Eb.
  set (base := Vector.begin_ m a) in *. set (len := Vector.size_ m a) in *.
  destruct (Z.eqb_spec (base + i * sizePair) (base + len * sizePair)) as [E | E].
  - destruct (Z.eqb_spec (base + i * sizePair + d) (base + d + len * sizePair));
      [reflexivity | lia].
  - destruct (Z.eqb_spec (base + i * sizePair + d) (base + d + len * sizePair));
      [lia |].
    assert (Hlt : i < len) by (destruct (Z.eq_dec i len); [subst; lia | lia]).
    simpl. rewrite (Hkeys i) by lia.
    destruct (key_eq m (base + i * sizePair) key); simpl; [reflexivity |].
    replace (base + i * sizePair + d + sizePair)
      with (base + (i + 1) * sizePair + d) by lia.
    replace (base + i * sizePair + sizePair)
      with (base + (i + 1) * sizePair) by lia.
    apply IH. lia.
Qed.

Lemma reloc_find fuel :
  Map.find K sizePair key_eq fuel m' (a + d) key
  = option_map (fun p => p + d) (Map.find K sizePair key_eq fuel m a key).
Proof.
  destruct (reloc_vector_begin a Ha Hat) as [Es Eb].
  pose proof (load_u32_range m a) as Hr. fold (Vector.size_ m a) in Hr.
  unfold Map.find. rewrite Eb.
  pose proof (reloc_find_loop fuel 0 ltac:(lia)) as H.
  rewrite !Z.mul_0_l, !Z.add_0_r in H. exact H.
Qed.

Lemma reloc_subscript fuel :
  Map.subscript K sizePair key_eq fuel m' (a + d) key
  = option_map (outcome_map (fun p => p + d))
      (Map.subscript K sizePair key_eq fuel m a key).
Proof.
  destruct (reloc_vector_begin a Ha Hat) as [Es Eb].
  unfold Map.subscript. rewrite reloc_find.
  destruct (Map.find K sizePair key_eq fuel m a key) as [it |]; simpl;
    [| reflexivity].
  unfold Vector.end_. rewrite Es, Eb.
  destruct (Z.eqb_spec it
              (Vector.begin_ m a + Vector.size_ m a * sizePair)) as [E | E].
  - destruct (Z.eqb_spec (it + d)
                (Vector.begin_ m a + d + Vector.size_ m a * sizePair));
      [reflexivity | lia].
  - destruct (Z.eqb_spec (it + d)
                (Vector.begin_ m a + d + Vector.size_ m a * sizePair));
      [lia | reflexivity].
Qed.

End WithKeys.

End Relocation.

(** C1, as the code has it.  Let [m'] hold at [b'] a byte-for-byte copy of
    the [n] bytes of the block at [b] in [m], and let [d = b' - b].  Every
    read of an object that lies within those bytes gives on the copy the
    result it gives on the original, up to the displacement: raw offsets,
    null tests, sizes, [capacity()], [used_space()], string lengths and
    characters and out-of-range failures are identical, while pointer
    results ([OffsetPtr::get], [c_str()], element references, iterators,
    [find]) are null on both sides or differ by exactly [d]; [c_str()] of a
    null String is the same literal on both sides. *)
Theorem relocation_law (m : mem) (b : Z) (m' : mem) (b' n : Z) :
  0 < b -> 0 < b' -> byte_copy m b m' b' n ->
  let d := b' - b in
  (forall s, Reloc.in_block b n s 4 ->
     OffsetPtr.to_bool m' (s + d) = OffsetPtr.to_bool m s
     /\ OffsetPtr.offset_ m' (s + d) = OffsetPtr.offset_ m s
     /\ OffsetPtr.get m' (s + d)
        = if OffsetPtr.to_bool m s then OffsetPtr.get m s + d else NULL)
  /\ (wf_block m b -> Struct.used_space m b <= n ->
      Struct.capacity m' b' = Struct.capacity m b
      /\ Struct.used_space m' b' = Struct.used_space m b)
  /\ (forall lit fuel a k,
        Reloc.in_block b n a 4 ->
        String.length lit fuel m a = Some k ->
        (OffsetPtr.to_bool m a = true ->
         Reloc.in_block b n (OffsetPtr.get m a) (k + 1)) ->
        String.c_str lit m' (a + d)
        = (if OffsetPtr.to_bool m a then String.c_str lit m a + d else lit)
        /\ String.length lit fuel m' (a + d) = Some k
        /\ String.empty m' (a + d) = String.empty m a
        /\ (OffsetPtr.to_bool m a = true ->
            forall i, 0 <= i <= k ->
              load_u8 m' (String.c_str lit m' (a + d) + i)
              = load_u8 m (String.c_str lit m a + i)))
  /\ (forall fuel a i,
        0 <= i -> Reloc.in_block b n a List.sizeof ->
        (i < List.size_ m a -> Reloc.chain_in (Z.to_nat i) m b n a) ->
        List.size_ m' (a + d) = List.size_ m a
        /\ List.begin_ m' (a + d) = Reloc.reloc d (List.begin_ m a)
        /\ List.index fuel m' (a + d) i
           = option_map (Reloc.outcome_map (Reloc.reloc d))
               (List.index fuel m a i))
  /\ (forall ptr,
        Reloc.in_block b n ptr List.sizeof ->
        Reloc.valid_ptr m (List.value_slot ptr) ->
        Reloc.valid_ptr m (List.next_slot ptr) ->
        List.iter_next m' (ptr + d) = Reloc.reloc d (List.iter_next m ptr)
        /\ List.iter_deref m' (ptr + d) = Reloc.reloc d (List.iter_deref m ptr))
  /\ (forall a sizeT i,
        Reloc.in_block b n a Vector.sizeof ->
        (i < Vector.size_ m a ->
         OffsetPtr.to_bool m (Vector.at_slot a) = true) ->
        Vector.size_ m' (a + d) = Vector.size_ m a
        /\ Vector.index m' (a + d) sizeT i
           = Reloc.outcome_map (fun p => p + d) (Vector.index m a sizeT i)
        /\ (OffsetPtr.to_bool m (Vector.at_slot a) = true ->
            Vector.begin_ m' (a + d) = Vector.begin_ m a + d
            /\ Vector.end_ m' (a + d) sizeT = Vector.end_ m a sizeT + d))
  /\ (forall (K : Type) sizePair (key_eq : mem -> Z -> K -> bool) a key fuel,
        Reloc.in_block b n a Vector.sizeof ->
        OffsetPtr.to_bool m (Vector.at_slot a) = true ->
        (forall i, 0 <= i < Vector.size_ m a ->
           key_eq m' (Vector.begin_ m a + i * sizePair + d) key
           = key_eq m (Vector.begin_ m a + i * sizePair) key) ->
        Map.find K sizePair key_eq fuel m' (a + d) key
        = option_map (fun p => p + d) (Map.find K sizePair key_eq fuel m a key)
        /\ Map.subscript K sizePair key_eq fuel m' (a + d) key
           = option_map (Reloc.outcome_map (fun p => p + d))
               (Map.subscript K sizePair key_eq fuel m a key)).
Proof.
  intros Hb Hb' Hcopy d. subst d.
  split; [| split; [| split; [| split; [| split; [| split]]]]].
  - intros s Hs. split; [| split].
    + apply (reloc_to_bool m b m' b' n Hcopy s Hs).
    + apply (reloc_offset m b m' b' n Hcopy s Hs).
    + apply (reloc_get m b m' b' n Hcopy s Hs).
  - apply (reloc_block_counters m b m' b' n Hcopy).
  - intros lit fuel a k Ha Hk Hin.
    pose proof (reloc_c_str m b m' b' n Hcopy lit a Ha) as Hc.
    split; [exact Hc | split; [| split]].
    + apply (reloc_length m b m' b' n Hcopy lit fuel a k Ha Hk Hin).
    + apply (reloc_empty m b m' b' n Hcopy lit fuel a k Ha Hk Hin).
    + intros Ht i Hi. rewrite Hc, Ht.
      unfold String.length, String.c_str in *. rewrite Ht in Hk |- *.
      apply (reloc_chars m b m' b' n Hcopy fuel _ k i Hk (Hin Ht) Hi).
  - intros fuel a i Hi Ha Hch. split; [| split].
    + apply (reloc_load_u32 m b m' b' n Hcopy).
      destruct Ha as [H1 H2]. unfold List.sizeof in H2. split; lia.
    + apply (reloc_list_begin m b m' b' n Hcopy a Hb Hb' Ha).
    + apply (reloc_list_index m b m' b' n Hcopy fuel a i Hi Ha Hch).
  - intros ptr Hp Hv Hn. split.
    + apply (reloc_iter_next m b m' b' n Hcopy ptr Hb Hb' Hp Hn).
    + apply (reloc_iter_deref m b m' b' n Hcopy ptr Hp Hv).
  - intros a sizeT i Ha Hat. split; [| split].
    + apply (reloc_load_u32 m b m' b' n Hcopy).
      destruct Ha as [H1 H2]. unfold Vector.sizeof in H2. split; lia.
    + apply (reloc_vector_index m b m' b' n Hcopy a sizeT i Ha Hat).
    + intros Ht.
      destruct (reloc_vector_begin m b m' b' n Hcopy a Ha Ht) as [Es Eb].
      split; [exact Eb |]. unfold Vector.end_. rewrite Es, Eb. lia.
  - intros K sizePair key_eq a key fuel Ha Hat Hkeys. split.
    + apply (reloc_find m b m' b' n Hcopy K sizePair key_eq a key Ha Hat Hkeys).
    + apply (reloc_subscript m b m' b' n Hcopy K sizePair key_eq a key Ha Hat
               Hkeys).
Qed.

(** The block holding "hello", copied to address 2000: the string is read
    back with the same length at the displaced address. *)
Lemma relocation_law_witness :
  let m := Samples.hello_block in
  let n := Struct.used_space m 1000 in
  let m' := memcpy m 2000 1000 n in
  String.c_str 8 m' (Samples.name 1000 + (2000 - 1000))
  = String.c_str 8 m (Samples.name 1000) + (2000 - 1000)
  /\ String.length 8 8 m' (Samples.name 1000 + (2000 - 1000)) = Some 5.
Proof.
  intros m n m'.
  assert (H := relocation_law m 1000 m' 2000 n ltac:(lia) ltac:(lia)
                 (byte_copy_memcpy m 1000 2000 n)).
  cbv zeta in H.
  destruct H as (_ & _ & Hstr & _).
  destruct (Hstr 8 8%nat (Samples.name 1000) 5) as (Hc & Hl & _ & _).
  - vm_compute. split; discriminate.
  - vm_compute. reflexivity.
  - intros _. vm_compute. split; discriminate.
  - split; [| exact Hl]. rewrite Hc. vm_compute. reflexivity.
Defined.

(** C1 fails as stated for pointer results: on the copy, [OffsetPtr::get]
    returns the address of the copied characters, which is not the address
    it returns on the original. *)
Lemma relocation_moves_pointers :
  let m := Samples.hello_block in
  let n := Struct.used_space m 1000 in
  let m' := memcpy m 2000 1000 n in
  byte_copy m 1000 m' 2000 n
  /\ OffsetPtr.get m (Samples.name 1000) = 1020
  /\ OffsetPtr.get m' (Samples.name 2000) = 2020
  /\ OffsetPtr.get m' (Samples.name 2000) <> OffsetPtr.get m (Samples.name 1000).
Proof.
  intros m n m'. split; [apply byte_copy_memcpy |].
  vm_compute. repeat split; discriminate.
Qed.

(** ** The scenarios of the specification, run on the model *)

(** String storage: setting the 5-character name takes 6 bytes after the
    record and the allocator header, and reads back with length 5. *)
Example scenario_string_storage :
  Struct.used_space Samples.hello_block 1000
  = Samples.sizeof_StringRecord + Allocator.sizeof + 6
  /\ String.length 8 8 Samples.hello_block (Samples.name 1000) = Some 5
  /\ String.eq_cstr 8 Samples.hello_block (Samples.name 1000)
       (String.c_str 8 Samples.hello_block (Samples.name 1000)) = Some true.
Proof. vm_compute. repeat split. Qed.

(** List append: after appending 1, 2, 3 the head's size is 3, the
    elements read 1, 2, 3, index 3 is out of range and every node
    satisfies the size invariant; so it is after shrinking to 2 and after
    growing back to 5. *)
Example scenario_list_append :
  let m := Samples.list_block in
  let l := Samples.items 1000 in
  List.size_ m l = 3
  /\ Samples.element m 0 = Some (Ok 1)
  /\ Samples.element m 1 = Some (Ok 2)
  /\ Samples.element m 2 = Some (Ok 3)
  /\ Samples.element m 3 = Some OutOfRange
  /\ chain_invariant 4 m l = true
  /\ match ListOps.resize 8 m l 1000 4 2 with
     | Some (m2, ok) =>
         ok = true /\ List.size_ m2 l = 2 /\ chain_invariant 4 m2 l = true
         /\ match ListOps.resize 8 m2 l 1000 4 5 with
            | Some (m5, ok5) =>
                ok5 = true /\ List.size_ m5 l = 5
                /\ chain_invariant 8 m5 l = true
                /\ Samples.element m5 1 = Some (Ok 2)
                /\ Samples.element m5 4 = Some (Ok 0)
            | None => False
            end
     | None => False
     end.
Proof. vm_compute. repeat split. Qed.

(** Exhaustion: in a block with 4 free bytes the second 4-byte allocation
    returns null and leaves [used_space()] as it was. *)
Example scenario_exhaustion :
  let m0 := fst (Struct.InplaceNew 8 Struct.construct zero_mem 1000
                   (8 + Allocator.sizeof + 4)) in
  let r1 := Struct.Allocate m0 1000 4 1 in
  let r2 := Struct.Allocate (fst r1) 1000 4 1 in
  snd r1 = 1016 /\ snd r2 = NULL
  /\ Struct.used_space (fst r2) 1000 = Struct.used_space (fst r1) 1000.
Proof. vm_compute. repeat split. Qed.

(** Schema evolution: a block built from a record with one [int32_t] field
    (12 bytes) has the member at offset 8 and lacks one at offset 12. *)
Example scenario_schema_evolution :
  let m := fst (Struct.InplaceNew 12 Struct.construct zero_mem 1000 64) in
  Struct.HasMember m 1000 (1000 + 8) = true
  /\ Struct.HasMember m 1000 (1000 + 12) = false.
Proof. vm_compute. split; reflexivity. Qed.

(** ** Further properties of the block and its allocator *)

Lemma Allocate_bytes m b sizeT count :
  wf_block m b ->
  let r := Struct.Allocate m b sizeT count in
  let al := b + Struct.struct_size m b in
  let p := b + Struct.used_space m b in
  let n := wrap64 (sizeT * count) in
  (snd r <> NULL -> forall x, p <= x < p + n -> fst r x = 0)
  /\ (forall x, x < al + 4 \/ al + 8 <= x < p \/ p + n <= x -> fst r x = m x).
Proof.
  intros Hwf. cbv zeta.
  destruct (wf_used_space m b Hwf) as [E0 _]. rewrite E0. clear E0.
  unfold Struct.Allocate.
  destruct (OffsetPtr.to_bool m (Struct.allocator_slot b)) eqn:Ht;
    [| simpl; split; [congruence | reflexivity]].
  pose proof Hwf as (Hb & Hs & Hal). destruct (Hal Ht) as (Hg & Hu & Hc).
  cbv zeta in Hg, Hu, Hc. rewrite Hg in *.
  set (ss := Struct.struct_size m b) in *. set (al := b + ss) in *.
  unfold Allocator.Allocate.
  destruct (count =? 0); [simpl; split; [congruence | reflexivity] |].
  set (used := Allocator.used_space m al) in *.
  set (req := wrap64 (sizeT * count)).
  assert (Rq : 0 <= req < 2 ^ 64) by apply wrap64_range.
  unfold Struct.sizeof, Allocator.sizeof in *.
  destruct (_ >? _); [simpl; split; [congruence | reflexivity] |].
  simpl fst. simpl snd. split.
  - intros _ x Hx. rewrite store_u32_other by (unfold al in *; lia).
    rewrite memset_inside by (unfold al in *; lia). reflexivity.
  - intros x Hx. rewrite store_u32_other by (unfold al in *; lia).
    apply memset_outside. unfold al in *. lia.
Qed.

(** X1.  Allocating from a well-formed block keeps it well formed and keeps
    its [capacity()].  A non-null result is the first byte after the
    formerly used bytes, [used_space()] grows by exactly the request, the
    new object lies within the block's capacity and is zero, and no byte
    other than the new object and the allocator's [used_space] counter
    changes: objects allocated earlier are untouched and never overlap the
    new one. *)
Theorem allocate_keeps_block (m : mem) (b sizeT count : Z) :
  wf_block m b ->
  let r := Struct.Allocate m b sizeT count in
  let n := wrap64 (sizeT * count) in
  let p := b + Struct.used_space m b in
  wf_block (fst r) b
  /\ Struct.capacity (fst r) b = Struct.capacity m b
  /\ (snd r <> NULL ->
      snd r = p
      /\ Struct.used_space (fst r) b = Struct.used_space m b + n
      /\ p + n <= b + Struct.capacity m b
      /\ forall x, p <= x < p + n -> fst r x = 0)
  /\ (forall x,
        x < b + Struct.struct_size m b + 4
        \/ b + Struct.struct_size m b + 8 <= x < p
        \/ p + n <= x ->
        fst r x = m x).
Proof.
  intros Hwf. cbv zeta.
  destruct (Allocate_wf m b sizeT count Hwf) as (W & Ecap & _).
  destruct (Allocate_bytes m b sizeT count Hwf) as [Hz Hfr].
  split; [exact W | split; [exact Ecap | split; [| exact Hfr]]].
  intros Hp. destruct (Allocate_placement m b sizeT count Hwf Hp) as [Ep Eu].
  destruct (wf_capacity _ b W) as [_ Hle].
  split; [exact Ep | split; [exact Eu | split; [lia | exact (Hz Hp)]]].
Qed.

Lemma allocate_keeps_block_witness :
  let m := fst (Struct.InplaceNew 8 Struct.construct zero_mem 1000 64) in
  let r := Struct.Allocate m 1000 4 3 in
  snd r = 1000 + Struct.used_space m 1000
  /\ Struct.used_space (fst r) 1000 = Struct.used_space m 1000 + wrap64 (4 * 3).
Proof.
  intros m r.
  assert (W : wf_block m 1000)
    by (vm_compute; repeat split; try discriminate; intros _; repeat split;
        discriminate).
  destruct (allocate_keeps_block m 1000 4 3 W) as (_ & _ & H & _).
  destruct (H ltac:(vm_compute; discriminate)) as (H1 & H2 & _).
  split; [exact H1 | exact H2].
Defined.

(** X2.  [InplaceNew] with a capacity that is the record size, or leaves
    room for the allocator header after it, builds a well-formed block:
    [used_space()] is the record size plus the allocator header (when
    there is one), and, the record's constructor staying within the
    record, nothing outside the [capacity] bytes of the buffer is
    written. *)
Theorem inplace_new_block
  (sizeS : Z) (construct_S : mem -> Z -> mem) (m : mem) (buffer cap : Z) :
  (forall m0 b x, x < b \/ b + sizeS <= x -> construct_S m0 b x = m0 x) ->
  0 < buffer ->
  Struct.sizeof <= sizeS < 2 ^ 31 ->
  cap = sizeS \/ sizeS + Allocator.sizeof <= cap ->
  cap < 2 ^ 32 ->
  let r := Struct.InplaceNew sizeS construct_S m buffer cap in
  snd r = buffer
  /\ wf_block (fst r) buffer
  /\ Struct.used_space (fst r) buffer
     = sizeS + (if cap =? sizeS then 0 else Allocator.sizeof)
  /\ (forall x, x < buffer \/ buffer + cap <= x -> fst r x = m x).
Proof.
  intros Hframe Hb Hs Hc Hlt. cbv zeta.
  pose proof (InplaceNew_wf sizeS construct_S m buffer cap Hb Hs Hc Hlt) as W.
  split; [reflexivity | split; [exact W | split]].
  - destruct (wf_used_space _ buffer W) as [E _]. rewrite E. clear E W.
    unfold Struct.InplaceNew. simpl fst.
    unfold Struct.sizeof, Allocator.sizeof in *.
    rewrite (wrap64_small (cap - sizeS)) by lia.
    rewrite (Init_struct_size _ buffer sizeS (cap - sizeS) Hs).
    destruct (Z.eqb_spec cap sizeS) as [E | E].
    + rewrite Init_no_allocator by lia. reflexivity.
    + destruct (Init_allocator (construct_S m buffer) buffer sizeS
                  (cap - sizeS) Hb Hs ltac:(lia)) as [Ht _].
      destruct (Init_allocator_fields (construct_S m buffer) buffer sizeS
                  (cap - sizeS) Hs ltac:(lia)) as [_ Hu].
      rewrite Ht, Hu. reflexivity.
  - intros x Hx. unfold Struct.InplaceNew. simpl fst.
    unfold Struct.sizeof, Allocator.sizeof in *.
    rewrite (wrap64_small (cap - sizeS)) by lia.
    rewrite Init_frame by (unfold Struct.sizeof; lia).
    apply Hframe. lia.
Qed.

Lemma inplace_new_block_witness :
  Struct.used_space (fst (Struct.InplaceNew 8 Struct.construct zero_mem 1000 64))
    1000 = 8 + (if 64 =? 8 then 0 else Allocator.sizeof).
Proof.
  refine (proj1 (proj2 (proj2
    (inplace_new_block 8 Struct.construct zero_mem 1000 64 _ _ _ _ _)))).
  - intros m0 b x Hx. unfold Struct.construct, OffsetPtr.init.
    apply store_u32_other. unfold Struct.allocator_slot. lia.
  - lia.
  - unfold Struct.sizeof. lia.
  - right. unfold Allocator.sizeof. lia.
  - lia.
Defined.

(** X3.  [InplaceNew] with a capacity above the record size but too small
    for the allocator header still places an allocator: the new block
    reports a [used_space()] larger than its [capacity()] and the
    allocator header reaches past the buffer.  Allocation is not refused
    either: the free space [capacity - used_space] is computed in
    unsigned 32-bit arithmetic and wraps around, so every request of 1 to
    [2 ^ 32 - sizeof(Allocator) + (capacity - sizeof(S))] bytes succeeds
    and returns the address right behind the allocator header, which lies
    beyond the end of the buffer. *)
Theorem inplace_new_short_tail
  (sizeS : Z) (construct_S : mem -> Z -> mem) (m : mem) (buffer cap : Z) :
  0 < buffer ->
  Struct.sizeof <= sizeS < 2 ^ 31 ->
  sizeS < cap < sizeS + Allocator.sizeof ->
  let m' := fst (Struct.InplaceNew sizeS construct_S m buffer cap) in
  Struct.capacity m' buffer = cap
  /\ Struct.used_space m' buffer = sizeS + Allocator.sizeof
  /\ Struct.capacity m' buffer < Struct.used_space m' buffer
  /\ OffsetPtr.get m' (Struct.allocator_slot buffer) + Allocator.sizeof
     > buffer + cap
  /\ (forall sizeT count,
        count <> 0 ->
        0 < sizeT * count <= 2 ^ 32 - Allocator.sizeof + (cap - sizeS) ->
        snd (Struct.Allocate m' buffer sizeT count)
        = buffer + sizeS + Allocator.sizeof
        /\ buffer + cap < snd (Struct.Allocate m' buffer sizeT count)).
Proof.
  intros Hb Hs Hc. cbv zeta. unfold Struct.InplaceNew. simpl fst.
  unfold Struct.sizeof, Allocator.sizeof in *.
  rewrite (wrap64_small (cap - sizeS)) by lia.
  set (m0 := construct_S m buffer).
  assert (Hs' : Struct.sizeof <= sizeS < 2 ^ 31) by (unfold Struct.sizeof; lia).
  pose proof (Init_struct_size m0 buffer sizeS (cap - sizeS) Hs') as Hss.
  destruct (Init_allocator m0 buffer sizeS (cap - sizeS) Hb Hs' ltac:(lia))
    as [Ht Hg].
  destruct (Init_allocator_fields m0 buffer sizeS (cap - sizeS) Hs' ltac:(lia))
    as [Hcap Hused].
  rewrite (wrap32_small (cap - sizeS)) in Hcap by lia.
  unfold Allocator.sizeof in Hused.
  set (m' := Struct.Init m0 buffer sizeS (cap - sizeS)) in *.
  split; [| split; [| split; [| split]]].
  - unfold Struct.capacity. rewrite Hss, Ht, Hg, Hcap.
    rewrite wrap32_small by lia. lia.
  - unfold Struct.used_space. rewrite Hss, Ht, Hg, Hused.
    rewrite wrap32_small by lia. lia.
  - unfold Struct.capacity, Struct.used_space.
    rewrite Hss, Ht, Hg, Hcap, Hused. rewrite !wrap32_small by lia. lia.
  - rewrite Hg. lia.
  - intros sizeT count Hcount Hreq.
    unfold Struct.Allocate. rewrite Ht, Hg. unfold Allocator.Allocate.
    destruct (Z.eqb_spec count 0); [contradiction |].
    rewrite Hcap, Hused.
    assert (Eav : wrap32 (cap - sizeS - 8) = 2 ^ 32 + (cap - sizeS - 8)).
    { unfold wrap32. symmetry.
      apply (Z.mod_unique (cap - sizeS - 8) (2 ^ 32) (-1)); lia. }
    rewrite Eav. rewrite (wrap64_small (sizeT * count)) by lia.
    destruct (Z.gtb_spec (sizeT * count) (2 ^ 32 + (cap - sizeS - 8)));
      [lia |].
    cbv zeta. simpl snd. lia.
Qed.

Lemma inplace_new_short_tail_witness :
  let m' := fst (Struct.InplaceNew 8 Struct.construct zero_mem 1000 12) in
  Struct.capacity m' 1000 < Struct.used_space m' 1000
  /\ snd (Struct.Allocate m' 1000 1 1) = 1000 + 8 + Allocator.sizeof.
Proof.
  intros m'.
  destruct (inplace_new_short_tail 8 Struct.construct zero_mem 1000 12)
    as (_ & _ & Hlt & _ & Hal);
    try (unfold Struct.sizeof, Allocator.sizeof; lia).
  split; [exact Hlt |].
  apply (Hal 1 1); unfold Allocator.sizeof; lia.
Defined.

(** Writing inside the record, after the header, does not disturb the
    block's bookkeeping. *)
Lemma wf_agree_header m1 m2 b :
  wf_block m2 b ->
  (forall x, b <= x < b + 8 -> m1 x = m2 x) ->
  (OffsetPtr.to_bool m2 (Struct.allocator_slot b) = true ->
   forall x, b + Struct.struct_size m2 b <= x < b + Struct.struct_size m2 b + 8 ->
     m1 x = m2 x) ->
  wf_block m1 b
  /\ Struct.struct_size m1 b = Struct.struct_size m2 b
  /\ Struct.used_space m1 b = Struct.used_space m2 b
  /\ Struct.capacity m1 b = Struct.capacity m2 b.
Proof.
  intros Hwf Hh Ha.
  pose proof Hwf as (Hb & Hs & Hal). unfold Struct.sizeof in *.
  assert (Ess : Struct.struct_size m1 b = Struct.struct_size m2 b).
  { apply load_u32_agree. intros x Hx. apply Hh. lia. }
  assert (Eo : OffsetPtr.offset_ m1 (Struct.allocator_slot b)
               = OffsetPtr.offset_ m2 (Struct.allocator_slot b)).
  { apply load_i32_agree. intros x Hx. apply Hh.
    unfold Struct.allocator_slot in Hx. lia. }
  pose proof (to_bool_of_offset _ _ _ _ Eo) as Et.
  assert (Eg : OffsetPtr.get m1 (Struct.allocator_slot b)
               = OffsetPtr.get m2 (Struct.allocator_slot b))
    by (unfold OffsetPtr.get; rewrite Eo; reflexivity).
  unfold Struct.used_space, Struct.capacity. rewrite Ess, Et, Eg.
  destruct (OffsetPtr.to_bool m2 (Struct.allocator_slot b)) eqn:Ht.
  - destruct (Hal eq_refl) as (Hg & Hu & Hc). cbv zeta in Hg, Hu, Hc.
    specialize (Ha eq_refl). rewrite Hg in *.
    assert (Ec : Allocator.capacity m1 (b + Struct.struct_size m2 b)
                 = Allocator.capacity m2 (b + Struct.struct_size m2 b)).
    { apply load_u32_agree. intros x Hx. apply Ha. lia. }
    assert (Eu : Allocator.used_space m1 (b + Struct.struct_size m2 b)
                 = Allocator.used_space m2 (b + Struct.struct_size m2 b)).
    { apply load_u32_agree. intros x Hx. apply Ha. lia. }
    rewrite Ec, Eu. split; [| repeat split].
    split; [exact Hb | split; [rewrite Ess; exact Hs |]].
    intros _. cbv zeta. rewrite Eg, Ess, Ec, Eu. repeat split; lia.
  - split; [| repeat split].
    split; [exact Hb | split; [rewrite Ess; exact Hs |]].
    rewrite Et. discriminate.
Qed.

Lemma wf_store_record m b a v :
  wf_block m b ->
  b + Struct.sizeof <= a -> a + 4 <= b + Struct.struct_size m b ->
  wf_block (store_u32 m a v) b
  /\ Struct.struct_size (store_u32 m a v) b = Struct.struct_size m b
  /\ Struct.used_space (store_u32 m a v) b = Struct.used_space m b
  /\ Struct.capacity (store_u32 m a v) b = Struct.capacity m b.
Proof.
  intros Hwf H1 H2. unfold Struct.sizeof in H1.
  apply wf_agree_header; [exact Hwf | |].
  - intros x Hx. apply store_u32_other. lia.
  - intros _ x Hx. apply store_u32_other. lia.
Qed.

(** X4.  [HasMember] answers by the recorded size alone: in a block
    constructed for a record of [sizeof(S)] bytes a member is present
    exactly when its offset from the block is below [sizeof(S)], and
    allocating from the block does not change the answer. *)
Theorem has_member_by_record_size
  (sizeS : Z) (construct_S : mem -> Z -> mem) (m : mem) (buffer cap : Z) :
  0 < buffer ->
  Struct.sizeof <= sizeS < 2 ^ 31 ->
  cap = sizeS \/ sizeS + Allocator.sizeof <= cap ->
  cap < 2 ^ 32 ->
  let m' := fst (Struct.InplaceNew sizeS construct_S m buffer cap) in
  forall member,
    Struct.HasMember m' buffer member = (member - buffer <? sizeS)
    /\ forall sizeT count,
         Struct.HasMember (fst (Struct.Allocate m' buffer sizeT count))
           buffer member
         = Struct.HasMember m' buffer member.
Proof.
  intros Hb Hs Hc Hlt. cbv zeta. intros member.
  pose proof (InplaceNew_wf sizeS construct_S m buffer cap Hb Hs Hc Hlt) as W.
  split.
  - unfold Struct.HasMember, Struct.InplaceNew. simpl fst.
    rewrite (Init_struct_size _ buffer sizeS _ Hs). apply Z.gtb_ltb.
  - intros sizeT count. unfold Struct.HasMember. f_equal.
    destruct (Allocate_bytes _ buffer sizeT count W) as [_ Hfr].
    apply load_u32_agree. intros x Hx. apply Hfr.
    destruct W as (_ & Hs' & _). unfold Struct.sizeof in Hs'. lia.
Qed.

Lemma has_member_by_record_size_witness :
  let m' := fst (Struct.InplaceNew 12 Struct.construct zero_mem 1000 64) in
  Struct.HasMember m' 1000 1008 = (1008 - 1000 <? 12).
Proof.
  refine (proj1 (has_member_by_record_size 12 Struct.construct zero_mem 1000 64
                   _ _ _ _ 1008));
    unfold Struct.sizeof, Allocator.sizeof; lia.
Defined.

(** X5.  A byte copy carries the source's schema: after a successful
    [Copy(src)] from a well-formed block, [HasMember] on the destination
    answers for every offset what it answers on the source, whatever
    record size the destination had before. *)
Theorem has_member_after_copy (m : mem) (this src off : Z) :
  wf_block m src ->
  snd (Struct.Copy m this src) = true ->
  Struct.HasMember (fst (Struct.Copy m this src)) this (this + off)
  = Struct.HasMember m src (src + off).
Proof.
  intros Hwf Hok.
  assert (Hguard : Struct.used_space m src <= Struct.capacity m this).
  { revert Hok. unfold Struct.Copy.
    destruct (src =? NULL); [discriminate |].
    destruct (Z.ltb_spec (Struct.capacity m this) (Struct.used_space m src));
      [discriminate | lia]. }
  destruct (Copy_block m this src Hwf Hguard) as (Hs & _).
  unfold Struct.HasMember. rewrite Hs. f_equal; lia.
Qed.

Lemma has_member_after_copy_witness :
  let m0 := fst (Struct.InplaceNew 16 Struct.construct zero_mem 1000 64) in
  let m := fst (Struct.InplaceNew 12 Struct.construct m0 2000 32) in
  Struct.HasMember (fst (Struct.Copy m 1000 2000)) 1000 (1000 + 12)
  = Struct.HasMember m 2000 (2000 + 12).
Proof.
  intros m0 m. apply (has_member_after_copy m 1000 2000 12).
  - vm_compute. repeat split; try discriminate; intros _; repeat split;
      discriminate.
  - vm_compute. reflexivity.
Defined.

(** The facts about one allocation that the container factories use. *)
Lemma allocate_block_facts m b sizeT count :
  wf_block m b ->
  let r := Struct.Allocate m b sizeT count in
  wf_block (fst r) b
  /\ Struct.capacity (fst r) b = Struct.capacity m b
  /\ (snd r <> NULL ->
      snd r = b + Struct.used_space m b
      /\ Struct.used_space (fst r) b
         = Struct.used_space m b + wrap64 (sizeT * count)
      /\ snd r + wrap64 (sizeT * count) <= b + Struct.capacity m b).
Proof.
  intros Hwf. cbv zeta.
  destruct (Allocate_wf m b sizeT count Hwf) as (W & Ecap & _).
  split; [exact W | split; [exact Ecap |]].
  intros Hp. destruct (Allocate_placement m b sizeT count Hwf Hp) as [Ep Eu].
  destruct (wf_capacity _ b W) as [_ Hle].
  split; [exact Ep | split; [exact Eu | lia]].
Qed.

(** X6.  The bound check of [Find<T>(offset)], for a block that lies in
    the 64-bit address space.  When [offset + sizeof(T)] is at most
    [capacity()] the result is the address at [offset] and the object lies
    wholly within the block's capacity; when the sum exceeds [capacity()]
    without exceeding [size_t] the result is null.  When the sum wraps
    around [2 ^ 64] to a value within [capacity()] the check passes all the
    same, and the address returned designates an object that does not lie
    within the block.  Every element of an array just returned by
    [Allocate<T>(count)] is found at its offset. *)
Theorem find_bound_check (m : mem) (b sizeT count : Z) :
  wf_block m b ->
  b + Struct.capacity m b <= 2 ^ 64 ->
  0 < sizeT < 2 ^ 64 -> 0 < count -> sizeT * count < 2 ^ 64 ->
  (forall offset, 0 <= offset < 2 ^ 64 ->
     let r := Struct.Find m b sizeT offset in
     (offset + sizeT <= Struct.capacity m b ->
      r = b + offset /\ b <= r /\ r + sizeT <= b + Struct.capacity m b)
     /\ (Struct.capacity m b < offset + sizeT < 2 ^ 64 -> r = NULL)
     /\ (2 ^ 64 <= offset + sizeT ->
         offset + sizeT - 2 ^ 64 <= Struct.capacity m b ->
         r = wrap64 (b + offset)
         /\ (r < b \/ b + Struct.capacity m b < r + sizeT)))
  /\ (let r := Struct.Allocate m b sizeT count in
      snd r <> NULL ->
      forall i, 0 <= i < count ->
        Struct.Find (fst r) b sizeT (snd r + i * sizeT - b)
        = snd r + i * sizeT).
Proof.
  intros Hwf Hfit HT Hcnt Hprod.
  pose proof Hwf as (Hb & _).
  destruct (wf_capacity m b Hwf) as [_ Hcap].
  split.
  - intros offset Ho. cbv zeta. unfold Struct.Find. split; [| split].
    + intros Hin. rewrite wrap64_small by lia.
      destruct (Z.gtb_spec (offset + sizeT) (Struct.capacity m b)); [lia |].
      rewrite wrap64_small by lia. lia.
    + intros Hout. rewrite wrap64_small by lia.
      destruct (Z.gtb_spec (offset + sizeT) (Struct.capacity m b)); [| lia].
      reflexivity.
    + intros Hwrap Hpass.
      assert (E : wrap64 (offset + sizeT) = offset + sizeT - 2 ^ 64).
      { unfold wrap64. symmetry.
        apply (Z.mod_unique (offset + sizeT) (2 ^ 64) 1); lia. }
      rewrite E.
      destruct (Z.gtb_spec (offset + sizeT - 2 ^ 64) (Struct.capacity m b));
        [lia |].
      split; [reflexivity |].
      destruct (Z_lt_le_dec (b + offset) (2 ^ 64)) as [Hlow | Hhigh].
      * right. rewrite wrap64_small by lia. lia.
      * left.
        assert (E' : wrap64 (b + offset) = b + offset - 2 ^ 64).
        { unfold wrap64. symmetry.
          apply (Z.mod_unique (b + offset) (2 ^ 64) 1); lia. }
        rewrite E'. lia.
  - cbv zeta. intros Hp i Hi.
    destruct (allocate_block_facts m b sizeT count Hwf) as (W & Ecap & Hplace).
    destruct (Hplace Hp) as (Ep & Eu & Hin).
    destruct (wf_capacity _ b W) as [_ Hc].
    destruct (wf_used_space m b Hwf) as [_ Hu]. unfold Struct.sizeof in Hu.
    rewrite (wrap64_small (sizeT * count)) in * by nia.
    assert (Hi' : (i + 1) * sizeT <= sizeT * count) by nia.
    assert (Hi0 : 0 <= i * sizeT) by nia.
    rewrite Ep. unfold Struct.Find.
    rewrite wrap64_small by lia.
    destruct (Z.gtb_spec
                (b + Struct.used_space m b + i * sizeT - b + sizeT)
                (Struct.capacity (fst (Struct.Allocate m b sizeT count)) b));
      [lia |].
    rewrite wrap64_small by lia. lia.
Qed.

Lemma find_bound_check_witness :
  let m := fst (Struct.InplaceNew 8 Struct.construct zero_mem 1000 64) in
  Struct.Find m 1000 4 (2 ^ 64 - 1) = wrap64 (1000 + (2 ^ 64 - 1))
  /\ (Struct.Find m 1000 4 (2 ^ 64 - 1) < 1000
      \/ 1000 + Struct.capacity m 1000 < Struct.Find m 1000 4 (2 ^ 64 - 1) + 4).
Proof.
  intros m.
  assert (W : wf_block m 1000)
    by (vm_compute; repeat split; try discriminate; intros _; repeat split;
        discriminate).
  assert (Hfit : 1000 + Struct.capacity m 1000 <= 2 ^ 64)
    by (vm_compute; discriminate).
  assert (Hpass : 2 ^ 64 - 1 + 4 - 2 ^ 64 <= Struct.capacity m 1000)
    by (vm_compute; discriminate).
  refine (proj2 (proj2 (proj1 (find_bound_check m 1000 4 1 W Hfit _ _ _)
                          (2 ^ 64 - 1) _)) _ Hpass); lia.
Defined.

(** ** Container factories *)

(** Whether an allocation succeeds is decided by the free space left. *)
Lemma Allocate_outcome m b sizeT count :
  wf_block m b ->
  let r := Struct.Allocate m b sizeT count in
  let n := wrap64 (sizeT * count) in
  (snd r = NULL -> fst r = m)
  /\ (count <> 0 -> 0 < n ->
      (Struct.used_space m b + n <= Struct.capacity m b -> snd r <> NULL)
      /\ (Struct.capacity m b < Struct.used_space m b + n -> snd r = NULL))
  /\ (count = 0 -> snd r = NULL).
Proof.
  intros Hwf. cbv zeta.
  destruct (wf_used_space m b Hwf) as [Eu _].
  destruct (wf_capacity m b Hwf) as [Ec _].
  rewrite Eu, Ec. clear Eu Ec.
  unfold Struct.Allocate.
  destruct (OffsetPtr.to_bool m (Struct.allocator_slot b)) eqn:Ht.
  - pose proof Hwf as (Hb & Hs & Hal). destruct (Hal Ht) as (Hg & Hu & Hc).
    cbv zeta in Hg, Hu, Hc. rewrite Hg in *.
    set (al := b + Struct.struct_size m b) in *.
    unfold Allocator.Allocate.
    assert (Rc : 0 <= Allocator.capacity m al < 2 ^ 32) by apply load_u32_range.
    unfold Struct.sizeof, Allocator.sizeof in *.
    rewrite (wrap32_small (Allocator.capacity m al - Allocator.used_space m al))
      by lia.
    destruct (Z.eqb_spec count 0) as [E | E].
    + simpl. repeat split; try reflexivity; intros; try contradiction.
    + destruct (Z.gtb_spec (wrap64 (sizeT * count))
                  (Allocator.capacity m al - Allocator.used_space m al)).
      * simpl. repeat split; try reflexivity; intros; try contradiction; lia.
      * simpl. unfold NULL, al in *. repeat split; intros; lia.
  - simpl. repeat split; try reflexivity; intros; try contradiction; lia.
Qed.

(** X7.  [CreateVector<T>(size)] followed by the assignment to a Vector
    member of the record.  When [size] is positive and the elements fit in
    the free space, the vector has that size, its elements are the [size]
    zeroed objects placed at the end of the used bytes, every index below
    [size] designates its element and [used_space()] has grown by
    [sizeof(T) * size]; otherwise (also for [size] 0) the vector is empty
    with a null [at] and the block is unchanged apart from the member.  In
    both cases an index at or above the size is out of range and the block
    stays well formed. *)
Theorem create_vector_round_trip (m : mem) (b a sizeT size : Z) :
  wf_block m b ->
  b + Struct.sizeof <= a -> a + Vector.sizeof <= b + Struct.struct_size m b ->
  Struct.used_space m b < 2 ^ 31 ->
  0 < sizeT -> 0 <= size -> sizeT * size < 2 ^ 64 ->
  let r := Struct.CreateVector m b sizeT size in
  let m2 := Vector.assign (fst r) a (snd r) in
  let p := b + Struct.used_space m b in
  wf_block m2 b
  /\ Struct.capacity m2 b = Struct.capacity m b
  /\ (forall i, Vector.size_ m2 a <= i -> Vector.index m2 a sizeT i = OutOfRange)
  /\ (0 < size ->
      Struct.used_space m b + sizeT * size <= Struct.capacity m b ->
      Vector.size_ m2 a = size
      /\ Vector.begin_ m2 a = p
      /\ Struct.used_space m2 b = Struct.used_space m b + sizeT * size
      /\ (forall i, 0 <= i < size ->
            Vector.index m2 a sizeT i = Ok (p + i * sizeT))
      /\ (forall x, p <= x < p + sizeT * size -> m2 x = 0))
  /\ (size = 0
      \/ Struct.capacity m b < Struct.used_space m b + sizeT * size ->
      Vector.size_ m2 a = 0
      /\ Vector.begin_ m2 a = NULL
      /\ Struct.used_space m2 b = Struct.used_space m b
      /\ (forall x, x < a \/ a + Vector.sizeof <= x -> m2 x = m x)).
Proof.
  intros Hwf Ha1 Ha2 Hu31 HT Hsz Hprod. cbv zeta.
  unfold Struct.sizeof, Vector.sizeof in *.
  destruct (allocate_block_facts m b sizeT size Hwf) as (W1 & Ecap & Hplace).
  destruct (Allocate_outcome m b sizeT size Hwf) as (Hnull & Hdec & Hzero).
  destruct (Allocate_bytes m b sizeT size Hwf) as (Hz & Hfr).
  rewrite (wrap64_small (sizeT * size)) in * by nia.
  unfold Struct.CreateVector.
  destruct (Struct.Allocate m b sizeT size) as [m1 p] eqn:EA.
  simpl fst in *. simpl snd in *.
  assert (Ess1 : Struct.struct_size m1 b = Struct.struct_size m b).
  { apply load_u32_agree. intros x Hx. apply Hfr.
    destruct Hwf as (_ & Hs & _). unfold Struct.sizeof in Hs. lia. }
  unfold Vector.assign. simpl Vector.size. simpl Vector.at_.
  set (sz := if p =? NULL then 0 else size).
  set (ma := store_u32 m1 a sz).
  destruct (wf_store_record m1 b a sz W1) as (Wa & Essa & Eua & Eca);
    [unfold Struct.sizeof; lia | lia |]. fold ma in Wa, Essa, Eua, Eca.
  unfold OffsetPtr.assign_ptr.
  set (m2 := store_u32 ma (Vector.at_slot a) (OffsetPtr.to_offset (Vector.at_slot a) p)).
  destruct (wf_store_record ma b (Vector.at_slot a)
              (OffsetPtr.to_offset (Vector.at_slot a) p) Wa)
    as (W2 & Ess2 & Eu2 & Ec2);
    [unfold Struct.sizeof, Vector.at_slot; lia | unfold Vector.at_slot; lia |].
  fold m2 in W2, Ess2, Eu2, Ec2.
  assert (Esize : Vector.size_ m2 a = wrap32 sz).
  { unfold Vector.size_, m2, ma, Vector.at_slot.
    rewrite load_store_u32_other by lia. apply load_store_u32_same. }
  assert (Eget : p = NULL \/ p = b + Struct.used_space m b ->
                 OffsetPtr.get m2 (Vector.at_slot a) = p).
  { intros Hp. apply (get_assign_ptr ma (Vector.at_slot a) p).
    destruct Hp as [-> | ->]; [left; reflexivity | right].
    unfold Vector.at_slot.
    destruct (wf_used_space m b Hwf) as [_ Hlo]. unfold Struct.sizeof in Hlo.
    pose proof (wf_used_lower m b Hwf) as Hl.
    assert (Struct.struct_size m b <= Struct.used_space m b)
      by (destruct (OffsetPtr.to_bool m (Struct.allocator_slot b));
          unfold Allocator.sizeof in Hl; lia).
    lia. }
  split; [exact W2 | split; [lia | split; [| split]]].
  - intros i Hi. unfold Vector.index.
    destruct (Z.geb_spec i (Vector.size_ m2 a)); [reflexivity | lia].
  - intros Hpos Hfit.
    assert (Hp : p <> NULL) by (apply Hdec; lia).
    destruct (Hplace Hp) as (Ep & Eu1 & Hin).
    destruct (wf_capacity m b Hwf) as [_ Hc].
    destruct (wf_used_space m b Hwf) as [_ Hu0]. unfold Struct.sizeof in Hu0.
    assert (Hmul : size <= sizeT * size) by nia.
    assert (Hsz32 : 0 <= size < 2 ^ 32) by lia.
    assert (Esz : Vector.size_ m2 a = size).
    { rewrite Esize. unfold sz. destruct (Z.eqb_spec p NULL); [contradiction |].
      apply wrap32_small. lia. }
    assert (Eb : Vector.begin_ m2 a = p)
      by (apply Eget; right; exact Ep).
    split; [exact Esz | split; [rewrite Eb; exact Ep | split; [lia | split]]].
    + intros i Hi. unfold Vector.index. rewrite Esz.
      destruct (Z.geb_spec i size); [lia |].
      unfold Vector.begin_ in Eb. rewrite Eb, Ep. reflexivity.
    + intros x Hx. unfold m2, ma. unfold Vector.at_slot.
      assert (Struct.struct_size m b <= Struct.used_space m b).
      { pose proof (wf_used_lower m b Hwf) as Hl.
        destruct (OffsetPtr.to_bool m (Struct.allocator_slot b));
          unfold Allocator.sizeof in Hl; lia. }
      rewrite !store_u32_other by lia. apply (Hz Hp). lia.
  - intros Hfail.
    assert (Hp : p = NULL).
    { destruct Hfail as [-> | Hbig]; [apply Hzero; reflexivity |].
      destruct (Z.eq_dec size 0) as [-> | Hne]; [apply Hzero; reflexivity |].
      apply Hdec; nia. }
    specialize (Hnull Hp). subst m1.
    assert (Esz : Vector.size_ m2 a = 0).
    { rewrite Esize. unfold sz. rewrite Hp. reflexivity. }
    split; [exact Esz | split; [| split; [lia |]]].
    { unfold Vector.begin_. rewrite Eget by (left; exact Hp). exact Hp. }
    intros x Hx. unfold m2, ma, Vector.at_slot.
    rewrite !store_u32_other by lia. reflexivity.
Qed.

Lemma create_vector_round_trip_witness :
  let m := fst (Struct.InplaceNew 16 Struct.construct zero_mem 1000 64) in
  let r := Struct.CreateVector m 1000 4 3 in
  let m2 := Vector.assign (fst r) 1008 (snd r) in
  Vector.index m2 1008 4 2 = Ok (1000 + Struct.used_space m 1000 + 2 * 4).
Proof.
  intros m r m2.
  assert (W : wf_block m 1000)
    by (vm_compute; repeat split; try discriminate; intros _; repeat split;
        discriminate).
  assert (H : Struct.used_space m 1000 + 4 * 3 <= Struct.capacity m 1000)
    by (vm_compute; discriminate).
  refine (proj1 (proj2 (proj2 (proj2 (proj1 (proj2 (proj2 (proj2
    (create_vector_round_trip m 1000 1008 4 3 W _ _ _ _ _ _))))
    _ H)))) 2 _); try lia;
    try (unfold Struct.sizeof, Vector.sizeof; vm_compute;
         (reflexivity || discriminate)).
Defined.

(** ** Strings *)

Section TextFacts.

Lemma cstr_agree m1 m2 : forall s p,
  cstr m2 p s ->
  (forall x, p <= x <= p + Z.of_nat (length s) -> m1 x = m2 x) ->
  cstr m1 p s.
Proof.
  induction s as [| c r IH]; intros p H Hag; simpl in *.
  - unfold load_u8 in *. rewrite Hag by lia. exact H.
  - destruct H as (Hc & Hl & Hr). split; [exact Hc | split].
    + unfold load_u8 in *. rewrite Hag by lia. exact Hl.
    + apply IH; [exact Hr |]. intros x Hx. apply Hag. lia.
Qed.

Lemma cstr_unique m : forall s1 s2 p, cstr m p s1 -> cstr m p s2 -> s1 = s2.
Proof.
  induction s1 as [| c r IH]; intros [| c' r'] p H1 H2; simpl in *.
  - reflexivity.
  - destruct H2 as (? & ? & _). lia.
  - destruct H1 as (? & ? & _). lia.
  - destruct H1 as (? & E1 & R1). destruct H2 as (? & E2 & R2).
    f_equal; [lia | exact (IH _ _ R1 R2)].
Qed.

Lemma strlen_cstr m : forall s p fuel,
  cstr m p s -> (length s < fuel)%nat ->
  String.strlen fuel m p = Some (Z.of_nat (length s)).
Proof.
  induction s as [| c r IH]; intros p fuel H Hf;
    (destruct fuel as [| fuel]; [lia |]); simpl in *.
  - rewrite H. reflexivity.
  - destruct H as (Hc & Hl & Hr). rewrite Hl.
    destruct (Z.eqb_spec c 0); [lia |].
    rewrite (IH (p + 1) fuel Hr) by lia. simpl. f_equal. lia.
Qed.

Lemma strcmp_cstr m : forall s1 s2 p q fuel,
  cstr m p s1 -> cstr m q s2 -> (length s1 < fuel)%nat ->
  exists r, String.strcmp fuel m p q = Some r /\ (r = 0 <-> s1 = s2).
Proof.
  induction s1 as [| c r1 IH]; intros s2 p q fuel H1 H2 Hf;
    (destruct fuel as [| fuel]; [simpl in Hf; lia |]); simpl in H1 |- *.
  - rewrite H1. destruct s2 as [| c' r2]; simpl in H2.
    + rewrite H2. simpl. exists 0. split; [reflexivity | tauto].
    + destruct H2 as (Hc & Hl & _). rewrite Hl.
      destruct (Z.eqb_spec 0 c'); [lia |]. simpl.
      exists (0 - c'). split; [reflexivity |]. split; [lia | discriminate].
  - destruct H1 as (Hc & Hl & Hr). rewrite Hl.
    destruct s2 as [| c' r2]; simpl in H2.
    + rewrite H2. destruct (Z.eqb_spec c 0); [lia |]. simpl.
      exists (c - 0). split; [reflexivity |]. split; [lia | discriminate].
    + destruct H2 as (Hc' & Hl' & Hr'). rewrite Hl'.
      destruct (Z.eqb_spec c c') as [<- | Hne]; simpl.
      * destruct (Z.eqb_spec c 0); [lia |].
        destruct (IH r2 (p + 1) (q + 1) fuel Hr Hr' ltac:(simpl in Hf; lia))
          as (r & Er & Hiff).
        exists r. split; [exact Er |]. rewrite Hiff.
        split; [intros ->; reflexivity | intros [= ->]; reflexivity].
      * exists (c - c'). split; [reflexivity |].
        split; [lia | intros [= ? _]; contradiction].
Qed.

Lemma strncpy_cstr : forall s m p,
  (forall c, List.In c s -> 0 < c < 256) ->
  let m' := Struct.strncpy m p s (S (length s)) in
  cstr m' p s
  /\ forall x, x < p \/ p + Z.of_nat (length s) + 1 <= x -> m' x = m x.
Proof.
  induction s as [| c r IH]; intros m p Hs; cbv zeta.
  - simpl. split.
    + unfold load_u8, memset. cmp_cases; reflexivity.
    + intros x Hx. apply memset_outside. lia.
  - assert (Hc : 0 < c < 256) by (apply Hs; left; reflexivity).
    assert (Hr : forall c0, List.In c0 r -> 0 < c0 < 256)
      by (intros c0 H0; apply Hs; right; exact H0).
    change (Struct.strncpy m p (c :: r) (S (length (c :: r))))
      with (if c mod 256 =? 0 then memset m p 0 (Z.of_nat (S (length (c :: r))))
            else Struct.strncpy (store_u8 m p c) (p + 1) r (S (length r))).
    rewrite (Z.mod_small c 256) by lia.
    destruct (Z.eqb_spec c 0); [lia |].
    destruct (IH (store_u8 m p c) (p + 1) Hr) as [Hcs Hfr].
    split.
    + simpl. split; [exact Hc | split; [| exact Hcs]].
      unfold load_u8. rewrite Hfr by lia. unfold store_u8.
      rewrite Z.eqb_refl. rewrite Z.mod_mod by lia. apply Z.mod_small. lia.
    + intros x Hx. rewrite Hfr by (simpl length in Hx; lia).
      unfold store_u8. destruct (Z.eqb_spec x p); [simpl length in Hx; lia |].
      reflexivity.
Qed.

End TextFacts.

(** X8.  String comparison is by content.  For a String whose pointer is
    set and holds the text [s1], and a non-null C string holding the text
    [s2], [operator==] returns true exactly when the two texts are equal
    and [operator!=] returns the opposite; [length()] is the length of
    [s1] and [empty()] tells whether [s1] is empty. *)
Theorem string_eq_by_content
  (lit : Z) (fuel : nat) (m : mem) (a q : Z) (s1 s2 : list Z) :
  OffsetPtr.to_bool m a = true ->
  cstr m (OffsetPtr.get m a) s1 ->
  q <> NULL -> cstr m q s2 ->
  (length s1 < fuel)%nat ->
  (exists r, String.eq_cstr fuel m a q = Some r
             /\ String.ne_cstr fuel m a q = Some (negb r)
             /\ (r = true <-> s1 = s2))
  /\ String.length lit fuel m a = Some (Z.of_nat (length s1))
  /\ (String.empty m a = true <-> s1 = nil).
Proof.
  intros Ht H1 Hq H2 Hf. split; [| split].
  - unfold String.ne_cstr, String.eq_cstr. rewrite Ht.
    destruct (Z.eqb_spec (OffsetPtr.get m a) q) as [E | E].
    + exists true. split; [reflexivity | split; [reflexivity |]].
      rewrite E in H1. split; [intros _; exact (cstr_unique m _ _ _ H1 H2) | reflexivity].
    + destruct (Z.eqb_spec q NULL); [contradiction |]. simpl.
      destruct (strcmp_cstr m s1 s2 _ q fuel H1 H2 Hf) as (r & Er & Hiff).
      rewrite Er. simpl. exists (r =? 0).
      split; [reflexivity | split; [reflexivity |]].
      rewrite Z.eqb_eq. exact Hiff.
  - unfold String.length, String.c_str. rewrite Ht.
    apply strlen_cstr; assumption.
  - unfold String.empty. rewrite Ht. simpl.
    destruct s1 as [| c r]; simpl in H1.
    + rewrite H1. simpl. tauto.
    + destruct H1 as (Hc & Hl & _). rewrite Hl.
      destruct (Z.eqb_spec c 0); [lia |]. split; discriminate.
Qed.

Lemma string_eq_by_content_witness :
  String.length 8 8 Samples.hello_block (Samples.name 1000) = Some 5.
Proof.
  refine (proj1 (proj2 (string_eq_by_content 8 8 Samples.hello_block
            (Samples.name 1000) 1020 Samples.hello Samples.hello _ _ _ _ _))).
  - vm_compute. reflexivity.
  - vm_compute. repeat split.
  - discriminate.
  - vm_compute. repeat split.
  - simpl. lia.
Defined.

(** X9.  [CreateString(str)] followed by the assignment to a String member
    of the record, for a text without NUL characters.  When the text and
    its terminator fit in the free space, the member points to a copy of
    the text placed at the end of the used bytes, [c_str()] is that copy,
    [length()] is the length of the text, and [used_space()] has grown by
    the length plus one; otherwise the member is null and [used_space()]
    is unchanged.  The block stays well formed with the same
    [capacity()]. *)
Theorem create_string_round_trip
  (lit : Z) (fuel : nat) (m : mem) (b a : Z) (str : list Z) :
  wf_block m b ->
  b + Struct.sizeof <= a -> a + 4 <= b + Struct.struct_size m b ->
  Struct.used_space m b < 2 ^ 31 ->
  (forall c, List.In c str -> 0 < c < 256) ->
  Z.of_nat (length str) + 1 < 2 ^ 64 ->
  (length str < fuel)%nat ->
  let len := Z.of_nat (length str) in
  let r := Struct.CreateString m b str in
  let m2 := String.assign (fst r) a (snd r) in
  let p := b + Struct.used_space m b in
  wf_block m2 b
  /\ Struct.capacity m2 b = Struct.capacity m b
  /\ (Struct.used_space m b + len + 1 <= Struct.capacity m b ->
      snd r = p
      /\ cstr m2 p str
      /\ String.c_str lit m2 a = p
      /\ String.length lit fuel m2 a = Some len
      /\ Struct.used_space m2 b = Struct.used_space m b + len + 1)
  /\ (Struct.capacity m b < Struct.used_space m b + len + 1 ->
      snd r = NULL
      /\ OffsetPtr.to_bool m2 a = false
      /\ String.c_str lit m2 a = lit
      /\ Struct.used_space m2 b = Struct.used_space m b).
Proof.
  intros Hwf Ha1 Ha2 Hu31 Hchars Hlen Hfuel. cbv zeta.
  unfold Struct.sizeof in *.
  set (len := Z.of_nat (length str)) in *.
  destruct (allocate_block_facts m b 1 (len + 1) Hwf) as (W1 & Ecap & Hplace).
  destruct (Allocate_outcome m b 1 (len + 1) Hwf) as (Hnull & Hdec & _).
  destruct (Allocate_bytes m b 1 (len + 1) Hwf) as (_ & Hfr).
  assert (Hlen0 : 0 <= len) by (unfold len; lia).
  replace (1 * (len + 1)) with (len + 1) in * by lia.
  rewrite (wrap64_small (len + 1)) in * by lia.
  specialize (Hdec ltac:(lia) ltac:(lia)). destruct Hdec as [Hyes Hno].
  unfold Struct.CreateString. fold len. rewrite (wrap64_small (len + 1)) by lia.
  destruct (Struct.Allocate m b 1 (len + 1)) as [m1 p] eqn:EA.
  simpl fst in *. simpl snd in *.
  pose proof (wf_used_lower m b Hwf) as Hl.
  assert (Hss : Struct.struct_size m b <= Struct.used_space m b)
    by (destruct (OffsetPtr.to_bool m (Struct.allocator_slot b));
        unfold Allocator.sizeof in Hl; lia).
  assert (Hal8 : OffsetPtr.to_bool m (Struct.allocator_slot b) = true ->
                 Struct.struct_size m b + 8 <= Struct.used_space m b)
    by (intros E; rewrite E in Hl; unfold Allocator.sizeof in Hl; lia).
  pose proof Hwf as (Hb & Hs & _). unfold Struct.sizeof in Hs.
  destruct (Z.eqb_spec p NULL) as [Hp | Hp]; simpl negb; cbv iota.
  - (* allocation failed *)
    specialize (Hnull Hp). subst m1. simpl fst. simpl snd.
    unfold String.assign, OffsetPtr.assign_ptr.
    destruct (wf_store_record m b a (OffsetPtr.to_offset a p) Hwf)
      as (W2 & Ess2 & Eu2 & Ec2); [unfold Struct.sizeof; lia | lia |].
    split; [exact W2 | split; [exact Ec2 | split]].
    + intros Hfit. exfalso. apply Hyes; [lia | exact Hp].
    + intros _. rewrite Hp.
      assert (Et : OffsetPtr.to_bool
                     (store_u32 m a (OffsetPtr.to_offset a NULL)) a = false)
        by (apply to_bool_false_iff, (assign_ptr_null m a)).
      split; [reflexivity | split; [exact Et | split]].
      * unfold String.c_str. rewrite Et. reflexivity.
      * rewrite <- Hp. exact Eu2.
  - (* allocation succeeded *)
    destruct (Hplace Hp) as (Ep & Eu1 & Hin). simpl fst. simpl snd.
    replace (Z.to_nat (len + 1)) with (S (length str)) by (unfold len; lia).
    destruct (strncpy_cstr str m1 p Hchars) as [Hcs Hsfr].
    set (ms := Struct.strncpy m1 p str (S (length str))) in *.
    fold len in Hsfr.
    assert (Ess1 : Struct.struct_size m1 b = Struct.struct_size m b).
    { apply load_u32_agree. intros x Hx. apply Hfr. lia. }
    destruct (wf_agree_header ms m1 b W1) as (Ws & Esss & Eus & Ecs).
    { intros x Hx. apply Hsfr. lia. }
    { intros Ht x Hx. apply Hsfr. rewrite Ess1 in Hx.
      assert (Ht0 : OffsetPtr.to_bool m (Struct.allocator_slot b) = true).
      { rewrite <- Ht. apply to_bool_of_offset, load_i32_agree.
        intros y Hy. symmetry. apply Hfr.
        unfold Struct.allocator_slot in Hy. lia. }
      specialize (Hal8 Ht0). lia. }
    unfold String.assign, OffsetPtr.assign_ptr.
    destruct (wf_store_record ms b a (OffsetPtr.to_offset a p) Ws)
      as (W2 & Ess2 & Eu2 & Ec2); [unfold Struct.sizeof; lia | lia |].
    set (m2 := store_u32 ms a (OffsetPtr.to_offset a p)) in *.
    assert (Eget : OffsetPtr.get m2 a = p).
    { apply (get_assign_ptr ms a p). right. lia. }
    assert (Et : OffsetPtr.to_bool m2 a = true).
    { apply to_bool_true_iff. unfold m2.
      change (store_u32 ms a (OffsetPtr.to_offset a p))
        with (OffsetPtr.assign_ptr ms a p).
      rewrite assign_ptr_offset by (assumption || lia). lia. }
    assert (Hcs2 : cstr m2 p str).
    { apply (cstr_agree m2 ms); [exact Hcs |].
      intros x Hx. apply store_u32_other. lia. }
    split; [exact W2 | split; [lia | split]].
    + intros _. rewrite <- Ep.
      split; [reflexivity | split; [exact Hcs2 | split; [| split; [| lia]]]].
      * unfold String.c_str. rewrite Et. exact Eget.
      * unfold String.length, String.c_str. rewrite Et, Eget.
        apply strlen_cstr; assumption.
    + intros Hbig. exfalso. apply Hp. apply Hno. lia.
Qed.

Lemma create_string_round_trip_witness :
  let m := fst (Struct.InplaceNew Samples.sizeof_StringRecord
                  Samples.construct_StringRecord zero_mem 1000 128) in
  let r := Struct.CreateString m 1000 Samples.hello in
  let m2 := String.assign (fst r) (Samples.name 1000) (snd r) in
  String.length 8 8 m2 (Samples.name 1000) = Some 5.
Proof.
  intros m r m2.
  assert (W : wf_block m 1000)
    by (vm_compute; repeat split; try discriminate; intros _; repeat split;
        discriminate).
  assert (Hc : forall c, List.In c Samples.hello -> 0 < c < 256).
  { intros c Hin. simpl in Hin.
    repeat (destruct Hin as [<- | Hin]; [lia |]). contradiction. }
  refine (proj1 (proj2 (proj2 (proj2 (proj1 (proj2 (proj2
    (create_string_round_trip 8 8 m 1000 (Samples.name 1000) Samples.hello
       W _ _ _ Hc _ _))) _))))).
  - vm_compute. discriminate.
  - vm_compute. discriminate.
  - vm_compute. reflexivity.
  - vm_compute. reflexivity.
  - vm_compute. lia.
  - vm_compute. discriminate.
Defined.

(** ** Vector comparison *)

Section VectorEqFacts.

Variable sizeT : Z.
Variable elem_eq : mem -> Z -> Z -> bool.
Hypothesis sizeT_pos : 0 < sizeT.

Variables (m : mem) (a o : Z).

Let n := Vector.size_ m a.
Let ba := Vector.begin_ m a.
Let bo := Vector.begin_ m o.

Lemma vector_eq_loop (k : nat) :
  forall (fuel : nat) (i : Z),
    Z.of_nat k = n - i -> (k < fuel)%nat -> 0 <= i ->
    exists r,
      Vector.eq_loop sizeT elem_eq fuel m a (ba + i * sizeT) (bo + i * sizeT)
      = Some r
      /\ (r = true <->
          forall j, i <= j < n ->
            elem_eq m (ba + j * sizeT) (bo + j * sizeT) = true).
Proof.
  induction k as [| k IH]; intros fuel i Hk Hf Hi;
    (destruct fuel as [| fuel]; [lia |]); simpl;
    unfold Vector.end_; fold n ba.
  - assert (i = n) by lia. subst i. rewrite Z.eqb_refl.
    exists true. split; [reflexivity |]. split; [intros _ j Hj; lia | reflexivity].
  - destruct (Z.eqb_spec (ba + i * sizeT) (ba + n * sizeT)) as [E | E];
      [assert (i = n) by nia; lia |].
    destruct (elem_eq m (ba + i * sizeT) (bo + i * sizeT)) eqn:Ee; simpl.
    + replace (ba + i * sizeT + sizeT) with (ba + (i + 1) * sizeT) by lia.
      replace (bo + i * sizeT + sizeT) with (bo + (i + 1) * sizeT) by lia.
      destruct (IH fuel (i + 1) ltac:(lia) ltac:(lia) ltac:(lia))
        as (r & Er & Hiff).
      exists r. split; [exact Er |]. rewrite Hiff. split.
      * intros H j Hj. destruct (Z.eq_dec j i) as [-> | Hne];
          [exact Ee | apply H; lia].
      * intros H j Hj. apply H. lia.
    + exists false. split; [reflexivity |]. split; [discriminate |].
      intros H. rewrite (H i) in Ee by lia. discriminate.
Qed.

End VectorEqFacts.

(** X10.  [Vector::operator==] returns a result once the loop has been
    given as many steps as there are elements, and the result is true
    exactly when the two sizes are equal and the elements at equal indices
    compare equal with [T]'s [operator==]; two empty vectors are equal. *)
Theorem vector_eq_pointwise
  (sizeT : Z) (elem_eq : mem -> Z -> Z -> bool) (fuel : nat) (m : mem) (a o : Z) :
  0 < sizeT ->
  (Z.to_nat (Vector.size_ m a) < fuel)%nat ->
  exists r,
    Vector.eq sizeT elem_eq fuel m a o = Some r
    /\ (r = true <->
        Vector.size_ m a = Vector.size_ m o
        /\ forall j, 0 <= j < Vector.size_ m a ->
             elem_eq m (Vector.begin_ m a + j * sizeT)
               (Vector.begin_ m o + j * sizeT) = true).
Proof.
  intros HT Hf. unfold Vector.eq, Vector.empty.
  assert (Hn : 0 <= Vector.size_ m a) by apply load_u32_range.
  destruct (Z.eqb_spec (Vector.size_ m a) (Vector.size_ m o)) as [E | E]; simpl.
  - rewrite <- E.
    destruct (Z.eqb_spec (Vector.size_ m a) 0) as [E0 | E0]; simpl.
    + exists true. split; [reflexivity |].
      split; [intros _; split; [reflexivity | intros j Hj; lia] | reflexivity].
    + destruct (vector_eq_loop sizeT elem_eq HT m a o
                  (Z.to_nat (Vector.size_ m a)) fuel 0
                  ltac:(lia) Hf ltac:(lia)) as (r & Er & Hiff).
      rewrite !Z.mul_0_l, !Z.add_0_r in Er.
      exists r. split; [exact Er |]. rewrite Hiff. tauto.
  - exists false. split; [reflexivity |].
    split; [discriminate | intros [H _]; contradiction].
Qed.

Lemma vector_eq_pointwise_witness :
  Vector.eq Samples.sizeof_IntPair
    (fun m p q => load_i32 m p =? load_i32 m q) 3
    Samples.map_block Samples.map_at Samples.map_at = Some true.
Proof.
  destruct (vector_eq_pointwise Samples.sizeof_IntPair
              (fun m p q => load_i32 m p =? load_i32 m q) 3
              Samples.map_block Samples.map_at Samples.map_at)
    as (r & Er & Hiff).
  - unfold Samples.sizeof_IntPair. lia.
  - vm_compute. lia.
  - rewrite Er. f_equal. apply Hiff. split; [reflexivity |].
    intros j _. apply Z.eqb_refl.
Defined.

(** ** Lists: reading a chain *)

Section ListReadFacts.

Variable m : mem.

Lemma lrep_size x v rest :
  lrep m x v rest -> List.size_ m x = 1 + Z.of_nat (length rest).
Proof. destruct rest; intros H; apply H. Qed.

Lemma lrep_value x v rest :
  lrep m x v rest -> OffsetPtr.get m (List.value_slot x) = v.
Proof. destruct rest; intros H; apply H. Qed.

Lemma lrep_index : forall rest x v fuel i,
  lrep m x v rest -> 0 <= i <= Z.of_nat (length rest) ->
  (Z.to_nat i < fuel)%nat ->
  List.index fuel m x i
  = Some (Ok (Lists.List.nth (Z.to_nat i) (values v rest) 0)).
Proof.
  induction rest as [| [y w] rest IH]; intros x v fuel i H Hi Hf;
    (destruct fuel as [| fuel]; [lia |]); simpl List.index;
    rewrite (lrep_size _ _ _ H); rewrite (lrep_value _ _ _ H).
  - simpl length in *. assert (i = 0) by lia. subst i.
    destruct (Z.geb_spec 0 (1 + Z.of_nat 0)); [lia |]. reflexivity.
  - destruct (Z.geb_spec i (1 + Z.of_nat (length ((y, w) :: rest))));
      [lia |].
    destruct (Z.eqb_spec i 0) as [-> | Hne]; [reflexivity |].
    destruct H as (_ & _ & _ & _ & Hy & Hrest). rewrite Hy.
    rewrite (IH y w fuel (i - 1) Hrest) by (simpl length in Hi; lia).
    replace (Z.to_nat i) with (S (Z.to_nat (i - 1))) by lia.
    reflexivity.
Qed.

Lemma lrep_index_out x v rest fuel i :
  lrep m x v rest -> Z.of_nat (length rest) < i -> (0 < fuel)%nat ->
  List.index fuel m x i = Some OutOfRange.
Proof.
  intros H Hi Hf. destruct fuel as [| fuel]; [lia |]. simpl.
  rewrite (lrep_size _ _ _ H).
  destruct (Z.geb_spec i (1 + Z.of_nat (length rest))); [reflexivity | lia].
Qed.

(** Stepping an iterator [k] times from the node [x]. *)
Lemma lrep_iterate : forall rest x v k,
  lrep m x v rest ->
  (forall y, Lists.List.In y (nodes x rest) -> y <> NULL) ->
  (k <= length rest)%nat ->
  let it := Nat.iter k (List.iter_next m) x in
  it = Lists.List.nth k (nodes x rest) 0
  /\ List.iter_deref m it = Lists.List.nth k (values v rest) 0
  /\ Nat.iter (S (length rest)) (List.iter_next m) x = List.end_.
Proof.
  induction rest as [| [y w] rest IH]; intros x v k H Hpos Hk; cbv zeta.
  - assert (k = 0)%nat by (simpl in Hk; lia). subst k. simpl.
    split; [reflexivity | split].
    + unfold List.iter_deref. apply (lrep_value _ _ _ H).
    + destruct H as (_ & _ & _ & Hn). unfold List.iter_next.
      rewrite Hn, andb_false_r. reflexivity.
  - assert (Hx : x <> NULL) by (apply Hpos; left; reflexivity).
    assert (Hstep : List.iter_next m x = y).
    { destruct H as (_ & _ & _ & Ht & Hy & _). unfold List.iter_next.
      rewrite Ht. destruct (Z.eqb_spec x NULL); [contradiction |]. exact Hy. }
    pose proof H as (_ & _ & _ & _ & _ & Hrest).
    assert (Hpos' : forall z, Lists.List.In z (nodes y rest) -> z <> NULL)
      by (intros z Hz; apply Hpos; right; exact Hz).
    assert (Hend : Nat.iter (S (length ((y, w) :: rest))) (List.iter_next m) x
                   = List.end_).
    { rewrite Nat.iter_succ_r, Hstep.
      apply (IH y w 0%nat Hrest Hpos' ltac:(lia)). }
    destruct k as [| k].
    + split; [reflexivity | split; [| exact Hend]].
      unfold List.iter_deref. apply (lrep_value _ _ _ H).
    + rewrite !Nat.iter_succ_r, Hstep.
      destruct (IH y w k Hrest Hpos' ltac:(simpl in Hk; lia)) as (E1 & E2 & E3).
      split; [exact E1 | split; [exact E2 | exact E3]].
Qed.

Section ListEqFacts.

Variable elem_eq : mem -> Z -> Z -> bool.

Lemma lrep_eq_loop : forall r1 x v1 r2 y v2 fuel,
  lrep m x v1 r1 -> lrep m y v2 r2 ->
  length r1 = length r2 ->
  (forall z, Lists.List.In z (nodes x r1) -> z <> NULL) ->
  (forall z, Lists.List.In z (nodes y r2) -> z <> NULL) ->
  (S (length r1) < fuel)%nat ->
  exists r,
    List.eq_loop elem_eq fuel m x y = Some r
    /\ (r = true <->
        forall k, (k <= length r1)%nat ->
          elem_eq m (Lists.List.nth k (values v1 r1) 0)
            (Lists.List.nth k (values v2 r2) 0) = true).
Proof.
  induction r1 as [| [x' w1] r1 IH]; intros x v1 r2 y v2 fuel H1 H2 Hlen Hp1 Hp2 Hf;
    (destruct fuel as [| fuel]; [lia |]);
    (destruct r2 as [| [y' w2] r2]; [| try discriminate Hlen]);
    try discriminate Hlen.
  - simpl List.eq_loop. unfold List.end_.
    assert (Hx : x <> NULL) by (apply Hp1; left; reflexivity).
    assert (Hy : y <> NULL) by (apply Hp2; left; reflexivity).
    destruct (Z.eqb_spec x NULL); [contradiction |].
    unfold List.iter_deref.
    rewrite (lrep_value _ _ _ H1), (lrep_value _ _ _ H2).
    destruct (elem_eq m v1 v2) eqn:Ee; simpl.
    + destruct H1 as (_ & _ & _ & Hn1). unfold List.iter_next at 1.
      rewrite Hn1, andb_false_r.
      destruct fuel as [| fuel]; [simpl in Hf; lia |]. simpl.
      exists true. split; [reflexivity |]. split; [| reflexivity].
      intros _ k Hk. assert (k = 0)%nat by (simpl in Hk; lia). subst k.
      exact Ee.
    + exists false. split; [reflexivity |]. split; [discriminate |].
      intros H. specialize (H 0%nat ltac:(lia)). simpl in H. congruence.
  - simpl List.eq_loop. unfold List.end_.
    assert (Hx : x <> NULL) by (apply Hp1; left; reflexivity).
    assert (Hy : y <> NULL) by (apply Hp2; left; reflexivity).
    destruct (Z.eqb_spec x NULL); [contradiction |].
    unfold List.iter_deref.
    rewrite (lrep_value _ _ _ H1), (lrep_value _ _ _ H2).
    destruct (elem_eq m v1 v2) eqn:Ee; simpl.
    + destruct H1 as (_ & _ & _ & Ht1 & Hy1 & Hr1).
      destruct H2 as (_ & _ & _ & Ht2 & Hy2 & Hr2).
      unfold List.iter_next. rewrite Ht1, Ht2.
      destruct (Z.eqb_spec x NULL); [contradiction |].
      destruct (Z.eqb_spec y NULL); [contradiction |].
      simpl. rewrite Hy1, Hy2.
      destruct (IH x' w1 r2 y' w2 fuel Hr1 Hr2) as (r & Er & Hiff).
      * simpl in Hlen. lia.
      * intros z Hz. apply Hp1. right. exact Hz.
      * intros z Hz. apply Hp2. right. exact Hz.
      * simpl in Hf. lia.
      * exists r. split; [exact Er |]. rewrite Hiff. split.
        -- intros H [| k] Hk; [exact Ee |]. simpl. apply H. simpl in Hk. lia.
        -- intros H k Hk. apply (H (S k)). simpl. lia.
    + exists false. split; [reflexivity |]. split; [discriminate |].
      intros H. specialize (H 0%nat ltac:(lia)). simpl in H. congruence.
Qed.

End ListEqFacts.

End ListReadFacts.

(** X11.  Indexing a well-formed chain: [operator[]] returns the element
    at the given position for every index below the list's size, walking
    one node per position, and fails with out-of-range for every other
    index; the head's [size_] is the number of elements. *)
Theorem list_index_by_position
  (m : mem) (x v : Z) (rest : list (Z * Z)) (fuel : nat) (i : Z) :
  lrep m x v rest ->
  (length rest < fuel)%nat ->
  0 <= i ->
  List.size_ m x = Z.of_nat (length (values v rest))
  /\ List.index fuel m x i
     = Some (if i <? List.size_ m x
             then Ok (Lists.List.nth (Z.to_nat i) (values v rest) 0)
             else OutOfRange).
Proof.
  intros H Hf Hi.
  assert (Hs : List.size_ m x = 1 + Z.of_nat (length rest))
    by (apply (lrep_size m _ _ _ H)).
  split.
  - rewrite Hs. unfold values. simpl length.
    rewrite Lists.List.length_map. lia.
  - rewrite Hs. destruct (Z.ltb_spec i (1 + Z.of_nat (length rest))).
    + apply lrep_index; [exact H | lia | lia].
    + apply (lrep_index_out m x v rest); [exact H | lia | lia].
Qed.

Lemma list_index_by_position_witness :
  List.index 8 Samples.list_block (Samples.items 1000) 1 = Some (Ok 1032).
Proof.
  assert (R : lrep Samples.list_block (Samples.items 1000) 1028 Samples.list_rest)
    by (vm_compute; repeat split).
  assert (F : (length Samples.list_rest < 8)%nat) by (simpl; lia).
  assert (H := proj2 (list_index_by_position Samples.list_block
                        (Samples.items 1000) 1028 Samples.list_rest 8 1 R F
                        ltac:(lia))).
  rewrite H. vm_compute. reflexivity.
Defined.

(** X12.  Iterating a well-formed chain: [begin()] is the head, applying
    [++] [k] times reaches the [k]-th node, whose dereference is the
    [k]-th element, and one step past the last node gives [end()]. *)
Theorem list_iteration_in_order
  (m : mem) (x v : Z) (rest : list (Z * Z)) (k : nat) :
  lrep m x v rest ->
  (forall y, Lists.List.In y (nodes x rest) -> y <> NULL) ->
  (k <= length rest)%nat ->
  let it := Nat.iter k (List.iter_next m) (List.begin_ m x) in
  List.begin_ m x = x
  /\ it = Lists.List.nth k (nodes x rest) 0
  /\ it <> List.end_
  /\ List.iter_deref m it = Lists.List.nth k (values v rest) 0
  /\ Nat.iter (S (length rest)) (List.iter_next m) (List.begin_ m x)
     = List.end_.
Proof.
  intros H Hpos Hk. cbv zeta.
  assert (Hb : List.begin_ m x = x).
  { unfold List.begin_, List.empty. rewrite (lrep_size m _ _ _ H).
    destruct (Z.eqb_spec (1 + Z.of_nat (length rest)) 0); [lia | reflexivity]. }
  rewrite Hb.
  destruct (lrep_iterate m rest x v k H Hpos Hk) as (E1 & E2 & E3).
  split; [reflexivity | split; [exact E1 | split; [| split; [exact E2 | exact E3]]]].
  rewrite E1. apply Hpos. apply Lists.List.nth_In.
  unfold nodes. simpl length. rewrite Lists.List.length_map. lia.
Qed.

Lemma list_iteration_in_order_witness :
  List.iter_deref Samples.list_block
    (Nat.iter 2 (List.iter_next Samples.list_block)
       (List.begin_ Samples.list_block (Samples.items 1000)))
  = Lists.List.nth 2 (values 1028 Samples.list_rest) 0.
Proof.
  refine (proj1 (proj2 (proj2 (proj2
    (list_iteration_in_order Samples.list_block (Samples.items 1000) 1028
       Samples.list_rest 2 _ _ _))))).
  - vm_compute. repeat split.
  - intros y Hy. simpl in Hy.
    repeat (destruct Hy as [<- | Hy]; [discriminate |]). contradiction.
  - simpl. lia.
Defined.

(** X13.  [List::operator==] on two well-formed chains returns true
    exactly when they have the same number of elements and the elements
    at equal positions compare equal with [T]'s [operator==]; lists whose
    [size_] differ are unequal and two lists of size 0 are equal without
    any element being read. *)
Theorem list_eq_pointwise
  (elem_eq : mem -> Z -> Z -> bool) (fuel : nat) (m : mem)
  (x v1 : Z) (r1 : list (Z * Z)) (y v2 : Z) (r2 : list (Z * Z)) :
  lrep m x v1 r1 -> lrep m y v2 r2 ->
  (forall z, Lists.List.In z (nodes x r1) -> z <> NULL) ->
  (forall z, Lists.List.In z (nodes y r2) -> z <> NULL) ->
  (S (length r1) < fuel)%nat ->
  (exists r,
     List.eq elem_eq fuel m x y = Some r
     /\ (r = true <->
         length r1 = length r2
         /\ forall k, (k <= length r1)%nat ->
              elem_eq m (Lists.List.nth k (values v1 r1) 0)
                (Lists.List.nth k (values v2 r2) 0) = true))
  /\ (forall a o,
        List.size_ m a <> List.size_ m o ->
        List.eq elem_eq fuel m a o = Some false)
  /\ (forall a o,
        List.size_ m a = 0 -> List.size_ m o = 0 ->
        List.eq elem_eq fuel m a o = Some true).
Proof.
  intros H1 H2 Hp1 Hp2 Hf. split; [| split].
  - unfold List.eq, List.empty, List.begin_, List.empty.
    rewrite (lrep_size m _ _ _ H1), (lrep_size m _ _ _ H2).
    destruct (Z.eqb_spec (1 + Z.of_nat (length r1)) (1 + Z.of_nat (length r2)))
      as [E | E]; cbn [negb].
    + destruct (Z.eqb_spec (1 + Z.of_nat (length r1)) 0); [lia |].
      destruct (Z.eqb_spec (1 + Z.of_nat (length r2)) 0); [lia |].
      cbn [negb andb].
      destruct (lrep_eq_loop m elem_eq r1 x v1 r2 y v2 fuel H1 H2
                  ltac:(lia) Hp1 Hp2 Hf) as (r & Er & Hiff).
      exists r. split; [exact Er |]. rewrite Hiff.
      split; [intros H; split; [lia | exact H] | intros [_ H]; exact H].
    + exists false. split; [reflexivity |].
      split; [discriminate | intros [Hl _]; lia].
  - intros a o Hne. unfold List.eq.
    destruct (Z.eqb_spec (List.size_ m a) (List.size_ m o));
      [contradiction | reflexivity].
  - intros a o Ha Ho. unfold List.eq, List.empty. rewrite Ha, Ho. reflexivity.
Qed.

Lemma list_eq_pointwise_witness :
  List.eq (fun m p q => load_i32 m p =? load_i32 m q) 8 Samples.list_block
    (Samples.items 1000) (Samples.items 1000) = Some true.
Proof.
  assert (R : lrep Samples.list_block (Samples.items 1000) 1028
                Samples.list_rest)
    by (vm_compute; repeat split).
  assert (P : forall z, Lists.List.In z
                (nodes (Samples.items 1000) Samples.list_rest) -> z <> NULL).
  { intros z Hz. simpl in Hz.
    repeat (destruct Hz as [<- | Hz]; [discriminate |]). contradiction. }
  destruct (proj1 (list_eq_pointwise
              (fun m p q => load_i32 m p =? load_i32 m q) 8 Samples.list_block
              _ _ _ _ _ _ R R P P ltac:(simpl; lia))) as (r & Er & Hiff).
  rewrite Er. f_equal. apply Hiff. split; [reflexivity |].
  intros k _. apply Z.eqb_refl.
Defined.

(** ** Lists: growing and shrinking a chain *)

Section ListWriteFacts.

Lemma node_fields_agree m1 m2 z :
  (forall x, z <= x < z + 12 -> m1 x = m2 x) ->
  List.size_ m1 z = List.size_ m2 z
  /\ OffsetPtr.to_bool m1 (List.value_slot z) = OffsetPtr.to_bool m2 (List.value_slot z)
  /\ OffsetPtr.get m1 (List.value_slot z) = OffsetPtr.get m2 (List.value_slot z)
  /\ OffsetPtr.to_bool m1 (List.next_slot z) = OffsetPtr.to_bool m2 (List.next_slot z)
  /\ OffsetPtr.get m1 (List.next_slot z) = OffsetPtr.get m2 (List.next_slot z).
Proof.
  intros H.
  assert (Ev : OffsetPtr.offset_ m1 (List.value_slot z)
               = OffsetPtr.offset_ m2 (List.value_slot z)).
  { apply load_i32_agree. intros x Hx. apply H.
    unfold List.value_slot in Hx. lia. }
  assert (En : OffsetPtr.offset_ m1 (List.next_slot z)
               = OffsetPtr.offset_ m2 (List.next_slot z)).
  { apply load_i32_agree. intros x Hx. apply H.
    unfold List.next_slot in Hx. lia. }
  split; [apply load_u32_agree; intros x Hx; apply H; lia |].
  unfold OffsetPtr.to_bool, OffsetPtr.get. rewrite Ev, En. repeat split.
Qed.

Lemma lrep_agree m1 m2 : forall rest x v,
  lrep m2 x v rest ->
  (forall z, Lists.List.In z (nodes x rest) ->
     forall a, z <= a < z + 12 -> m1 a = m2 a) ->
  lrep m1 x v rest.
Proof.
  induction rest as [| [y w] rest IH]; intros x v H Hag;
    destruct (node_fields_agree m1 m2 x (Hag x (or_introl eq_refl)))
      as (Es & Etv & Egv & Etn & Egn).
  - destruct H as (H1 & H2 & H3 & H4). simpl.
    rewrite Es, Etv, Egv, Etn. repeat split; assumption.
  - destruct H as (H1 & H2 & H3 & H4 & H5 & H6).
    simpl. rewrite Es, Etv, Egv, Etn, Egn.
    repeat split; try assumption.
    apply IH; [exact H6 |]. intros z Hz. apply Hag. right. exact Hz.
Qed.

(** Assigning a one-element descriptor to a node makes it a one-element
    chain and writes nothing but the node. *)
Lemma assign_single m p w :
  w <> NULL -> w <> List.value_slot p ->
  - 2 ^ 31 <= w - List.value_slot p < 2 ^ 31 ->
  let m' := List.assign m p (List.mk_content 1 w NULL) in
  lrep m' p w nil
  /\ forall a, a < p \/ p + 12 <= a -> m' a = m a.
Proof.
  intros Hw Hne Hr. cbv zeta. unfold List.assign. simpl List.size.
  simpl List.value. simpl List.next.
  set (m1 := store_u32 m p 1).
  set (m2 := OffsetPtr.assign_ptr m1 (List.value_slot p) w).
  set (m3 := OffsetPtr.assign_ptr m2 (List.next_slot p) NULL).
  assert (Ho2 : OffsetPtr.offset_ m2 (List.value_slot p) = w - List.value_slot p)
    by (apply assign_ptr_offset; assumption).
  assert (Ho3 : OffsetPtr.offset_ m3 (List.value_slot p) = w - List.value_slot p).
  { rewrite <- Ho2. unfold m3, OffsetPtr.assign_ptr. apply load_i32_agree.
    intros x Hx. apply store_u32_other.
    unfold List.value_slot, List.next_slot in *. lia. }
  split.
  - simpl. split; [| split; [| split]].
    + unfold List.size_, m3, m2, m1, OffsetPtr.assign_ptr,
        List.value_slot, List.next_slot.
      rewrite !load_store_u32_other by lia. rewrite load_store_u32_same.
      reflexivity.
    + apply to_bool_true_iff. rewrite Ho3. lia.
    + unfold OffsetPtr.get. rewrite Ho3.
      destruct (Z.eqb_spec (w - List.value_slot p) 0); lia.
    + apply to_bool_false_iff. apply assign_ptr_null.
  - intros a Ha. unfold m3, m2, m1, OffsetPtr.assign_ptr,
      List.value_slot, List.next_slot.
    rewrite !store_u32_other by lia. reflexivity.
Qed.

Lemma append_on_empty fuel m a s c :
  s <> NULL -> List.empty m a = true ->
  ListOps.append (S fuel) m a s c = Some (List.assign m a c, true).
Proof.
  intros Hs He. simpl. destruct (Z.eqb_spec s NULL); [contradiction |].
  rewrite He. reflexivity.
Qed.

Lemma append_through_next fuel m a s c :
  s <> NULL -> List.empty m a = false ->
  OffsetPtr.to_bool m (List.next_slot a) = true ->
  ListOps.append (S fuel) m a s c
  = match ListOps.append fuel m (OffsetPtr.get m (List.next_slot a)) s c with
    | None => None
    | Some (m2, false) => Some (m2, false)
    | Some (m2, true) =>
        Some (store_u32 m2 a
                (List.size_ m2 (OffsetPtr.get m2 (List.next_slot a)) + 1), true)
    end.
Proof.
  intros Hs He Ht. simpl. destruct (Z.eqb_spec s NULL); [contradiction |].
  rewrite He, Ht. reflexivity.
Qed.

Lemma append_new_node fuel m a s c m1 p :
  s <> NULL -> List.empty m a = false ->
  OffsetPtr.to_bool m (List.next_slot a) = false ->
  Struct.Allocate m s List.sizeof 1 = (m1, p) ->
  let m2 := OffsetPtr.assign_ptr m1 (List.next_slot a) p in
  OffsetPtr.to_bool m2 (List.next_slot a) = true ->
  ListOps.append (S fuel) m a s c
  = match ListOps.append fuel m2 (OffsetPtr.get m2 (List.next_slot a)) s c with
    | None => None
    | Some (m3, false) => Some (m3, false)
    | Some (m3, true) =>
        Some (store_u32 m3 a
                (List.size_ m3 (OffsetPtr.get m3 (List.next_slot a)) + 1), true)
    end.
Proof.
  intros Hs He Ht EA m2 Ht2. simpl.
  destruct (Z.eqb_spec s NULL); [contradiction |].
  rewrite He, Ht. simpl negb. cbv iota. rewrite EA. fold m2. rewrite Ht2.
  reflexivity.
Qed.

End ListWriteFacts.

Section AppendChain.

Variables (m : mem) (b w : Z).
Hypothesis Hwf : wf_block m b.
Hypothesis Hfree : Struct.used_space m b + List.sizeof <= Struct.capacity m b.
Hypothesis Hsmall : Struct.used_space m b + List.sizeof < 2 ^ 31.
Hypothesis Hw : b <= w < b + Struct.used_space m b.

Let p := b + Struct.used_space m b.
Let al := b + Struct.struct_size m b.
Let c := List.mk_content 1 w NULL.
Let m1 := fst (Struct.Allocate m b List.sizeof 1).

Lemma append_alloc_facts :
  Struct.Allocate m b List.sizeof 1 = (m1, p)
  /\ wf_block m1 b
  /\ Struct.used_space m1 b = Struct.used_space m b + List.sizeof
  /\ Struct.capacity m1 b = Struct.capacity m b
  /\ (forall a, p <= a < p + 12 -> m1 a = 0)
  /\ (forall a, a < al + 4 \/ al + 8 <= a < p \/ p + 12 <= a -> m1 a = m a)
  /\ al + 8 <= p /\ 0 < b.
Proof.
  destruct (allocate_block_facts m b List.sizeof 1 Hwf) as (W1 & Ecap & Hplace).
  destruct (Allocate_outcome m b List.sizeof 1 Hwf) as (_ & Hdec & _).
  destruct (Allocate_bytes m b List.sizeof 1 Hwf) as (Hz & Hfr).
  change (wrap64 (List.sizeof * 1)) with 12 in *. unfold List.sizeof in *.
  destruct (Hdec ltac:(lia) ltac:(lia)) as [Hyes _].
  specialize (Hyes Hfree). destruct (Hplace Hyes) as (Ep & Eu & _).
  pose proof (wf_used_lower m b Hwf) as Hl.
  destruct (wf_capacity m b Hwf) as [Ec _].
  destruct (wf_used_space m b Hwf) as [Eus _].
  assert (Ht : OffsetPtr.to_bool m (Struct.allocator_slot b) = true).
  { destruct (OffsetPtr.to_bool m (Struct.allocator_slot b)); [reflexivity |].
    lia. }
  rewrite Ht in Hl. unfold Allocator.sizeof in Hl.
  split; [| split; [exact W1 | split; [exact Eu | split; [exact Ecap |
    split; [exact (Hz Hyes) | split; [exact Hfr | split;
      [unfold al, p; lia | apply Hwf]]]]]]].
  unfold m1, p. rewrite <- Ep. apply surjective_pairing.
Qed.

Lemma load_u32_zero (m0 : mem) a :
  (forall x, a <= x < a + 4 -> m0 x = 0) -> load_u32 m0 a = 0.
Proof.
  intros H. unfold load_u32, load_u8. rewrite !H by lia. reflexivity.
Qed.

Lemma append_chain : forall rest x v fuel,
  lrep m x v rest ->
  (forall z, Lists.List.In z (nodes x rest) -> node_ok m b z) ->
  disjoint_nodes (nodes x rest) ->
  Z.of_nat (length rest) + 2 < 2 ^ 32 ->
  (S (length rest) < fuel)%nat ->
  exists m',
    ListOps.append fuel m x b c = Some (m', true)
    /\ lrep m' x v (rest ++ cons (p, w) nil)
    /\ (forall a,
          (forall z, Lists.List.In z (nodes x rest) -> a < z \/ z + 12 <= a) ->
          a < al + 4 \/ al + 8 <= a -> a < p \/ p + 12 <= a -> m' a = m a)
    /\ (forall a, al + 4 <= a < al + 8 -> m' a = m1 a).
Proof.
  destruct append_alloc_facts as (EA & W1 & Eu1 & Ec1 & Hz & Hfr & Halp & Hb).
  assert (Hs : b <> NULL) by (unfold NULL; lia).
  pose proof Hsmall as Hsm. unfold List.sizeof in Hsm. fold p in Hsm.
  pose proof Hw as Hw'. fold p in Hw'.
  induction rest as [| [y w'] rest IH]; intros x v fuel H Hok Hdis Hlen Hf.
  - (* the tail: a node is allocated and linked *)
    destruct fuel as [| [| fuel]]; [simpl in Hf; lia | simpl in Hf; lia |].
    destruct (Hok x (or_introl eq_refl)) as (Hx1 & Hx2 & Hx3).
    unfold Struct.sizeof, List.sizeof, Allocator.sizeof in Hx1, Hx2, Hx3.
    fold al in Hx2. fold p in Hx3.
    destruct H as (Hsz & Htv & Hgv & Htn). simpl length in Hsz.
    assert (He : List.empty m x = false).
    { unfold List.empty. rewrite Hsz. reflexivity. }
    set (m2 := OffsetPtr.assign_ptr m1 (List.next_slot x) p).
    assert (Ho2 : OffsetPtr.offset_ m2 (List.next_slot x) = p - List.next_slot x).
    { apply assign_ptr_offset; unfold NULL, List.next_slot, p in *; lia. }
    assert (Ht2 : OffsetPtr.to_bool m2 (List.next_slot x) = true).
    { apply to_bool_true_iff. rewrite Ho2. unfold List.next_slot. lia. }
    assert (Eg2 : OffsetPtr.get m2 (List.next_slot x) = p).
    { rewrite (get_target _ _ Ht2), Ho2. lia. }
    rewrite (append_new_node (S fuel) m x b c m1 p Hs He Htn EA Ht2).
    fold m2. rewrite Eg2.
    assert (Hm2 : forall a, a < List.next_slot x \/ List.next_slot x + 4 <= a ->
                    m2 a = m1 a).
    { intros a Ha. apply store_u32_other. exact Ha. }
    assert (He2 : List.empty m2 p = true).
    { unfold List.empty, List.size_. rewrite load_u32_zero; [reflexivity |].
      intros a Ha. rewrite Hm2 by (unfold List.next_slot; lia).
      apply Hz. lia. }
    rewrite (append_on_empty fuel m2 p b c Hs He2).
    destruct (assign_single m2 p w) as (Hrp & Hfr3);
      try (unfold NULL, List.value_slot in *; lia).
    fold c in Hrp, Hfr3.
    set (m3 := List.assign m2 p c) in *.
    assert (Hx3' : forall a, x <= a < x + 12 -> m3 a = m2 a)
      by (intros a Ha; apply Hfr3; lia).
    destruct (node_fields_agree m3 m2 x Hx3') as (_ & _ & _ & Etn3 & Egn3).
    rewrite Egn3, Eg2. rewrite (lrep_size m3 _ _ _ Hrp). simpl length.
    set (m4 := store_u32 m3 x (1 + Z.of_nat 0 + 1)).
    exists m4. split; [reflexivity | split; [| split]].
    + (* the chain after the append *)
      assert (Hval : forall a, x + 4 <= a < x + 8 -> m4 a = m a).
      { intros a Ha. unfold m4. rewrite store_u32_other by lia.
        rewrite Hfr3 by lia. rewrite Hm2 by (unfold List.next_slot; lia).
        apply Hfr. lia. }
      assert (Enx : forall a, x + 8 <= a < x + 12 -> m4 a = m2 a).
      { intros a Ha. unfold m4. rewrite store_u32_other by lia.
        apply Hfr3. lia. }
      simpl. split; [| split; [| split; [| split; [| split]]]].
      * unfold List.size_, m4. rewrite load_store_u32_same. reflexivity.
      * rewrite <- Htv. apply to_bool_of_offset, load_i32_agree.
        intros a Ha. apply Hval. unfold List.value_slot in Ha. lia.
      * rewrite <- Hgv. unfold OffsetPtr.get.
        replace (OffsetPtr.offset_ m4 (List.value_slot x))
          with (OffsetPtr.offset_ m (List.value_slot x)); [reflexivity |].
        symmetry. apply load_i32_agree.
        intros a Ha. apply Hval. unfold List.value_slot in Ha. lia.
      * rewrite <- Ht2. apply to_bool_of_offset, load_i32_agree.
        intros a Ha. apply Enx. unfold List.next_slot in Ha. lia.
      * rewrite <- Eg2. unfold OffsetPtr.get.
        replace (OffsetPtr.offset_ m4 (List.next_slot x))
          with (OffsetPtr.offset_ m2 (List.next_slot x)); [reflexivity |].
        symmetry. apply load_i32_agree.
        intros a Ha. apply Enx. unfold List.next_slot in Ha. lia.
      * apply (lrep_agree m4 m3 nil p w Hrp).
        intros z [<- | []] a Ha. unfold m4. apply store_u32_other. lia.
    + intros a Hn Hc Hp. specialize (Hn x (or_introl eq_refl)).
      unfold m4. rewrite store_u32_other by lia.
      rewrite Hfr3 by lia. rewrite Hm2 by (unfold List.next_slot; lia).
      apply Hfr. lia.
    + intros a Ha. unfold m4. rewrite store_u32_other by lia.
      rewrite Hfr3 by lia. apply Hm2. unfold List.next_slot. lia.
  - (* an inner node: the element goes further down, the size is updated *)
    destruct fuel as [| fuel]; [simpl in Hf; lia |].
    destruct (Hok x (or_introl eq_refl)) as (Hx1 & Hx2 & Hx3).
    unfold Struct.sizeof, List.sizeof, Allocator.sizeof in Hx1, Hx2, Hx3.
    fold al in Hx2. fold p in Hx3.
    destruct Hdis as [Hxd Hdis']. unfold List.sizeof in Hxd.
    destruct H as (Hsz & Htv & Hgv & Htn & Hgn & Hrest).
    assert (He : List.empty m x = false).
    { unfold List.empty. rewrite Hsz.
      destruct (Z.eqb_spec (1 + Z.of_nat (length ((y, w') :: rest))) 0);
        [lia | reflexivity]. }
    rewrite (append_through_next fuel m x b c Hs He Htn). rewrite Hgn.
    destruct (IH y w' fuel Hrest) as (m2 & Eap & Hrep2 & Hfr2 & Hcnt2).
    { intros z Hz0. apply Hok. right. exact Hz0. }
    { exact Hdis'. }
    { simpl length in Hlen. lia. }
    { simpl length in Hf. lia. }
    rewrite Eap.
    assert (Hx2' : forall a, x <= a < x + 12 -> m2 a = m a).
    { intros a Ha. apply Hfr2; [| lia | lia].
      intros z Hz0. destruct (Hxd z Hz0); lia. }
    destruct (node_fields_agree m2 m x Hx2') as (_ & Etv2 & Egv2 & Etn2 & Egn2).
    rewrite Egn2, Hgn. rewrite (lrep_size m2 _ _ _ Hrep2).
    set (n' := 1 + Z.of_nat (length (rest ++ cons (p, w) nil)) + 1).
    set (m4 := store_u32 m2 x n').
    assert (Hn' : n' = 1 + Z.of_nat
                           (length (cons (y, w') (Lists.List.app rest (cons (p, w) nil))))).
    { unfold n'. simpl length. lia. }
    assert (Hn32 : 0 <= n' < 2 ^ 32).
    { rewrite Hn'. simpl length in *. rewrite Lists.List.length_app in *.
      simpl length in *. lia. }
    assert (Hrest4 : forall a, x + 4 <= a < x + 12 -> m4 a = m2 a)
      by (intros a Ha; unfold m4; apply store_u32_other; lia).
    exists m4. split; [reflexivity | split; [| split]].
    + change (lrep m4 x v (cons (y, w') (Lists.List.app rest (cons (p, w) nil)))).
      cbn [lrep]. split; [| split; [| split; [| split; [| split]]]].
      * unfold List.size_, m4. rewrite load_store_u32_same.
        rewrite wrap32_small by exact Hn32. exact Hn'.
      * rewrite <- Htv, <- Etv2. apply to_bool_of_offset, load_i32_agree.
        intros a Ha. apply Hrest4. unfold List.value_slot in Ha. lia.
      * rewrite <- Hgv, <- Egv2. unfold OffsetPtr.get.
        replace (OffsetPtr.offset_ m4 (List.value_slot x))
          with (OffsetPtr.offset_ m2 (List.value_slot x)); [reflexivity |].
        symmetry. apply load_i32_agree.
        intros a Ha. apply Hrest4. unfold List.value_slot in Ha. lia.
      * rewrite <- Htn, <- Etn2. apply to_bool_of_offset, load_i32_agree.
        intros a Ha. apply Hrest4. unfold List.next_slot in Ha. lia.
      * rewrite <- Hgn, <- Egn2. unfold OffsetPtr.get.
        replace (OffsetPtr.offset_ m4 (List.next_slot x))
          with (OffsetPtr.offset_ m2 (List.next_slot x)); [reflexivity |].
        symmetry. apply load_i32_agree.
        intros a Ha. apply Hrest4. unfold List.next_slot in Ha. lia.
      * apply (lrep_agree m4 m2 _ y w' Hrep2).
        intros z Hz0 a Ha. unfold m4. apply store_u32_other.
        unfold nodes in Hz0. rewrite Lists.List.map_app in Hz0.
        change (Lists.List.In z
                  (Lists.List.app (cons y (Lists.List.map fst rest)) (cons p nil)))
          in Hz0.
        apply Lists.List.in_app_or in Hz0. destruct Hz0 as [Hz0 | [<- | []]].
        -- destruct (Hxd z Hz0); lia.
        -- lia.
    + intros a Hn Hc Hp. unfold m4.
      rewrite store_u32_other by (specialize (Hn x (or_introl eq_refl)); lia).
      apply Hfr2; [| exact Hc | exact Hp].
      intros z Hz0. apply Hn. right. exact Hz0.
    + intros a Ha. unfold m4. rewrite store_u32_other by lia.
      apply Hcnt2. exact Ha.
Qed.

End AppendChain.

(** X14.  Appending to a non-empty list whose nodes lie, without
    overlapping, in the used bytes of a well-formed block with room for one
    more node: [append(s, v)] succeeds, allocates exactly one node at the
    end of the used bytes and links it after the last node, so the list is
    the old one followed by the new element; every node's [size_] is again
    the number of elements from it onward, the block stays well formed with
    [used_space()] grown by [sizeof(List<T>)], and no byte outside the
    list's nodes, the allocator's counter and the new node changes. *)
Theorem list_append_at_end
  (m : mem) (b x v w : Z) (rest : list (Z * Z)) (fuel : nat) :
  wf_block m b ->
  Struct.used_space m b + List.sizeof <= Struct.capacity m b ->
  Struct.used_space m b + List.sizeof < 2 ^ 31 ->
  b <= w < b + Struct.used_space m b ->
  lrep m x v rest ->
  (forall z, Lists.List.In z (nodes x rest) -> node_ok m b z) ->
  disjoint_nodes (nodes x rest) ->
  Z.of_nat (length rest) + 2 < 2 ^ 32 ->
  (S (length rest) < fuel)%nat ->
  let p := b + Struct.used_space m b in
  exists m',
    ListOps.append_value fuel m x b w = Some (m', true)
    /\ lrep m' x v (Lists.List.app rest (cons (p, w) nil))
    /\ wf_block m' b
    /\ Struct.used_space m' b = Struct.used_space m b + List.sizeof
    /\ Struct.capacity m' b = Struct.capacity m b
    /\ (forall a,
          (forall z, Lists.List.In z (nodes x rest) -> a < z \/ z + 12 <= a) ->
          a < b + Struct.struct_size m b + 4
          \/ b + Struct.struct_size m b + 8 <= a ->
          a < p \/ p + 12 <= a -> m' a = m a).
Proof.
  intros Hwf Hfree Hsmall Hw H Hok Hdis Hlen Hf. cbv zeta.
  destruct (append_alloc_facts m b Hwf Hfree)
    as (EA & W1 & Eu1 & Ec1 & Hz & Hfr & Halp & Hb).
  destruct (append_chain m b w Hwf Hfree Hsmall Hw rest x v fuel H Hok Hdis Hlen Hf)
    as (m' & Eap & Hrep & Hframe & Hcnt).
  exists m'. split; [| split; [exact Hrep |]].
  - unfold ListOps.append_value.
    destruct (Z.eqb_spec b NULL); [unfold NULL in *; lia |].
    destruct (Z.eqb_spec w NULL); [unfold NULL in *; lia |].
    exact Eap.
  - pose proof Hwf as (_ & Hs & _). unfold Struct.sizeof in Hs.
    assert (Ess1 : Struct.struct_size (fst (Struct.Allocate m b List.sizeof 1)) b
                   = Struct.struct_size m b).
    { apply load_u32_agree. intros a Ha. apply Hfr. lia. }
    assert (Hout : forall a, b <= a < b + Struct.struct_size m b + 4 ->
              b + 8 <= a \/ a < b + 8 ->
              a < b + 8 \/ b + Struct.struct_size m b <= a ->
              forall z, Lists.List.In z (nodes x rest) -> a < z \/ z + 12 <= a).
    { intros a Ha _ Ha' z Hz0. destruct (Hok z Hz0) as (H1 & H2 & _).
      unfold Struct.sizeof, List.sizeof, Allocator.sizeof in *. lia. }
    destruct (wf_agree_header m' (fst (Struct.Allocate m b List.sizeof 1)) b W1)
      as (W' & _ & Eu' & Ec').
    { intros a Ha. rewrite Hfr by lia. apply Hframe; [| lia | lia].
      apply Hout; lia. }
    { intros _ a Ha. rewrite Ess1 in Ha.
      destruct (Z_lt_le_dec a (b + Struct.struct_size m b + 4)).
      - rewrite Hfr by lia. apply Hframe; [| lia | lia].
        apply Hout; lia.
      - apply Hcnt. lia. }
    split; [exact W' | split; [lia | split; [lia | exact Hframe]]].
Qed.

Lemma list_append_at_end_witness :
  let m := fst (Struct.Allocate Samples.list_block 1000 4 1) in
  exists m',
    ListOps.append_value 8 m (Samples.items 1000) 1000 1064 = Some (m', true)
    /\ lrep m' (Samples.items 1000) 1028
         (Lists.List.app Samples.list_rest (cons (1068, 1064) nil)).
Proof.
  intros m.
  destruct (list_append_at_end m 1000 (Samples.items 1000) 1028 1064
              Samples.list_rest 8) as (m' & E & R & _).
  - vm_compute. repeat split; try discriminate; intros _; repeat split;
      discriminate.
  - vm_compute. discriminate.
  - vm_compute. reflexivity.
  - vm_compute. split; [discriminate | reflexivity].
  - vm_compute. repeat split.
  - intros z Hz. simpl in Hz.
    repeat (destruct Hz as [<- | Hz];
            [vm_compute; repeat split;
             first [discriminate | left; discriminate | right; discriminate] |]).
    contradiction.
  - simpl. unfold List.sizeof.
    repeat split; intros y Hy;
      repeat (destruct Hy as [<- | Hy]; [lia |]); contradiction.
  - simpl. lia.
  - simpl. lia.
  - exists m'. split; [exact E |].
    replace (1000 + Struct.used_space m 1000) with 1068 in R
      by (vm_compute; reflexivity).
    exact R.
Defined.

(** X15.  The first element needs no allocation: [append(s, v)] on a list
    whose [size_] is 0 turns the head itself into a one-element chain
    holding [v] and writes nothing outside the head, whatever the head's
    pointers held before; a null block or element pointer is refused
    without any write. *)
Theorem list_append_first (fuel : nat) (m : mem) (x s v : Z) :
  List.size_ m x = 0 ->
  (0 < fuel)%nat ->
  (s = NULL \/ v = NULL -> ListOps.append_value fuel m x s v = Some (m, false))
  /\ (s <> NULL -> v <> NULL -> v <> List.value_slot x ->
      - 2 ^ 31 <= v - List.value_slot x < 2 ^ 31 ->
      exists m',
        ListOps.append_value fuel m x s v = Some (m', true)
        /\ lrep m' x v nil
        /\ node_invariant m' x = true
        /\ (forall a, a < x \/ x + 12 <= a -> m' a = m a)).
Proof.
  intros Hsz Hf. destruct fuel as [| fuel]; [lia |]. split.
  - intros Hn. unfold ListOps.append_value.
    destruct Hn as [-> | ->]; [reflexivity |].
    rewrite Z.eqb_refl, orb_true_r. reflexivity.
  - intros Hs Hv Hne Hr.
    destruct (assign_single m x v Hv Hne Hr) as [Hrep Hfr].
    exists (List.assign m x (List.mk_content 1 v NULL)).
    split; [| split; [exact Hrep | split; [| exact Hfr]]].
    + unfold ListOps.append_value.
      destruct (Z.eqb_spec s NULL); [contradiction |].
      destruct (Z.eqb_spec v NULL); [contradiction |]. simpl orb. cbv iota.
      apply append_on_empty; [exact Hs |].
      unfold List.empty. rewrite Hsz. reflexivity.
    + destruct Hrep as (E1 & E2 & _ & E4). unfold node_invariant.
      rewrite E1, E2, E4. reflexivity.
Qed.

Lemma list_append_first_witness :
  exists m',
    ListOps.append_value 1 Samples.empty_list_block (Samples.items 1000) 1000 1028
    = Some (m', true)
    /\ lrep m' (Samples.items 1000) 1028 nil.
Proof.
  assert (Hsz : List.size_ Samples.empty_list_block (Samples.items 1000) = 0)
    by (vm_compute; reflexivity).
  destruct (proj2 (list_append_first 1 Samples.empty_list_block
                     (Samples.items 1000) 1000 1028 Hsz ltac:(lia)))
    as (m' & E & R & _).
  - discriminate.
  - discriminate.
  - vm_compute. discriminate.
  - vm_compute. split; [discriminate | reflexivity].
  - exists m'. split; assumption.
Defined.

Lemma in_firstn_in {A : Type} (q : A) : forall n l,
  Lists.List.In q (Lists.List.firstn n l) -> Lists.List.In q l.
Proof.
  induction n as [| n IH]; intros [| h t] H; simpl in H; try contradiction.
  destruct H as [<- | H]; [left; reflexivity | right; apply IH; exact H].
Qed.

Section ShrinkChain.

Variables (m : mem) (s sizeT : Z).

Lemma resize_shrink_chain : forall rest x v k fuel,
  lrep m x v rest ->
  disjoint_nodes (nodes x rest) ->
  1 <= k <= Z.of_nat (length rest) ->
  (Z.to_nat k <= fuel)%nat ->
  exists m',
    ListOps.resize fuel m x s sizeT k = Some (m', true)
    /\ lrep m' x v (Lists.List.firstn (Z.to_nat (k - 1)) rest)
    /\ (forall a,
          (forall z, Lists.List.In z (nodes x rest) -> a < z \/ z + 12 <= a) ->
          m' a = m a).
Proof.
  induction rest as [| [y w] rest IH]; intros x v k fuel H Hdis Hk Hf;
    [simpl in Hk; lia |].
  destruct fuel as [| fuel]; [lia |].
  destruct H as (Hsz & Htv & Hgv & Htn & Hgn & Hrest).
  destruct Hdis as [Hxd Hdis']. unfold List.sizeof in Hxd.
  assert (Hlen : Z.of_nat (length ((y, w) :: rest)) = 1 + Z.of_nat (length rest))
    by (simpl length; lia).
  rewrite Hlen in Hsz, Hk.
  assert (R32 : 0 <= List.size_ m x < 2 ^ 32) by apply load_u32_range.
  simpl ListOps.resize. rewrite Hsz.
  destruct (Z.eqb_spec k (1 + (1 + Z.of_nat (length rest)))); [lia |].
  destruct (Z.gtb_spec k (1 + (1 + Z.of_nat (length rest)))); [lia |].
  destruct (Z.eqb_spec k 0); [lia |].
  destruct (Z.eqb_spec k 1) as [-> | Hk1].
  - (* cut after the head *)
    set (m1 := OffsetPtr.assign_ptr m (List.next_slot x) NULL).
    set (m2 := store_u32 m1 x 1).
    exists m2. split; [reflexivity | split].
    + simpl. split; [| split; [| split]].
      * unfold List.size_, m2. apply load_store_u32_same.
      * rewrite <- Htv. apply to_bool_of_offset, load_i32_agree.
        intros a Ha. unfold m2, m1, OffsetPtr.assign_ptr,
          List.value_slot, List.next_slot in *.
        rewrite !store_u32_other by lia. reflexivity.
      * rewrite <- Hgv. unfold OffsetPtr.get.
        replace (OffsetPtr.offset_ m2 (List.value_slot x))
          with (OffsetPtr.offset_ m (List.value_slot x)); [reflexivity |].
        symmetry. apply load_i32_agree.
        intros a Ha. unfold m2, m1, OffsetPtr.assign_ptr,
          List.value_slot, List.next_slot in *.
        rewrite !store_u32_other by lia. reflexivity.
      * unfold m2. rewrite to_bool_store_other
          by (unfold List.next_slot; lia).
        apply to_bool_false_iff, assign_ptr_null.
    + intros a Ha. specialize (Ha x (or_introl eq_refl)).
      unfold m2, m1, OffsetPtr.assign_ptr, List.next_slot.
      rewrite !store_u32_other by lia. reflexivity.
  - (* cut further down *)
    rewrite Hgn.
    destruct (IH y w (k - 1) fuel Hrest Hdis' ltac:(lia) ltac:(lia))
      as (m2 & Er & Hrep2 & Hfr2).
    rewrite Er.
    set (m4 := store_u32 m2 x k).
    assert (Hx2 : forall a, x <= a < x + 12 -> m2 a = m a).
    { intros a Ha. apply Hfr2. intros z Hz0. destruct (Hxd z Hz0); lia. }
    destruct (node_fields_agree m2 m x Hx2) as (_ & Etv2 & Egv2 & Etn2 & Egn2).
    assert (Hrest4 : forall a, x + 4 <= a < x + 12 -> m4 a = m2 a)
      by (intros a Ha; unfold m4; apply store_u32_other; lia).
    exists m4. split; [reflexivity | split].
    + replace (Z.to_nat (k - 1)) with (S (Z.to_nat (k - 1 - 1))) by lia.
      change (lrep m4 x v
                (cons (y, w) (Lists.List.firstn (Z.to_nat (k - 1 - 1)) rest))).
      cbn [lrep]. split; [| split; [| split; [| split; [| split]]]].
      * unfold List.size_, m4. rewrite load_store_u32_same.
        rewrite wrap32_small by lia.
        cbn [length]. rewrite Lists.List.length_firstn. lia.
      * rewrite <- Htv, <- Etv2. apply to_bool_of_offset, load_i32_agree.
        intros a Ha. apply Hrest4. unfold List.value_slot in Ha. lia.
      * rewrite <- Hgv, <- Egv2. unfold OffsetPtr.get.
        replace (OffsetPtr.offset_ m4 (List.value_slot x))
          with (OffsetPtr.offset_ m2 (List.value_slot x)); [reflexivity |].
        symmetry. apply load_i32_agree.
        intros a Ha. apply Hrest4. unfold List.value_slot in Ha. lia.
      * rewrite <- Htn, <- Etn2. apply to_bool_of_offset, load_i32_agree.
        intros a Ha. apply Hrest4. unfold List.next_slot in Ha. lia.
      * rewrite <- Hgn, <- Egn2. unfold OffsetPtr.get.
        replace (OffsetPtr.offset_ m4 (List.next_slot x))
          with (OffsetPtr.offset_ m2 (List.next_slot x)); [reflexivity |].
        symmetry. apply load_i32_agree.
        intros a Ha. apply Hrest4. unfold List.next_slot in Ha. lia.
      * apply (lrep_agree m4 m2 _ y w Hrep2).
        intros z Hz0 a Ha. unfold m4. apply store_u32_other.
        assert (Hin : Lists.List.In z (Lists.List.map fst ((y, w) :: rest))).
        { destruct Hz0 as [<- | Hz0]; [left; reflexivity | right].
          apply Lists.List.in_map_iff in Hz0. destruct Hz0 as (q & <- & Hq).
          apply Lists.List.in_map. eapply in_firstn_in. exact Hq. }
        destruct (Hxd z Hin); lia.
    + intros a Ha. unfold m4.
      rewrite store_u32_other by (specialize (Ha x (or_introl eq_refl)); lia).
      apply Hfr2. intros z Hz0. apply Ha. right. exact Hz0.
Qed.

End ShrinkChain.

(** X16.  Shrinking a chain of non-overlapping nodes: [resize(s, k)] with
    [1 <= k < size] succeeds without allocating, keeps the first [k]
    elements in order and cuts the rest off; only bytes of the list's own
    nodes change, so in a well-formed block whose used bytes hold the
    nodes, [used_space()] stays what it was (nothing is reclaimed). *)
Theorem list_resize_shrink
  (m : mem) (s sizeT x v : Z) (rest : list (Z * Z)) (k : Z) (fuel : nat) :
  lrep m x v rest ->
  disjoint_nodes (nodes x rest) ->
  1 <= k <= Z.of_nat (length rest) ->
  (Z.to_nat k <= fuel)%nat ->
  exists m',
    ListOps.resize fuel m x s sizeT k = Some (m', true)
    /\ lrep m' x v (Lists.List.firstn (Z.to_nat (k - 1)) rest)
    /\ List.size_ m' x = k
    /\ (forall a,
          (forall z, Lists.List.In z (nodes x rest) -> a < z \/ z + 12 <= a) ->
          m' a = m a)
    /\ (forall b, wf_block m b ->
          (forall z, Lists.List.In z (nodes x rest) -> node_ok m b z) ->
          wf_block m' b
          /\ Struct.used_space m' b = Struct.used_space m b
          /\ Struct.capacity m' b = Struct.capacity m b).
Proof.
  intros H Hdis Hk Hf.
  destruct (resize_shrink_chain m s sizeT rest x v k fuel H Hdis Hk Hf)
    as (m' & Er & Hrep & Hfr).
  exists m'. split; [exact Er | split; [exact Hrep | split; [| split; [exact Hfr |]]]].
  - rewrite (lrep_size m' _ _ _ Hrep), Lists.List.length_firstn. lia.
  - intros b Hwf Hok.
    pose proof Hwf as (_ & Hs & _). unfold Struct.sizeof in Hs.
    destruct (wf_agree_header m' m b Hwf) as (W & _ & Eu & Ec).
    + intros a Ha. apply Hfr. intros z Hz. destruct (Hok z Hz) as (H1 & _).
      unfold Struct.sizeof in H1. lia.
    + intros _ a Ha. apply Hfr. intros z Hz.
      destruct (Hok z Hz) as (_ & H2 & _).
      unfold List.sizeof, Allocator.sizeof in H2. lia.
    + split; [exact W | split; assumption].
Qed.

Lemma list_resize_shrink_witness :
  exists m',
    ListOps.resize 8 Samples.list_block (Samples.items 1000) 1000 4 2
    = Some (m', true)
    /\ List.size_ m' (Samples.items 1000) = 2.
Proof.
  destruct (list_resize_shrink Samples.list_block 1000 4 (Samples.items 1000)
              1028 Samples.list_rest 2 8) as (m' & E & _ & Hs & _).
  - vm_compute. repeat split.
  - simpl. unfold List.sizeof.
    repeat split; intros y Hy;
      repeat (destruct Hy as [<- | Hy]; [vm_compute; (left + right); discriminate |]);
      contradiction.
  - simpl. lia.
  - lia.
  - exists m'. split; assumption.
Defined.

(** X17.  [clear()] empties a list from any state: afterwards [size_] is
    0, both pointers are null, the size invariant holds for the node,
    [begin()] equals [end()] and every index is out of range; only the
    node's own 12 bytes are written, so whatever the list owned stays
    allocated.  [resize(s, 0)] on a list of non-zero size does exactly
    that. *)
Theorem list_clear_resets (m : mem) (x : Z) :
  let m' := List.clear m x in
  List.size_ m' x = 0
  /\ OffsetPtr.get m' (List.value_slot x) = NULL
  /\ OffsetPtr.get m' (List.next_slot x) = NULL
  /\ node_invariant m' x = true
  /\ List.begin_ m' x = List.end_
  /\ (forall fuel i, 0 <= i -> List.index (S fuel) m' x i = Some OutOfRange)
  /\ (forall a, a < x \/ x + 12 <= a -> m' a = m a)
  /\ (forall fuel s sizeT, List.size_ m x <> 0 ->
        ListOps.resize (S fuel) m x s sizeT 0 = Some (m', true)).
Proof.
  cbv zeta. unfold List.clear.
  set (m1 := store_u32 m x 0).
  set (m2 := OffsetPtr.assign_ptr m1 (List.value_slot x) NULL).
  set (m3 := OffsetPtr.assign_ptr m2 (List.next_slot x) NULL).
  assert (Es : List.size_ m3 x = 0).
  { unfold List.size_, m3, m2, m1, OffsetPtr.assign_ptr,
      List.value_slot, List.next_slot.
    rewrite !load_store_u32_other by lia. apply load_store_u32_same. }
  assert (Etn : OffsetPtr.to_bool m3 (List.next_slot x) = false)
    by (apply to_bool_false_iff, assign_ptr_null).
  assert (Etv : OffsetPtr.to_bool m3 (List.value_slot x) = false).
  { unfold m3, OffsetPtr.assign_ptr.
    rewrite to_bool_store_other by (unfold List.value_slot, List.next_slot; lia).
    apply to_bool_false_iff, assign_ptr_null. }
  split; [exact Es | split; [apply get_null, Etv | split; [apply get_null, Etn |
    split; [| split; [| split; [| split]]]]]].
  - unfold node_invariant. rewrite Es, Etv, Etn. reflexivity.
  - unfold List.begin_, List.empty. rewrite Es. reflexivity.
  - intros fuel i Hi. simpl. rewrite Es.
    destruct (Z.geb_spec i 0); [reflexivity | lia].
  - intros a Ha. unfold m3, m2, m1, OffsetPtr.assign_ptr,
      List.value_slot, List.next_slot.
    rewrite !store_u32_other by lia. reflexivity.
  - intros fuel s sizeT Hne. cbn [ListOps.resize].
    pose proof (load_u32_range m x) as R. fold (List.size_ m x) in R.
    destruct (Z.eqb_spec 0 (List.size_ m x)); [lia |].
    destruct (Z.gtb_spec 0 (List.size_ m x)); [lia |].
    rewrite Z.eqb_refl. reflexivity.
Qed.

(** ** Arrays of nested records *)

Lemma init_elements_spec sizeT :
  Struct.sizeof <= sizeT < 2 ^ 31 ->
  forall k m a i, 0 <= i ->
    let m' := Struct.init_elements m a sizeT i k in
    (forall j, i <= j < i + Z.of_nat k ->
       Struct.struct_size m' (a + j * sizeT) = sizeT
       /\ OffsetPtr.to_bool m' (Struct.allocator_slot (a + j * sizeT)) = false)
    /\ (forall x,
          (forall j, i <= j < i + Z.of_nat k ->
             x < a + j * sizeT \/ a + j * sizeT + 8 <= x) ->
          m' x = m x).
Proof.
  intros Hs. pose proof Hs as Hs'. unfold Struct.sizeof in Hs'.
  induction k as [| k IH]; intros m a i Hi; cbv zeta.
  - simpl. split; [intros j Hj; lia | reflexivity].
  - simpl Struct.init_elements.
    set (m0 := Struct.Init m (a + i * sizeT) sizeT 0).
    destruct (IH m0 a (i + 1) ltac:(lia)) as [Hel Hfr].
    assert (Hhead : forall x, a + i * sizeT <= x < a + i * sizeT + 8 ->
              Struct.init_elements m0 a sizeT (i + 1) k x = m0 x).
    { intros x Hx. apply Hfr. intros j Hj.
      assert (a + i * sizeT + sizeT <= a + j * sizeT) by nia. lia. }
    split.
    + intros j Hj. destruct (Z.eq_dec j i) as [-> | Hne].
      * split.
        -- transitivity (Struct.struct_size m0 (a + i * sizeT)).
           ++ apply load_u32_agree. intros x Hx. apply Hhead. lia.
           ++ apply Init_struct_size. exact Hs.
        -- transitivity (OffsetPtr.to_bool m0
                           (Struct.allocator_slot (a + i * sizeT))).
           ++ apply to_bool_of_offset, load_i32_agree.
              intros x Hx. apply Hhead.
              unfold Struct.allocator_slot in Hx. lia.
           ++ apply Init_no_allocator. reflexivity.
      * apply Hel. lia.
    + intros x Hx. rewrite Hfr by (intros j Hj; apply Hx; lia).
      unfold m0. apply Init_frame; [exact Hs | | left; reflexivity].
      specialize (Hx i ltac:(lia)). lia.
Qed.

(** X18.  [Create<T>(count)] for a nested record type of [sizeof(T)]
    bytes: when the [count] objects fit in the free space they are placed
    at the end of the used bytes, each one is initialised as a block of
    its own with record size [sizeof(T)] and no allocator, so its
    [capacity()] and [used_space()] are [sizeof(T)] and it refuses every
    allocation, while the enclosing block stays well formed with
    [used_space()] grown by [sizeof(T) * count]; when they do not fit the
    result is null and nothing changes. *)
Theorem create_nested_records (m : mem) (b sizeT count : Z) :
  wf_block m b ->
  Struct.sizeof <= sizeT < 2 ^ 31 ->
  0 < count -> sizeT * count < 2 ^ 64 ->
  let r := Struct.Create m b sizeT count in
  let p := b + Struct.used_space m b in
  (Struct.used_space m b + sizeT * count <= Struct.capacity m b ->
   snd r = p
   /\ wf_block (fst r) b
   /\ Struct.used_space (fst r) b = Struct.used_space m b + sizeT * count
   /\ Struct.capacity (fst r) b = Struct.capacity m b
   /\ forall j, 0 <= j < count ->
        let e := p + j * sizeT in
        wf_block (fst r) e
        /\ Struct.struct_size (fst r) e = sizeT
        /\ Struct.capacity (fst r) e = sizeT
        /\ Struct.used_space (fst r) e = sizeT
        /\ forall sT c, Struct.Allocate (fst r) e sT c = (fst r, NULL))
  /\ (Struct.capacity m b < Struct.used_space m b + sizeT * count ->
      r = (m, NULL)).
Proof.
  intros Hwf Hs Hcnt Hprod. cbv zeta.
  pose proof Hs as Hs'. unfold Struct.sizeof in Hs'.
  destruct (allocate_block_facts m b sizeT count Hwf) as (W1 & Ecap & Hplace).
  destruct (Allocate_outcome m b sizeT count Hwf) as (Hnull & Hdec & _).
  destruct (Allocate_bytes m b sizeT count Hwf) as (_ & Hfr).
  assert (Hn : 0 < sizeT * count) by nia.
  rewrite (wrap64_small (sizeT * count)) in * by lia.
  destruct (Hdec ltac:(lia) Hn) as [Hyes Hno].
  unfold Struct.Create.
  destruct (Struct.Allocate m b sizeT count) as [m1 p] eqn:EA.
  simpl fst in *. simpl snd in *.
  split.
  - intros Hfit. specialize (Hyes Hfit).
    destruct (Hplace Hyes) as (Ep & Eu1 & Hin).
    destruct (Z.eqb_spec p NULL); [contradiction |]. simpl.
    destruct (init_elements_spec sizeT Hs (Z.to_nat count) m1 p 0 ltac:(lia))
      as [Hel Hfre].
    set (m' := Struct.init_elements m1 p sizeT 0 (Z.to_nat count)) in *.
    rewrite Z2Nat.id in Hel, Hfre by lia.
    pose proof (wf_used_lower m b Hwf) as Hl.
    pose proof Hwf as (Hb & Hss & _). unfold Struct.sizeof in Hss.
    destruct (wf_used_space m b Hwf) as [_ Hu0]. unfold Struct.sizeof in Hu0.
    assert (Hlow : forall x, x < p -> m' x = m1 x).
    { intros x Hx. apply Hfre. intros j Hj.
      assert (0 <= j * sizeT) by nia. lia. }
    assert (Ess1 : Struct.struct_size m1 b = Struct.struct_size m b).
    { apply load_u32_agree. intros x Hx. apply Hfr. lia. }
    destruct (wf_agree_header m' m1 b W1) as (W' & _ & Eu' & Ec').
    { intros x Hx. apply Hlow. lia. }
    { intros Ht x Hx. apply Hlow. rewrite Ess1 in Hx.
      assert (Ht0 : OffsetPtr.to_bool m (Struct.allocator_slot b) = true).
      { rewrite <- Ht. apply to_bool_of_offset, load_i32_agree.
        intros y Hy. symmetry. apply Hfr.
        unfold Struct.allocator_slot in Hy. lia. }
      rewrite Ht0 in Hl. unfold Allocator.sizeof in Hl. lia. }
    split; [exact Ep | split; [exact W' | split; [lia | split; [lia |]]]].
    intros j Hj. cbv zeta. rewrite <- Ep.
    destruct (Hel j ltac:(lia)) as [Es Et].
    assert (We : wf_block m' (p + j * sizeT)).
    { split; [assert (0 <= j * sizeT) by nia; lia |].
      split; [rewrite Es; exact Hs |]. rewrite Et. discriminate. }
    split; [exact We | split; [exact Es | split; [| split]]].
    + destruct (wf_capacity _ _ We) as [E _]. rewrite E, Es, Et. lia.
    + destruct (wf_used_space _ _ We) as [E _]. rewrite E, Es, Et. lia.
    + intros sT c. unfold Struct.Allocate. rewrite Et. reflexivity.
  - intros Hbig. specialize (Hno Hbig). specialize (Hnull Hno). subst m1 p.
    reflexivity.
Qed.

Lemma create_nested_records_witness :
  let m := fst (Struct.InplaceNew 8 Struct.construct zero_mem 1000 64) in
  let r := Struct.Create m 1000 12 3 in
  snd r = 1000 + Struct.used_space m 1000
  /\ Struct.capacity (fst r) (1000 + Struct.used_space m 1000 + 1 * 12) = 12.
Proof.
  intros m r.
  assert (W : wf_block m 1000)
    by (vm_compute; repeat split; try discriminate; intros _; repeat split;
        discriminate).
  assert (Hfit : Struct.used_space m 1000 + 12 * 3 <= Struct.capacity m 1000)
    by (vm_compute; discriminate).
  destruct (proj1 (create_nested_records m 1000 12 3 W
                     ltac:(unfold Struct.sizeof; lia) ltac:(lia) ltac:(lia))
              Hfit) as (E & _ & _ & _ & Hel).
  split; [exact E |]. apply (Hel 1). lia.
Defined.

(** X19.  [CreateArray<T, N>()] for a nested record type of [sizeof(T)]
    bytes and [N >= 1].  When the [sizeof(T) * N] bytes of the array fit
    in the free space, the array is placed at the end of the used bytes
    and the enclosing block stays well formed with [used_space()] grown
    by [sizeof(T) * N]; [operator[]] of the array returned designates,
    for every index below [N], an element that has been initialised as a
    block of its own with record size [sizeof(T)] and no allocator, and
    fails with out-of-range for every other index.  When the array does
    not fit the result is null and nothing changes. *)
Theorem create_array_elements (m : mem) (b sizeT N : Z) :
  wf_block m b ->
  Struct.sizeof <= sizeT < 2 ^ 31 ->
  0 < N -> sizeT * N < 2 ^ 64 ->
  let r := Struct.CreateArray m b sizeT N in
  let p := b + Struct.used_space m b in
  (Struct.used_space m b + Array.sizeof sizeT N <= Struct.capacity m b ->
   snd r = p
   /\ wf_block (fst r) b
   /\ Struct.used_space (fst r) b
      = Struct.used_space m b + Array.sizeof sizeT N
   /\ Struct.capacity (fst r) b = Struct.capacity m b
   /\ (forall i, 0 <= i < N ->
         exists e,
           Array.index (snd r) sizeT N i = Ok e
           /\ e = p + i * sizeT
           /\ e + sizeT <= Array.end_ (snd r) sizeT N
           /\ wf_block (fst r) e
           /\ Struct.struct_size (fst r) e = sizeT
           /\ OffsetPtr.to_bool (fst r) (Struct.allocator_slot e) = false
           /\ Struct.capacity (fst r) e = sizeT)
   /\ (forall i, N <= i -> Array.index (snd r) sizeT N i = OutOfRange))
  /\ (Struct.capacity m b < Struct.used_space m b + Array.sizeof sizeT N ->
      r = (m, NULL)).
Proof.
  intros Hwf Hs HN Hprod. cbv zeta.
  pose proof Hs as Hs'. unfold Struct.sizeof in Hs'.
  unfold Array.sizeof.
  destruct (allocate_block_facts m b (sizeT * N) 1 Hwf) as (W1 & Ecap & Hplace).
  destruct (Allocate_outcome m b (sizeT * N) 1 Hwf) as (Hnull & Hdec & _).
  destruct (Allocate_bytes m b (sizeT * N) 1 Hwf) as (_ & Hfr).
  assert (Hn : 0 < sizeT * N) by nia.
  rewrite Z.mul_1_r, (wrap64_small (sizeT * N)) in * by lia.
  destruct (Hdec ltac:(lia) Hn) as [Hyes Hno].
  unfold Struct.CreateArray, Array.sizeof, Array.size.
  destruct (Struct.Allocate m b (sizeT * N) 1) as [m1 p] eqn:EA.
  simpl fst in *. simpl snd in *.
  split.
  - intros Hfit. specialize (Hyes Hfit).
    destruct (Hplace Hyes) as (Ep & Eu1 & Hin).
    destruct (Z.eqb_spec p NULL); [contradiction |]. simpl.
    destruct (init_elements_spec sizeT Hs (Z.to_nat N) m1 p 0 ltac:(lia))
      as [Hel Hfre].
    set (m' := Struct.init_elements m1 p sizeT 0 (Z.to_nat N)) in *.
    rewrite Z2Nat.id in Hel, Hfre by lia.
    pose proof (wf_used_lower m b Hwf) as Hl.
    pose proof Hwf as (Hb & Hss & _). unfold Struct.sizeof in Hss.
    destruct (wf_used_space m b Hwf) as [_ Hu0]. unfold Struct.sizeof in Hu0.
    assert (Hlow : forall x, x < p -> m' x = m1 x).
    { intros x Hx. apply Hfre. intros k Hk.
      assert (0 <= k * sizeT) by nia. lia. }
    assert (Ess1 : Struct.struct_size m1 b = Struct.struct_size m b).
    { apply load_u32_agree. intros x Hx. apply Hfr. lia. }
    destruct (wf_agree_header m' m1 b W1) as (W' & _ & Eu' & Ec').
    { intros x Hx. apply Hlow. lia. }
    { intros Ht x Hx. apply Hlow. rewrite Ess1 in Hx.
      assert (Ht0 : OffsetPtr.to_bool m (Struct.allocator_slot b) = true).
      { rewrite <- Ht. apply to_bool_of_offset, load_i32_agree.
        intros y Hy. symmetry. apply Hfr.
        unfold Struct.allocator_slot in Hy. lia. }
      rewrite Ht0 in Hl. unfold Allocator.sizeof in Hl. lia. }
    split; [exact Ep | split; [exact W' | split; [lia | split; [lia |]]]].
    split.
    + intros i Hi. exists (p + i * sizeT).
      destruct (Hel i ltac:(lia)) as [Es Et].
      assert (We : wf_block m' (p + i * sizeT)).
      { split; [assert (0 <= i * sizeT) by nia; lia |].
        split; [rewrite Es; exact Hs |]. rewrite Et. discriminate. }
      split; [| split; [rewrite Ep; reflexivity | split; [| split;
        [exact We | split; [exact Es | split; [exact Et |]]]]]].
      * unfold Array.index. destruct (Z.geb_spec i N); [lia | reflexivity].
      * unfold Array.end_. nia.
      * destruct (wf_capacity _ _ We) as [E _]. rewrite E, Es, Et. lia.
    + intros i Hi. unfold Array.index.
      destruct (Z.geb_spec i N); [reflexivity | lia].
  - intros Hbig. specialize (Hno Hbig). specialize (Hnull Hno). subst m1 p.
    reflexivity.
Qed.

Lemma create_array_elements_witness :
  let m := fst (Struct.InplaceNew 8 Struct.construct zero_mem 1000 64) in
  let r := Struct.CreateArray m 1000 12 3 in
  snd r = 1000 + Struct.used_space m 1000
  /\ exists e,
       Array.index (snd r) 12 3 2 = Ok e
       /\ e = 1000 + Struct.used_space m 1000 + 2 * 12
       /\ Struct.capacity (fst r) e = 12.
Proof.
  intros m r.
  assert (W : wf_block m 1000)
    by (vm_compute; repeat split; try discriminate; intros _; repeat split;
        discriminate).
  assert (Hfit : Struct.used_space m 1000 + Array.sizeof 12 3
                 <= Struct.capacity m 1000)
    by (vm_compute; discriminate).
  destruct (proj1 (create_array_elements m 1000 12 3 W
                     ltac:(unfold Struct.sizeof; lia) ltac:(lia) ltac:(lia))
              Hfit) as (E & _ & _ & _ & Hel & _).
  split; [exact E |].
  destruct (Hel 2 ltac:(lia)) as (e & H1 & H2 & _ & _ & _ & _ & H7).
  exists e. split; [exact H1 | split; [exact H2 | exact H7]].
Defined.

(** X20.  [Map::find] scans the pairs in order: given the first index [j]
    whose key equals the searched key (or the size when no key does) it
    returns the [j]-th pair, which is [end()] exactly when no key
    matches, and [operator[]] throws out-of-range exactly in that case;
    with duplicate keys the first pair is the one found. *)
Theorem map_find_first_match
  (K : Type) (sizePair : Z) (key_eq : mem -> Z -> K -> bool)
  (m : mem) (a : Z) (key : K) (fuel : nat) (j : Z) :
  0 < sizePair ->
  (Z.to_nat (Vector.size_ m a) < fuel)%nat ->
  0 <= j <= Vector.size_ m a ->
  (forall i, 0 <= i < j ->
     key_eq m (Vector.begin_ m a + i * sizePair) key = false) ->
  j = Vector.size_ m a
  \/ key_eq m (Vector.begin_ m a + j * sizePair) key = true ->
  Map.find K sizePair key_eq fuel m a key
  = Some (Vector.begin_ m a + j * sizePair)
  /\ (Map.find K sizePair key_eq fuel m a key
      = Some (Vector.end_ m a sizePair) <-> j = Vector.size_ m a)
  /\ (Map.subscript K sizePair key_eq fuel m a key = Some OutOfRange
      <-> j = Vector.size_ m a).
Proof.
  intros Hpos Hf Hj Hmiss Hstop.
  pose proof (find_first_match K sizePair key_eq Hpos m a key fuel j
                Hf Hj Hmiss Hstop) as Ef.
  pose proof (subscript_first_match K sizePair key_eq Hpos m a key fuel j
                Hf Hj Hmiss Hstop) as Es.
  split; [exact Ef | split].
  - rewrite Ef. unfold Vector.end_. split.
    + intros [= E]. nia.
    + intros ->. reflexivity.
  - rewrite Es. destruct (Z.eqb_spec j (Vector.size_ m a)) as [E | Hne].
    + split; [intros _; exact E | reflexivity].
    + split; [discriminate | intros E; contradiction].
Qed.

Lemma map_find_first_match_witness :
  Map.find Z Samples.sizeof_IntPair Samples.int_key_eq 3
    Samples.map_block Samples.map_at 2
  = Some (Vector.begin_ Samples.map_block Samples.map_at
          + 1 * Samples.sizeof_IntPair).
Proof.
  refine (proj1 (map_find_first_match Z Samples.sizeof_IntPair
                   Samples.int_key_eq Samples.map_block Samples.map_at 2 3 1
                   _ _ _ _ _)).
  - unfold Samples.sizeof_IntPair. lia.
  - vm_compute. lia.
  - vm_compute. split; discriminate.
  - intros i Hi. assert (i = 0) by lia. subst i. vm_compute. reflexivity.
  - right. vm_compute. reflexivity.
Defined.

(** ** Lists built by [CreateList] *)

Lemma alloc_step m b sz :
  wf_block m b -> 0 < sz ->
  Struct.used_space m b + sz <= Struct.capacity m b ->
  let p := b + Struct.used_space m b in
  let al := b + Struct.struct_size m b in
  exists m1,
    Struct.Allocate m b sz 1 = (m1, p)
    /\ wf_block m1 b
    /\ Struct.used_space m1 b = Struct.used_space m b + sz
    /\ Struct.capacity m1 b = Struct.capacity m b
    /\ Struct.struct_size m1 b = Struct.struct_size m b
    /\ (forall a, a < al + 4 \/ al + 8 <= a < p \/ p + sz <= a -> m1 a = m a)
    /\ al + 8 <= p.
Proof.
  intros Hwf Hsz Hfit. cbv zeta.
  destruct (allocate_block_facts m b sz 1 Hwf) as (W1 & Ecap & Hplace).
  destruct (Allocate_outcome m b sz 1 Hwf) as (_ & Hdec & _).
  destruct (Allocate_bytes m b sz 1 Hwf) as (_ & Hfr).
  destruct (wf_capacity m b Hwf) as [Ec Hc].
  destruct (wf_used_space m b Hwf) as [Eus Hu].
  pose proof (wf_used_lower m b Hwf) as Hl.
  pose proof Hwf as (Hb & Hss & _). unfold Struct.sizeof in *.
  rewrite Z.mul_1_r, (wrap64_small sz) in * by lia.
  destruct (Hdec ltac:(lia) Hsz) as [Hyes _].
  specialize (Hyes Hfit). destruct (Hplace Hyes) as (Ep & Eu & _).
  assert (Ht : OffsetPtr.to_bool m (Struct.allocator_slot b) = true).
  { destruct (OffsetPtr.to_bool m (Struct.allocator_slot b)); [reflexivity |].
    lia. }
  rewrite Ht in Hl. unfold Allocator.sizeof in Hl.
  exists (fst (Struct.Allocate m b sz 1)).
  split; [rewrite <- Ep; apply surjective_pairing |].
  split; [exact W1 | split; [exact Eu | split; [exact Ecap | split;
    [| split; [exact Hfr | lia]]]]].
  apply load_u32_agree. intros x Hx. apply Hfr. lia.
Qed.

Lemma assign_linked m p sz w y :
  0 <= sz < 2 ^ 32 ->
  w <> NULL -> w <> List.value_slot p ->
  - 2 ^ 31 <= w - List.value_slot p < 2 ^ 31 ->
  y <> NULL -> y <> List.next_slot p ->
  - 2 ^ 31 <= y - List.next_slot p < 2 ^ 31 ->
  let m' := List.assign m p (List.mk_content sz w y) in
  List.size_ m' p = sz
  /\ OffsetPtr.to_bool m' (List.value_slot p) = true
  /\ OffsetPtr.get m' (List.value_slot p) = w
  /\ OffsetPtr.to_bool m' (List.next_slot p) = true
  /\ OffsetPtr.get m' (List.next_slot p) = y
  /\ forall a, a < p \/ p + 12 <= a -> m' a = m a.
Proof.
  intros Hsz Hw Hwne Hwr Hy Hyne Hyr. cbv zeta. unfold List.assign.
  simpl List.size. simpl List.value. simpl List.next.
  set (m1 := store_u32 m p sz).
  set (m2 := OffsetPtr.assign_ptr m1 (List.value_slot p) w).
  set (m3 := OffsetPtr.assign_ptr m2 (List.next_slot p) y).
  assert (Ho2 : OffsetPtr.offset_ m2 (List.value_slot p) = w - List.value_slot p)
    by (apply assign_ptr_offset; assumption).
  assert (Ho3 : OffsetPtr.offset_ m3 (List.value_slot p) = w - List.value_slot p).
  { rewrite <- Ho2. unfold m3, OffsetPtr.assign_ptr. apply load_i32_agree.
    intros x Hx. apply store_u32_other.
    unfold List.value_slot, List.next_slot in *. lia. }
  assert (Hn3 : OffsetPtr.offset_ m3 (List.next_slot p) = y - List.next_slot p)
    by (apply assign_ptr_offset; assumption).
  split; [| split; [| split; [| split; [| split]]]].
  - unfold List.size_, m3, m2, m1, OffsetPtr.assign_ptr,
      List.value_slot, List.next_slot.
    rewrite !load_store_u32_other by lia. rewrite load_store_u32_same.
    apply wrap32_small. lia.
  - apply to_bool_true_iff. rewrite Ho3. lia.
  - unfold OffsetPtr.get. rewrite Ho3.
    destruct (Z.eqb_spec (w - List.value_slot p) 0); lia.
  - apply to_bool_true_iff. rewrite Hn3. lia.
  - unfold OffsetPtr.get. rewrite Hn3.
    destruct (Z.eqb_spec (y - List.next_slot p) 0); lia.
  - intros a Ha. unfold m3, m2, m1, OffsetPtr.assign_ptr,
      List.value_slot, List.next_slot.
    rewrite !store_u32_other by lia. reflexivity.
Qed.

Lemma chain_layout_length q sizeT k : length (chain_layout q sizeT k) = k.
Proof.
  revert q. induction k as [| k IH]; intros q; simpl; [| rewrite IH];
    reflexivity.
Qed.

Lemma chain_layout_nodes sizeT : 0 <= sizeT -> forall k q z,
  Lists.List.In z (Lists.List.map fst (chain_layout q sizeT k)) ->
  q <= z /\ z + 12 + sizeT <= q + Z.of_nat k * (12 + sizeT).
Proof.
  intros Hs. induction k as [| k IH]; intros q z Hin; [contradiction |].
  cbn [chain_layout Lists.List.map fst Lists.List.In] in Hin.
  destruct Hin as [<- | Hin].
  - lia.
  - apply IH in Hin. unfold List.sizeof in Hin. lia.
Qed.

Lemma chain_layout_values sizeT : forall k q i,
  (i < k)%nat ->
  Lists.List.nth i (Lists.List.map snd (chain_layout q sizeT k)) 0
  = q + 12 + Z.of_nat i * (12 + sizeT).
Proof.
  induction k as [| k IH]; intros q i Hi; [lia |].
  cbn [chain_layout Lists.List.map snd].
  destruct i as [| i].
  - simpl. unfold List.sizeof. lia.
  - cbn [Lists.List.nth]. rewrite IH by lia. unfold List.sizeof. lia.
Qed.

Lemma CreateList_S fuel m s sizeT size :
  Struct.CreateList (S fuel) m s sizeT size
  = if size >? 0 then
      let '(m1, v) := Struct.Allocate m s sizeT 1 in
      if v =? NULL then Some (m1, List.mk_content 0 v NULL)
      else if size >? 1 then
        let '(m2, n) := Struct.Allocate m1 s List.sizeof 1 in
        if n =? NULL then Some (m2, List.mk_content 0 v n)
        else
          match Struct.CreateList fuel m2 s sizeT (size - 1) with
          | None => None
          | Some (m3, c) =>
              let m4 := List.assign m3 n c in
              if List.empty m4 n then Some (m4, List.mk_content 0 v n)
              else Some (m4, List.mk_content size v n)
          end
      else Some (m1, List.mk_content size v NULL)
    else Some (m, List.mk_content 0 NULL NULL).
Proof. reflexivity. Qed.

Section CreateListChain.

Variables (b sizeT : Z).
Hypothesis HsizeT : 1 <= sizeT.

Lemma create_list_chain : forall k m fuel,
  wf_block m b ->
  Struct.used_space m b + (1 + Z.of_nat k) * sizeT + Z.of_nat k * 12
    <= Struct.capacity m b ->
  Struct.capacity m b < 2 ^ 31 ->
  (k < fuel)%nat ->
  let p := b + Struct.used_space m b in
  let al := b + Struct.struct_size m b in
  exists m',
    Struct.CreateList fuel m b sizeT (1 + Z.of_nat k)
    = Some (m', List.mk_content (1 + Z.of_nat k) p
                  (match k with O => NULL | S _ => p + sizeT end))
    /\ wf_block m' b
    /\ Struct.used_space m' b
       = Struct.used_space m b + (1 + Z.of_nat k) * sizeT + Z.of_nat k * 12
    /\ Struct.capacity m' b = Struct.capacity m b
    /\ Struct.struct_size m' b = Struct.struct_size m b
    /\ (forall a,
          a < al + 4 \/ al + 8 <= a < p
          \/ p + (1 + Z.of_nat k) * sizeT + Z.of_nat k * 12 <= a ->
          m' a = m a)
    /\ match chain_layout (p + sizeT) sizeT k with
       | nil => True
       | cons (y, w) rest => lrep m' y w rest
       end.
Proof.
  induction k as [| k IH]; intros m fuel Hwf Hfit Hcap Hf;
    (destruct fuel as [| fuel]; [lia |]); cbv zeta;
    rewrite CreateList_S;
    pose proof Hwf as (Hb & _);
    destruct (alloc_step m b sizeT Hwf ltac:(lia) ltac:(lia))
      as (m1 & EA1 & W1 & Eu1 & Ec1 & Es1 & Hfr1 & Hal);
    cbv zeta in Hfr1, Hal; rewrite EA1;
    destruct (Z.eqb_spec (b + Struct.used_space m b) NULL) as [E0 | _];
    try (unfold NULL in E0;
         pose proof (proj2 (wf_used_space m b Hwf)); unfold Struct.sizeof in *;
         lia).
  - change (1 + Z.of_nat 0) with 1 in *. cbn [Z.gtb Z.compare Pos.compare
      Pos.compare_cont].
    exists m1. split; [reflexivity |].
    split; [exact W1 | split; [lia | split; [exact Ec1 | split; [exact Es1 |
      split; [| exact I]]]]].
    intros a Ha. apply Hfr1. lia.
  - set (u := Struct.used_space m b) in *.
    set (n := 1 + Z.of_nat (S k)) in *.
    assert (En : n = 2 + Z.of_nat k) by (unfold n; lia).
    destruct (Z.gtb_spec n 0) as [_ | ?]; [| lia].
    destruct (Z.gtb_spec n 1) as [_ | ?]; [| lia].
    destruct (alloc_step m1 b List.sizeof W1 ltac:(unfold List.sizeof; lia)
                ltac:(unfold List.sizeof; lia))
      as (m2 & EA2 & W2 & Eu2 & Ec2 & Es2 & Hfr2 & _).
    cbv zeta in Hfr2. rewrite EA2. unfold List.sizeof in Eu2, Hfr2.
    rewrite Eu1 in *. rewrite Es1 in *.
    set (y := b + (u + sizeT)) in *.
    destruct (Z.eqb_spec y NULL) as [E0 | _];
      [unfold NULL, y in E0;
       pose proof (proj2 (wf_used_space m b Hwf)); unfold Struct.sizeof in *;
       fold u in H; lia |].
    replace (n - 1) with (1 + Z.of_nat k) by lia.
    destruct (IH m2 fuel W2 ltac:(lia) ltac:(lia) ltac:(lia))
      as (m3 & EC & W3 & Eu3 & Ec3 & Es3 & Hfr3 & Hch).
    cbv zeta in Hfr3, Hch. rewrite EC. rewrite Eu2, Es2 in *.
    replace (b + (u + sizeT + 12)) with (y + 12) in * by (unfold y; lia).
    set (c := List.mk_content (1 + Z.of_nat k) (y + 12)
                (match k with O => NULL | S _ => y + 12 + sizeT end)) in *.
    pose proof (proj2 (wf_used_space m b Hwf)) as Hu. fold u in Hu.
    unfold Struct.sizeof in Hu.
    pose proof (proj1 (proj2 Hwf)) as Hss. unfold Struct.sizeof in Hss.
    assert (Hy : b + Struct.struct_size m b + 8 <= y) by (unfold y; lia).
    assert (Hrep : lrep (List.assign m3 y c) y (y + 12)
                     (chain_layout (y + 12 + sizeT) sizeT k)
                   /\ forall a, a < y \/ y + 12 <= a ->
                        List.assign m3 y c a = m3 a).
    { unfold c. destruct k as [| k'].
      - change (1 + Z.of_nat 0) with 1. cbn [chain_layout].
        apply assign_single; unfold NULL, List.value_slot; lia.
      - destruct (assign_linked m3 y (1 + Z.of_nat (S k')) (y + 12)
                    (y + 12 + sizeT)) as (A1 & A2 & A3 & A4 & A5 & A6);
          try (unfold NULL, List.value_slot, List.next_slot; lia).
        split; [| exact A6].
        cbn [chain_layout] in Hch |- *. unfold List.sizeof in Hch |- *.
        cbn [lrep]. cbn [length]. rewrite chain_layout_length.
        split; [rewrite A1; lia |].
        split; [exact A2 | split; [exact A3 |]].
        split; [exact A4 | split; [exact A5 |]].
        apply (lrep_agree _ m3); [exact Hch |].
        intros z Hin a Ha. apply A6.
        change (nodes (y + 12 + sizeT) (chain_layout (y + 12 + sizeT + 12 + sizeT) sizeT k'))
          with (Lists.List.map fst (chain_layout (y + 12 + sizeT) sizeT (S k')))
          in Hin.
        apply (chain_layout_nodes sizeT ltac:(lia)) in Hin. lia. }
    destruct Hrep as [Hrep Hfr4].
    set (m4 := List.assign m3 y c) in *.
    assert (Hne : List.empty m4 y = false).
    { unfold List.empty.
      assert (E : List.size_ m4 y = 1 + Z.of_nat k).
      { destruct (chain_layout (y + 12 + sizeT) sizeT k) eqn:El;
          pose proof (chain_layout_length (y + 12 + sizeT) sizeT k) as Hlen;
          rewrite El in Hlen; destruct Hrep as (E & _); rewrite E, Hlen;
          reflexivity. }
      rewrite E. apply Z.eqb_neq. lia. }
    cbv zeta. fold m4. rewrite Hne.
    destruct (wf_agree_header m4 m3 b W3) as (W4 & Es4 & Eu4 & Ec4).
    { intros x Hx. apply Hfr4. lia. }
    { intros _ x Hx. apply Hfr4. rewrite Es3 in Hx. lia. }
    exists m4.
    split; [replace (b + u + sizeT) with y by (unfold y; lia); reflexivity |].
    split; [exact W4 |].
    split; [rewrite Eu4, Eu3; unfold n; lia |].
    split; [lia | split; [lia |]].
    split.
    + intros a Ha. rewrite Hfr4 by lia. rewrite Hfr3 by lia.
      rewrite Hfr2 by lia. apply Hfr1. lia.
    + cbn [chain_layout]. unfold List.sizeof.
      replace (b + u + sizeT) with y by (unfold y; lia). exact Hrep.
Qed.

End CreateListChain.

(** X21.  Growing an empty list: [resize(s, n)] on a list of size 0 lets
    [CreateList<T>(n)] lay out the [n] elements and the [n - 1] further
    nodes one after the other at the end of the used bytes and links
    them from the head.  When they fit, the call succeeds, the list has
    size [n], its [i]-th element is the [i]-th allocated slot, the block
    stays well formed with [used_space()] grown by
    [n * sizeof(T) + (n - 1) * sizeof(List<T>)], and the bytes outside
    the head, the allocator's [used_space] field and the new allocation
    are unchanged. *)
Theorem list_resize_grows_empty
  (m : mem) (b x sizeT n : Z) (fuel : nat) :
  wf_block m b -> node_ok m b x -> List.size_ m x = 0 ->
  1 <= sizeT -> 1 <= n ->
  Struct.used_space m b + n * sizeT + (n - 1) * List.sizeof
    <= Struct.capacity m b ->
  Struct.capacity m b < 2 ^ 31 ->
  (Z.to_nat n < fuel)%nat ->
  let p := b + Struct.used_space m b in
  let al := b + Struct.struct_size m b in
  let total := n * sizeT + (n - 1) * List.sizeof in
  exists m',
    ListOps.resize fuel m x b sizeT n = Some (m', true)
    /\ lrep m' x p (chain_layout (p + sizeT) sizeT (Z.to_nat (n - 1)))
    /\ List.size_ m' x = n
    /\ (forall i, 0 <= i < n ->
          List.index fuel m' x i
          = Some (Ok (p + i * (sizeT + List.sizeof))))
    /\ wf_block m' b
    /\ Struct.used_space m' b = Struct.used_space m b + total
    /\ Struct.capacity m' b = Struct.capacity m b
    /\ (forall a, a < x \/ x + List.sizeof <= a ->
          a < al + 4 \/ al + 8 <= a < p \/ p + total <= a ->
          m' a = m a).
Proof.
  intros Hwf (Hx1 & Hx2 & Hx3) Hsz HsT Hn Hfit Hcap Hf. cbv zeta.
  unfold List.sizeof, Struct.sizeof, Allocator.sizeof in *.
  destruct fuel as [| fuel]; [lia |].
  remember (Z.to_nat (n - 1)) as k eqn:Ek.
  assert (En : n = 1 + Z.of_nat k) by lia.
  destruct (create_list_chain b sizeT HsT k m (S fuel) Hwf
              ltac:(lia) Hcap ltac:(lia))
    as (m1 & EC & W1 & Eu1 & Ec1 & Es1 & Hfr1 & Hch).
  cbv zeta in Hfr1, Hch. rewrite <- En in EC, Eu1, Hfr1.
  set (u := Struct.used_space m b) in *.
  set (c := List.mk_content n (b + u)
              (match k with O => NULL | S _ => b + u + sizeT end)) in *.
  pose proof (proj2 (wf_used_space m b Hwf)) as Hu. fold u in Hu.
  pose proof Hwf as (Hb & Hss & _).
  unfold Struct.sizeof in Hu, Hss.
  pose proof (wf_used_lower m b Hwf) as Hl. fold u in Hl.
  assert (Ht : OffsetPtr.to_bool m (Struct.allocator_slot b) = true).
  { destruct (wf_capacity m b Hwf) as [E _].
    destruct (wf_used_space m b Hwf) as [E' _]. fold u in E'.
    destruct (OffsetPtr.to_bool m (Struct.allocator_slot b)); [reflexivity |].
    nia. }
  rewrite Ht in Hl. unfold Allocator.sizeof in Hl.
  assert (Hx1' : forall a, x <= a < x + 12 -> m1 a = m a).
  { intros a Ha. apply Hfr1. lia. }
  assert (Hsz1 : List.size_ m1 x = 0).
  { rewrite <- Hsz. apply load_u32_agree. intros a Ha. apply Hx1'. lia. }
  assert (Hrep : lrep (List.assign m1 x c) x (b + u)
                   (chain_layout (b + u + sizeT) sizeT k)
                 /\ forall a, a < x \/ x + 12 <= a ->
                      List.assign m1 x c a = m1 a).
  { unfold c. destruct k as [| k'].
    - replace n with 1 by lia. cbn [chain_layout].
      apply assign_single; unfold NULL, List.value_slot; lia.
    - assert (Hprod : 2 * sizeT <= n * sizeT) by nia.
      destruct (assign_linked m1 x n (b + u) (b + u + sizeT))
        as (A1 & A2 & A3 & A4 & A5 & A6);
        try (unfold NULL, List.value_slot, List.next_slot; lia).
      split; [| exact A6].
      cbn [chain_layout] in Hch |- *. unfold List.sizeof in Hch |- *.
      cbn [lrep]. cbn [length]. rewrite chain_layout_length.
      split; [rewrite A1; lia |].
      split; [exact A2 | split; [exact A3 |]].
      split; [exact A4 | split; [exact A5 |]].
      apply (lrep_agree _ m1); [exact Hch |].
      intros z Hin a Ha. apply A6.
      change (nodes (b + u + sizeT)
                (chain_layout (b + u + sizeT + 12 + sizeT) sizeT k'))
        with (Lists.List.map fst (chain_layout (b + u + sizeT) sizeT (S k')))
        in Hin.
      apply (chain_layout_nodes sizeT ltac:(lia)) in Hin. lia. }
  destruct Hrep as [Hrep Hfr2].
  set (m2 := List.assign m1 x c) in *.
  destruct (wf_agree_header m2 m1 b W1) as (W2 & Es2 & Eu2 & Ec2).
  { intros a Ha. apply Hfr2. lia. }
  { intros _ a Ha. apply Hfr2. rewrite Es1 in Ha. lia. }
  assert (Hlen : length (chain_layout (b + u + sizeT) sizeT k) = k)
    by apply chain_layout_length.
  exists m2. split; [| split; [exact Hrep | split; [| split; [| split;
    [exact W2 | split; [lia | split; [lia |]]]]]]].
  - cbn [ListOps.resize]. rewrite Hsz.
    destruct (Z.eqb_spec n 0); [lia |].
    destruct (Z.gtb_spec n 0); [| lia].
    rewrite Z.sub_0_r, EC.
    cbn [ListOps.append].
    destruct (Z.eqb_spec b NULL) as [E0 | _]; [unfold NULL in E0; lia |].
    unfold List.empty. rewrite Hsz1. reflexivity.
  - rewrite (lrep_size m2 _ _ _ Hrep), Hlen. lia.
  - intros i Hi.
    rewrite (lrep_index m2 _ x (b + u) (S fuel) i Hrep) by (rewrite ?Hlen; lia).
    f_equal. f_equal. unfold values.
    destruct (Z.to_nat i) as [| j] eqn:Ei.
    + cbn [Lists.List.nth]. assert (i = 0) by lia. subst i. lia.
    + cbn [Lists.List.nth]. rewrite chain_layout_values by lia.
      assert (Z.of_nat j = i - 1) by lia. nia.
  - intros a Ha Hb'. rewrite Hfr2 by lia. apply Hfr1. lia.
Qed.

Lemma list_resize_grows_empty_witness :
  exists m',
    ListOps.resize 8 Samples.empty_list_block (Samples.items 1000) 1000 4 3
    = Some (m', true)
    /\ List.index 8 m' (Samples.items 1000) 2
       = Some (Ok (1000 + Struct.used_space Samples.empty_list_block 1000
                   + 2 * (4 + List.sizeof))).
Proof.
  destruct (list_resize_grows_empty Samples.empty_list_block 1000
              (Samples.items 1000) 4 3 8) as (m' & E & _ & _ & Hi & _).
  - vm_compute. repeat split; try discriminate; intros _; repeat split;
      discriminate.
  - vm_compute. repeat split;
      first [discriminate | left; discriminate | right; discriminate].
  - vm_compute. reflexivity.
  - lia.
  - lia.
  - vm_compute. discriminate.
  - vm_compute. reflexivity.
  - simpl. lia.
  - exists m'. split; [exact E |]. apply Hi. lia.
Defined.

(** ** Appending a whole chain *)

Lemma assign_frame m p c a :
  a < p \/ p + 12 <= a -> List.assign m p c a = m a.
Proof.
  intros Ha. unfold List.assign, OffsetPtr.assign_ptr, List.value_slot,
    List.next_slot.
  rewrite !store_u32_other by lia. reflexivity.
Qed.

Lemma load_u32_zeroed (m0 : mem) a :
  (forall x, a <= x < a + 4 -> m0 x = 0) -> load_u32 m0 a = 0.
Proof.
  intros H. unfold load_u32, load_u8.
  rewrite (H a), (H (a + 1)), (H (a + 2)), (H (a + 3)) by lia. reflexivity.
Qed.

Section AppendContent.

Variables (m : mem) (b : Z) (c : List.content_type) (w : Z)
  (crest : list (Z * Z)).
Hypothesis Hwf : wf_block m b.
Hypothesis Hfree : Struct.used_space m b + List.sizeof <= Struct.capacity m b.
Hypothesis Hsmall : Struct.used_space m b + List.sizeof < 2 ^ 31.

Let p := b + Struct.used_space m b.
Let al := b + Struct.struct_size m b.
Let m1 := fst (Struct.Allocate m b List.sizeof 1).

Hypothesis Hcrest : forall z, Lists.List.In z (Lists.List.map fst crest) ->
  node_ok m b z.
Hypothesis Hassign : forall m2,
  (forall z, Lists.List.In z (Lists.List.map fst crest) ->
     forall a, z <= a < z + 12 -> m2 a = m a) ->
  lrep (List.assign m2 p c) p w crest.

Lemma append_content : forall rest x v fuel,
  lrep m x v rest ->
  (forall z, Lists.List.In z (nodes x rest) -> node_ok m b z) ->
  disjoint_nodes (nodes x rest) ->
  (forall z, Lists.List.In z (nodes x rest) ->
     forall y, Lists.List.In y (Lists.List.map fst crest) ->
       z + 12 <= y \/ y + 12 <= z) ->
  Z.of_nat (length rest) + Z.of_nat (length crest) + 2 < 2 ^ 32 ->
  (S (length rest) < fuel)%nat ->
  exists m',
    ListOps.append fuel m x b c = Some (m', true)
    /\ lrep m' x v (Lists.List.app rest (cons (p, w) crest))
    /\ (forall a,
          (forall z, Lists.List.In z (nodes x rest) -> a < z \/ z + 12 <= a) ->
          a < al + 4 \/ al + 8 <= a -> a < p \/ p + 12 <= a -> m' a = m a)
    /\ (forall a, al + 4 <= a < al + 8 -> m' a = m1 a).
Proof.
  destruct (append_alloc_facts m b Hwf Hfree)
    as (EA & W1 & Eu1 & Ec1 & Hz & Hfr & Halp & Hb).
  fold p in EA, Hz, Hfr, Halp. fold al in Hfr, Halp. fold m1 in EA, W1, Eu1, Ec1,
    Hz, Hfr.
  assert (Hs : b <> NULL) by (unfold NULL; lia).
  pose proof Hsmall as Hsm. unfold List.sizeof in Hsm. fold p in Hsm.
  assert (Hcr : forall z, Lists.List.In z (Lists.List.map fst crest) ->
            b + 8 <= z /\ (z + 12 <= al \/ al + 8 <= z) /\ z + 12 <= p).
  { intros z Hz0. destruct (Hcrest z Hz0) as (H1 & H2 & H3).
    unfold Struct.sizeof, List.sizeof, Allocator.sizeof in *.
    fold al in H2. fold p in H3. lia. }
  induction rest as [| [y w'] rest IH]; intros x v fuel H Hok Hdis Hsep Hlen Hf.
  - (* the tail: a node is allocated, linked and given the content *)
    destruct fuel as [| [| fuel]]; [simpl in Hf; lia | simpl in Hf; lia |].
    destruct (Hok x (or_introl eq_refl)) as (Hx1 & Hx2 & Hx3).
    unfold Struct.sizeof, List.sizeof, Allocator.sizeof in Hx1, Hx2, Hx3.
    fold al in Hx2. fold p in Hx3.
    pose proof (Hsep x (or_introl eq_refl)) as Hsx.
    destruct H as (Hsz & Htv & Hgv & Htn). simpl length in Hsz.
    assert (He : List.empty m x = false).
    { unfold List.empty. rewrite Hsz. reflexivity. }
    set (m2 := OffsetPtr.assign_ptr m1 (List.next_slot x) p).
    assert (Ho2 : OffsetPtr.offset_ m2 (List.next_slot x) = p - List.next_slot x).
    { apply assign_ptr_offset; unfold NULL, List.next_slot, p in *; lia. }
    assert (Ht2 : OffsetPtr.to_bool m2 (List.next_slot x) = true).
    { apply to_bool_true_iff. rewrite Ho2. unfold List.next_slot. lia. }
    assert (Eg2 : OffsetPtr.get m2 (List.next_slot x) = p).
    { rewrite (get_target _ _ Ht2), Ho2. lia. }
    rewrite (append_new_node (S fuel) m x b c m1 p Hs He Htn EA Ht2).
    fold m2. rewrite Eg2.
    assert (Hm2 : forall a, a < List.next_slot x \/ List.next_slot x + 4 <= a ->
                    m2 a = m1 a).
    { intros a Ha. apply store_u32_other. exact Ha. }
    assert (He2 : List.empty m2 p = true).
    { unfold List.empty, List.size_. rewrite load_u32_zeroed; [reflexivity |].
      intros a Ha. rewrite Hm2 by (unfold List.next_slot; lia).
      apply Hz. lia. }
    rewrite (append_on_empty fuel m2 p b c Hs He2).
    assert (Hrp : lrep (List.assign m2 p c) p w crest).
    { apply Hassign. intros z Hz0 a Ha.
      destruct (Hcr z Hz0) as (H1 & H2 & H3). specialize (Hsx z Hz0).
      rewrite Hm2 by (unfold List.next_slot; lia). apply Hfr. lia. }
    pose proof (assign_frame m2 p c) as Hfr3.
    set (m3 := List.assign m2 p c) in *.
    assert (Hx3' : forall a, x <= a < x + 12 -> m3 a = m2 a)
      by (intros a Ha; apply Hfr3; lia).
    destruct (node_fields_agree m3 m2 x Hx3') as (_ & _ & _ & Etn3 & Egn3).
    rewrite Egn3, Eg2. rewrite (lrep_size m3 _ _ _ Hrp).
    set (m4 := store_u32 m3 x (1 + Z.of_nat (length crest) + 1)).
    exists m4. split; [reflexivity | split; [| split]].
    + (* the chain after the append *)
      assert (Hval : forall a, x + 4 <= a < x + 8 -> m4 a = m a).
      { intros a Ha. unfold m4. rewrite store_u32_other by lia.
        rewrite Hfr3 by lia. rewrite Hm2 by (unfold List.next_slot; lia).
        apply Hfr. lia. }
      assert (Enx : forall a, x + 8 <= a < x + 12 -> m4 a = m2 a).
      { intros a Ha. unfold m4. rewrite store_u32_other by lia.
        apply Hfr3. lia. }
      change (lrep m4 x v (cons (p, w) crest)). cbn [lrep].
      split; [| split; [| split; [| split; [| split]]]].
      * unfold List.size_, m4. rewrite load_store_u32_same.
        simpl length in Hlen |- *. rewrite wrap32_small by lia. lia.
      * rewrite <- Htv. apply to_bool_of_offset, load_i32_agree.
        intros a Ha. apply Hval. unfold List.value_slot in Ha. lia.
      * rewrite <- Hgv. unfold OffsetPtr.get.
        replace (OffsetPtr.offset_ m4 (List.value_slot x))
          with (OffsetPtr.offset_ m (List.value_slot x)); [reflexivity |].
        symmetry. apply load_i32_agree.
        intros a Ha. apply Hval. unfold List.value_slot in Ha. lia.
      * rewrite <- Ht2. apply to_bool_of_offset, load_i32_agree.
        intros a Ha. apply Enx. unfold List.next_slot in Ha. lia.
      * rewrite <- Eg2. unfold OffsetPtr.get.
        replace (OffsetPtr.offset_ m4 (List.next_slot x))
          with (OffsetPtr.offset_ m2 (List.next_slot x)); [reflexivity |].
        symmetry. apply load_i32_agree.
        intros a Ha. apply Enx. unfold List.next_slot in Ha. lia.
      * apply (lrep_agree m4 m3 crest p w Hrp).
        intros z Hz0 a Ha. unfold m4. apply store_u32_other.
        destruct Hz0 as [<- | Hz0]; [lia |].
        specialize (Hsx z Hz0). lia.
    + intros a Hn Hc Hp. specialize (Hn x (or_introl eq_refl)).
      unfold m4. rewrite store_u32_other by lia.
      rewrite Hfr3 by lia. rewrite Hm2 by (unfold List.next_slot; lia).
      apply Hfr. lia.
    + intros a Ha. unfold m4. rewrite store_u32_other by lia.
      rewrite Hfr3 by lia. apply Hm2. unfold List.next_slot. lia.
  - (* an inner node: the content goes further down, the size is updated *)
    destruct fuel as [| fuel]; [simpl in Hf; lia |].
    destruct (Hok x (or_introl eq_refl)) as (Hx1 & Hx2 & Hx3).
    unfold Struct.sizeof, List.sizeof, Allocator.sizeof in Hx1, Hx2, Hx3.
    fold al in Hx2. fold p in Hx3.
    pose proof (Hsep x (or_introl eq_refl)) as Hsx.
    destruct Hdis as [Hxd Hdis']. unfold List.sizeof in Hxd.
    destruct H as (Hsz & Htv & Hgv & Htn & Hgn & Hrest).
    assert (He : List.empty m x = false).
    { unfold List.empty. rewrite Hsz.
      destruct (Z.eqb_spec (1 + Z.of_nat (length ((y, w') :: rest))) 0);
        [lia | reflexivity]. }
    rewrite (append_through_next fuel m x b c Hs He Htn). rewrite Hgn.
    destruct (IH y w' fuel Hrest) as (m2 & Eap & Hrep2 & Hfr2 & Hcnt2).
    { intros z Hz0. apply Hok. right. exact Hz0. }
    { exact Hdis'. }
    { intros z Hz0. apply Hsep. right. exact Hz0. }
    { simpl length in Hlen. lia. }
    { simpl length in Hf. lia. }
    rewrite Eap.
    assert (Hx2' : forall a, x <= a < x + 12 -> m2 a = m a).
    { intros a Ha. apply Hfr2; [| lia | lia].
      intros z Hz0. destruct (Hxd z Hz0); lia. }
    destruct (node_fields_agree m2 m x Hx2') as (_ & Etv2 & Egv2 & Etn2 & Egn2).
    rewrite Egn2, Hgn. rewrite (lrep_size m2 _ _ _ Hrep2).
    set (n' := 1 + Z.of_nat (length (Lists.List.app rest (cons (p, w) crest))) + 1).
    set (m4 := store_u32 m2 x n').
    assert (Hn' : n' = 1 + Z.of_nat
                           (length (cons (y, w')
                                      (Lists.List.app rest (cons (p, w) crest))))).
    { unfold n'. simpl length. lia. }
    assert (Hn32 : 0 <= n' < 2 ^ 32).
    { rewrite Hn'. simpl length in *. rewrite Lists.List.length_app in *.
      simpl length in *. lia. }
    assert (Hrest4 : forall a, x + 4 <= a < x + 12 -> m4 a = m2 a)
      by (intros a Ha; unfold m4; apply store_u32_other; lia).
    exists m4. split; [reflexivity | split; [| split]].
    + change (lrep m4 x v
                (cons (y, w') (Lists.List.app rest (cons (p, w) crest)))).
      cbn [lrep]. split; [| split; [| split; [| split; [| split]]]].
      * unfold List.size_, m4. rewrite load_store_u32_same.
        rewrite wrap32_small by exact Hn32. exact Hn'.
      * rewrite <- Htv, <- Etv2. apply to_bool_of_offset, load_i32_agree.
        intros a Ha. apply Hrest4. unfold List.value_slot in Ha. lia.
      * rewrite <- Hgv, <- Egv2. unfold OffsetPtr.get.
        replace (OffsetPtr.offset_ m4 (List.value_slot x))
          with (OffsetPtr.offset_ m2 (List.value_slot x)); [reflexivity |].
        symmetry. apply load_i32_agree.
        intros a Ha. apply Hrest4. unfold List.value_slot in Ha. lia.
      * rewrite <- Htn, <- Etn2. apply to_bool_of_offset, load_i32_agree.
        intros a Ha. apply Hrest4. unfold List.next_slot in Ha. lia.
      * rewrite <- Hgn, <- Egn2. unfold OffsetPtr.get.
        replace (OffsetPtr.offset_ m4 (List.next_slot x))
          with (OffsetPtr.offset_ m2 (List.next_slot x)); [reflexivity |].
        symmetry. apply load_i32_agree.
        intros a Ha. apply Hrest4. unfold List.next_slot in Ha. lia.
      * apply (lrep_agree m4 m2 _ y w' Hrep2).
        intros z Hz0 a Ha. unfold m4. apply store_u32_other.
        unfold nodes in Hz0. rewrite Lists.List.map_app in Hz0.
        change (Lists.List.In z
                  (Lists.List.app (cons y (Lists.List.map fst rest))
                     (cons p (Lists.List.map fst crest))))
          in Hz0.
        apply Lists.List.in_app_or in Hz0.
        destruct Hz0 as [Hz0 | [<- | Hz0]].
        -- destruct (Hxd z Hz0); lia.
        -- lia.
        -- specialize (Hsx z Hz0). lia.
    + intros a Hn Hc Hp. unfold m4.
      rewrite store_u32_other by (specialize (Hn x (or_introl eq_refl)); lia).
      apply Hfr2; [| exact Hc | exact Hp].
      intros z Hz0. apply Hn. right. exact Hz0.
    + intros a Ha. unfold m4. rewrite store_u32_other by lia.
      apply Hcnt2. exact Ha.
Qed.

End AppendContent.

(** X22.  Growing a non-empty list: [resize(s, size + d)] lets
    [CreateList<T>(d)] lay out [d] elements and [d - 1] nodes at the end
    of the used bytes and then appends that chain, which takes one more
    node to link it after the last node.  When the [d] elements and [d]
    nodes fit, the call succeeds, the list is the old one followed by the
    [d] new elements in allocation order, every node's [size_] is again
    the number of elements from it onward, the old elements keep their
    places, and the block stays well formed with [used_space()] grown by
    [d * (sizeof(T) + sizeof(List<T>))]. *)
Theorem list_resize_grows
  (m : mem) (b x v sizeT d : Z) (rest : list (Z * Z)) (fuel : nat) :
  wf_block m b ->
  lrep m x v rest ->
  (forall z, Lists.List.In z (nodes x rest) -> node_ok m b z) ->
  disjoint_nodes (nodes x rest) ->
  1 <= sizeT -> 1 <= d ->
  Struct.used_space m b + d * (sizeT + List.sizeof) <= Struct.capacity m b ->
  Struct.capacity m b < 2 ^ 31 ->
  List.size_ m x + d < 2 ^ 32 ->
  (length rest + Z.to_nat d + 1 < fuel)%nat ->
  let p := b + Struct.used_space m b in
  let q := p + d * sizeT + (d - 1) * List.sizeof in
  let al := b + Struct.struct_size m b in
  exists m',
    ListOps.resize fuel m x b sizeT (List.size_ m x + d) = Some (m', true)
    /\ lrep m' x v
         (Lists.List.app rest
            (cons (q, p) (chain_layout (p + sizeT) sizeT (Z.to_nat (d - 1)))))
    /\ List.size_ m' x = List.size_ m x + d
    /\ (forall i, 0 <= i < List.size_ m x ->
          List.index fuel m' x i = List.index fuel m x i)
    /\ (forall j, 0 <= j < d ->
          List.index fuel m' x (List.size_ m x + j)
          = Some (Ok (p + j * (sizeT + List.sizeof))))
    /\ wf_block m' b
    /\ Struct.used_space m' b
       = Struct.used_space m b + d * (sizeT + List.sizeof)
    /\ Struct.capacity m' b = Struct.capacity m b
    /\ (forall a,
          (forall z, Lists.List.In z (nodes x rest) -> a < z \/ z + 12 <= a) ->
          a < al + 4 \/ al + 8 <= a ->
          a < p \/ p + d * (sizeT + List.sizeof) <= a -> m' a = m a).
Proof.
  intros Hwf H Hok Hdis HsT Hd Hfit Hcap H32 Hf. cbv zeta.
  unfold List.sizeof in *.
  destruct fuel as [| fuel]; [lia |].
  remember (Z.to_nat (d - 1)) as k eqn:Ek.
  assert (Ed : d = 1 + Z.of_nat k) by lia.
  pose proof (lrep_size m _ _ _ H) as Hsz.
  set (u := Struct.used_space m b) in *.
  set (ss := Struct.struct_size m b) in *.
  pose proof (proj2 (wf_used_space m b Hwf)) as Hu. fold u in Hu.
  pose proof Hwf as (Hb & Hss & _). fold ss in Hss.
  unfold Struct.sizeof in Hu, Hss.
  assert (Hkm : Z.of_nat k * (sizeT + 12) = Z.of_nat k * sizeT + Z.of_nat k * 12)
    by lia.
  assert (Hdm : d * (sizeT + 12) = d * sizeT + d * 12) by lia.
  assert (Hds : d * sizeT = sizeT + Z.of_nat k * sizeT) by (rewrite Ed; lia).
  assert (Hks : 0 <= Z.of_nat k * sizeT) by nia.
  (* the chain built by CreateList *)
  destruct (create_list_chain b sizeT HsT k m (S fuel) Hwf
              ltac:(fold u; lia) Hcap ltac:(lia))
    as (mA & EC & WA & EuA & EcA & EsA & HfrA & Hch).
  cbv zeta in HfrA, Hch. fold u in EC, EuA, HfrA, Hch. fold ss in EsA, HfrA.
  rewrite <- Ed in EC, EuA, HfrA.
  set (crest := chain_layout (b + u + sizeT) sizeT k) in *.
  set (c := List.mk_content d (b + u)
              (match k with O => NULL | S _ => b + u + sizeT end)) in *.
  assert (Hcl : length crest = k) by apply chain_layout_length.
  assert (Hcn : forall z, Lists.List.In z (Lists.List.map fst crest) ->
            b + u + sizeT <= z
            /\ z + 12 + sizeT <= b + u + sizeT + Z.of_nat k * (12 + sizeT)).
  { intros z Hz. apply (chain_layout_nodes sizeT ltac:(lia)) in Hz. exact Hz. }
  assert (Hnodes : forall z, Lists.List.In z (nodes x rest) ->
            b + 8 <= z /\ (z + 12 <= b + ss \/ b + ss + 8 <= z)
            /\ z + 12 <= b + u).
  { intros z Hz. destruct (Hok z Hz) as (H1 & H2 & H3).
    unfold Struct.sizeof, List.sizeof, Allocator.sizeof in *.
    fold ss in H2. fold u in H3. lia. }
  assert (Hal : b + ss + 8 <= b + u).
  { pose proof (wf_used_lower m b Hwf) as Hl. fold u ss in Hl.
    destruct (wf_capacity m b Hwf) as [E _].
    destruct (wf_used_space m b Hwf) as [E' _]. fold u ss in E, E'.
    destruct (OffsetPtr.to_bool m (Struct.allocator_slot b));
      unfold Allocator.sizeof in Hl; lia. }
  assert (HrepA : lrep mA x v rest).
  { apply (lrep_agree mA m rest x v H). intros z Hz a Ha.
    destruct (Hnodes z Hz) as (H1 & H2 & H3). apply HfrA. lia. }
  assert (HokA : forall z, Lists.List.In z (nodes x rest) -> node_ok mA b z).
  { intros z Hz. destruct (Hnodes z Hz) as (H1 & H2 & H3).
    unfold node_ok, Struct.sizeof, List.sizeof, Allocator.sizeof.
    rewrite EsA, EuA. lia. }
  assert (HcrA : forall z, Lists.List.In z (Lists.List.map fst crest) ->
                   node_ok mA b z).
  { intros z Hz. destruct (Hcn z Hz) as (H1 & H2).
    unfold node_ok, Struct.sizeof, List.sizeof, Allocator.sizeof.
    rewrite EsA, EuA. lia. }
  set (q := b + Struct.used_space mA b).
  assert (Eq : q = b + u + d * sizeT + (d - 1) * 12)
    by (unfold q; rewrite EuA; lia).
  assert (Hassign : forall m2,
            (forall z, Lists.List.In z (Lists.List.map fst crest) ->
               forall a, z <= a < z + 12 -> m2 a = mA a) ->
            lrep (List.assign m2 q c) q (b + u) crest).
  { intros m2 Hagr. unfold c, crest in *. destruct k as [| k'].
    - replace d with 1 by lia. cbn [chain_layout].
      apply assign_single; unfold NULL, List.value_slot; lia.
    - destruct (assign_linked m2 q d (b + u) (b + u + sizeT))
        as (A1 & A2 & A3 & A4 & A5 & A6);
        try (unfold NULL, List.value_slot, List.next_slot; lia).
      cbn [chain_layout] in Hch, Hagr, Hcn |- *.
      unfold List.sizeof in Hch, Hagr, Hcn |- *.
      cbn [lrep]. cbn [length]. rewrite chain_layout_length.
      split; [rewrite A1; lia |].
      split; [exact A2 | split; [exact A3 |]].
      split; [exact A4 | split; [exact A5 |]].
      apply (lrep_agree _ mA); [exact Hch |].
      intros z Hin a Ha.
      change (Lists.List.In z (Lists.List.map fst
                (cons (b + u + sizeT, b + u + sizeT + 12)
                   (chain_layout (b + u + sizeT + 12 + sizeT) sizeT k'))))
        in Hin.
      rewrite A6 by (destruct (Hcn z Hin); lia).
      apply (Hagr z Hin). exact Ha. }
  destruct (append_content mA b c (b + u) crest WA
              ltac:(unfold List.sizeof; lia) ltac:(unfold List.sizeof; lia)
              HcrA Hassign rest x v (S fuel) HrepA HokA Hdis)
    as (m' & Eap & Hrep & Hframe & Hcnt).
  { intros z Hz y Hy. destruct (Hnodes z Hz) as (H1 & H2 & H3).
    destruct (Hcn y Hy). lia. }
  { rewrite Hcl. lia. }
  { lia. }
  fold q in Hrep, Hframe. rewrite EsA in Hframe, Hcnt. fold ss in Hframe, Hcnt.
  (* the block after the append *)
  destruct (append_alloc_facts mA b WA ltac:(unfold List.sizeof; lia))
    as (_ & W1 & Eu1 & Ec1 & _ & Hfr1 & _).
  fold q in Hfr1. rewrite EsA in Hfr1. fold ss in Hfr1.
  unfold List.sizeof in Eu1, Ec1, Hfr1, W1, Hcnt.
  set (m1 := fst (Struct.Allocate mA b 12 1)) in *.
  assert (Ess1 : Struct.struct_size m1 b = ss).
  { rewrite <- EsA. apply load_u32_agree. intros a Ha. apply Hfr1. lia. }
  destruct (wf_agree_header m' m1 b W1) as (W' & _ & Eu' & Ec').
  { intros a Ha. rewrite Hfr1 by lia. apply Hframe; [| lia | lia].
    intros z Hz. destruct (Hnodes z Hz) as (H1 & H2 & H3). lia. }
  { intros _ a Ha. rewrite Ess1 in Ha.
    destruct (Z_lt_le_dec a (b + ss + 4)).
    - rewrite Hfr1 by lia. apply Hframe; [| lia | lia].
      intros z Hz. destruct (Hnodes z Hz) as (H1 & H2 & H3). lia.
    - apply Hcnt. lia. }
  replace (b + u + d * sizeT + (d - 1) * 12) with q by lia.
  pose proof (lrep_size m' _ _ _ Hrep) as Hsz'.
  rewrite Lists.List.length_app in Hsz'. cbn [length] in Hsz'.
  rewrite Hcl in Hsz'.
  exists m'. split; [| split; [exact Hrep | split; [lia | split; [| split;
    [| split; [exact W' | split; [lia | split; [lia |]]]]]]]].
  - cbn [ListOps.resize].
    destruct (Z.eqb_spec (List.size_ m x + d) (List.size_ m x)); [lia |].
    destruct (Z.gtb_spec (List.size_ m x + d) (List.size_ m x)); [| lia].
    replace (List.size_ m x + d - List.size_ m x) with d by lia.
    rewrite EC. exact Eap.
  - intros i Hi.
    rewrite (lrep_index m' _ x v (S fuel) i Hrep)
      by (rewrite ?Lists.List.length_app; cbn [length]; lia).
    rewrite (lrep_index m _ x v (S fuel) i H) by lia.
    f_equal. f_equal. unfold values. rewrite Lists.List.map_app.
    rewrite Lists.List.app_comm_cons.
    apply Lists.List.app_nth1. cbn [length]. rewrite Lists.List.length_map.
    lia.
  - intros j Hj.
    rewrite (lrep_index m' _ x v (S fuel) (List.size_ m x + j) Hrep)
      by (rewrite ?Lists.List.length_app; cbn [length]; lia).
    f_equal. f_equal. unfold values. rewrite Lists.List.map_app.
    rewrite Lists.List.app_comm_cons.
    rewrite Lists.List.app_nth2
      by (cbn [length]; rewrite Lists.List.length_map; lia).
    cbn [length]. rewrite Lists.List.length_map.
    replace (Z.to_nat (List.size_ m x + j) - S (length rest))%nat
      with (Z.to_nat j) by lia.
    cbn [Lists.List.map snd].
    destruct (Z.to_nat j) as [| j'] eqn:Ej.
    + cbn [Lists.List.nth]. assert (j = 0) by lia. subst j. lia.
    + cbn [Lists.List.nth]. unfold crest.
      rewrite chain_layout_values by lia.
      assert (Z.of_nat j' = j - 1) by lia. nia.
  - intros a Hn Ha Hp. rewrite Hframe; [apply HfrA; lia | exact Hn | exact Ha |
      lia].
Qed.

Lemma list_resize_grows_witness :
  exists m',
    ListOps.resize 8 Samples.list_block (Samples.items 1000) 1000 4
      (List.size_ Samples.list_block (Samples.items 1000) + 2)
    = Some (m', true)
    /\ List.size_ m' (Samples.items 1000)
       = List.size_ Samples.list_block (Samples.items 1000) + 2.
Proof.
  destruct (list_resize_grows Samples.list_block 1000 (Samples.items 1000)
              1028 4 2 Samples.list_rest 8) as (m' & E & _ & S' & _).
  - vm_compute. repeat split; try discriminate; intros _; repeat split;
      discriminate.
  - vm_compute. repeat split.
  - intros z Hz. simpl in Hz.
    repeat (destruct Hz as [<- | Hz];
            [vm_compute; repeat split;
             first [discriminate | left; discriminate | right; discriminate] |]).
    contradiction.
  - simpl. unfold List.sizeof.
    repeat split; intros y Hy;
      repeat (destruct Hy as [<- | Hy]; [lia |]); contradiction.
  - lia.
  - lia.
  - vm_compute. discriminate.
  - vm_compute. reflexivity.
  - vm_compute. reflexivity.
  - simpl. lia.
  - exists m'. split; [exact E | exact S'].
Defined.
